(** * The battle resolution engine of unciv-rs (Python port)

    A shallow embedding of the combat core: the combatant abstraction
    ([i_combatant.py], [map_unit_combatant.py], [city_combatant.py]), the
    damage model ([battle_damage.py]), the interception and capture
    subsystems ([air_interception.py], [battle_unit_capture.py]), the
    battle orchestrator ([battle.py]), the nuclear strike ([nuke.py]) and
    the great general bonus ([great_general_implementation.py]).

    Conventions of the embedding:
    - Python [int] is [Z]; [int(x)] is truncation towards zero;
    - Python [float] is the IEEE binary64 format.  The damage model, the
      award of experience and the damage of an interception compute in it,
      every operation rounded to the nearest float ([Float]): these are
      the computations whose integer results the rounding can change.  The
      draws of the generators, and the chances and damages that are
      compared with them or made of them, are kept as the rationals they
      denote;
    - the two combatants of a battle are passed and returned explicitly;
      everything else they share (civilizations, tiles, cities, the other
      units, diplomacy) lives in one [World], civilizations being referred
      to by name;
    - a raised exception is the result [None];
    - the global generator behind [random.random()] is a stream of draws,
      with the number of draws consumed so far as its state; a private
      generator [random.Random(seed)] is a function of its seed;
    - notifications, pop-up alerts and debug output are not part of the
      state;
    - classes of the game that are not part of the battle core (map units,
      tiles, cities, the ruleset) appear as records of the attributes the
      core reads and writes; their methods, and the steps of the core that
      only run ruleset triggers or map movement, are members of the class
      [Externals]. *)

From Stdlib Require Import ZArith QArith Qround Qminmax Qpower Qabs Lia Lqa List Bool String.
From stdpp Require Import gmap strings.
Import ListNotations.

Open Scope Z_scope.

(** ** Numbers *)

(** [int(x)] on a float: truncation towards zero. *)
Definition int_of_float (x : Q) : Z := Z.quot (Qnum x) (Zpos (Qden x)).

(** [a < b] on floats, as a boolean. *)
Definition Qlt_bool (a b : Q) : bool := negb (Qle_bool b a).

(** The bind of computations that may raise. *)
Definition obind {A B : Type} (o : option A) (k : A -> option B) : option B :=
  match o with Some a => k a | None => None end.

Notation "'let?' x ':=' c 'in' k" := (obind c (fun x => k))
  (at level 10, x name, c at level 200, k at level 200).

(** ** Floats

    The binary64 format: a float is a finite value, an infinity or NaN;
    a finite value is kept as the rational it is, zero without a sign
    (the sign of a zero is of no consequence to what the battle core
    computes).  The operations are those of Python: the arithmetic of
    IEEE 754 with rounding to nearest, ties to even, and the exceptions
    that Python raises where IEEE 754 returns an infinity or NaN. *)

Module Float.

Local Open Scope Q_scope.

(* the precision, the exponent of the last place of the subnormals, and
   the exponent from which a value is beyond the floats *)
Definition prec : Z := 53.
Definition emin : Z := -1074.
Definition emax : Z := 1024.

Inductive float : Type :=
| Finite (q : Q)
| Infinity (negative : bool)
| NaN.

Definition pow2 (e : Z) : Q := 2 ^ e.

(** The magnitude of a rational that is not zero: the [e] with
    [2^(e-1) <= |q| < 2^e]. *)
Definition mag (q : Q) : Z :=
  let e := (Z.log2 (Z.abs (Qnum q)) - Z.log2 (Zpos (Qden q)))%Z in
  if Qle_bool (pow2 e) (Qabs q) then (e + 1)%Z else e.

(** The integer nearest to a rational, the even one of two that are
    equally near. *)
Definition nearest_even (x : Q) : Z :=
  let f := Qfloor x in
  match Qcompare (x - inject_Z f) (1 # 2) with
  | Lt => f
  | Gt => (f + 1)%Z
  | Eq => if Z.even f then f else (f + 1)%Z
  end.

(** The exponent of the last place of the floats around [q]. *)
Definition cexp (q : Q) : Z := Z.max (mag q - prec) emin.

(** The multiple of [2^cexp q] nearest to [q]. *)
Definition round (q : Q) : Q :=
  if Qeq_bool q 0 then 0
  else Qred (inject_Z (nearest_even (q / pow2 (cexp q))) * pow2 (cexp q)).

(** The float nearest to a rational; beyond the largest float it is an
    infinity. *)
Definition of_Q (q : Q) : float :=
  let r := round q in
  if Qle_bool (pow2 emax) (Qabs r) then Infinity (Qlt_bool q 0) else Finite r.

Definition opp (x : float) : float :=
  match x with
  | Finite q => Finite (Qred (- q))
  | Infinity s => Infinity (negb s)
  | NaN => NaN
  end.

Definition add (x y : float) : float :=
  match x, y with
  | Finite a, Finite b => of_Q (a + b)
  | Infinity s, Infinity s' => if Bool.eqb s s' then Infinity s else NaN
  | Infinity s, Finite _ | Finite _, Infinity s => Infinity s
  | _, _ => NaN
  end.

Definition sub (x y : float) : float := add x (opp y).

Definition mul (x y : float) : float :=
  match x, y with
  | Finite a, Finite b => of_Q (a * b)
  | Infinity s, Infinity s' => Infinity (xorb s s')
  | Infinity s, Finite b | Finite b, Infinity s =>
    if Qeq_bool b 0 then NaN else Infinity (xorb s (Qlt_bool b 0))
  | _, _ => NaN
  end.

Definition is_zero (x : float) : bool :=
  match x with Finite q => Qeq_bool q 0 | _ => false end.

(** [x / y]; a zero divisor raises [ZeroDivisionError]. *)
Definition div (x y : float) : option float :=
  if is_zero y then None
  else Some match x, y with
            | Finite a, Finite b => of_Q (a / b)
            | Finite _, Infinity _ => Finite 0
            | Infinity s, Finite b => Infinity (xorb s (Qlt_bool b 0))
            | _, _ => NaN
            end.

(** [x < y] and [x <= y]; false when one of the two is NaN. *)
Definition ltb (x y : float) : bool :=
  match x, y with
  | Finite a, Finite b => Qlt_bool a b
  | Finite _, Infinity s => negb s
  | Infinity s, Finite _ => s
  | Infinity s, Infinity s' => s && negb s'
  | _, _ => false
  end.

Definition leb (x y : float) : bool :=
  match x, y with
  | Finite a, Finite b => Qle_bool a b
  | Finite _, Infinity s => negb s
  | Infinity s, Finite _ => s
  | Infinity s, Infinity s' => s || negb s'
  | _, _ => false
  end.

(** [max(x, y)]: [y] when [y > x], else [x]. *)
Definition max (x y : float) : float := if ltb x y then y else x.

(** [float(n)], also where an operation converts an [int] operand; an
    integer beyond the floats raises [OverflowError]. *)
Definition of_int (n : Z) : option float :=
  match of_Q (inject_Z n) with
  | Finite q => Some (Finite q)
  | _ => None
  end.

(** [int(x)]; an infinity raises [OverflowError], NaN [ValueError]. *)
Definition to_int (x : float) : option Z :=
  match x with
  | Finite q => Some (int_of_float q)
  | _ => None
  end.

(** [pow(x, n)] for an integer [n], the power rounded to the nearest
    float, as the C library computes it up to the last place: [x] itself
    for the exponent 1; a power beyond the floats raises [OverflowError],
    zero to a negative power raises too. *)
Definition pow (x : float) (n : Z) : option float :=
  if (n =? 0)%Z then Some (Finite 1)
  else if (n =? 1)%Z then Some x
  else
    match x with
    | NaN => Some NaN
    | Infinity s =>
      if (0 <? n)%Z then Some (Infinity (s && Z.odd n)) else Some (Finite 0)
    | Finite q =>
      if Qeq_bool q 0 then if (n <? 0)%Z then None else Some (Finite 0)
      else match of_Q (q ^ n) with
           | Infinity _ => None
           | r => Some r
           end
    end.


End Float.
(** ** The data model *)

Definition Vector2 : Type := Z * Z.

Definition Vector2_eqb (a b : Vector2) : bool :=
  (fst a =? fst b) && (snd a =? snd b).

Definition position_in (t : Vector2) (l : list Vector2) : bool :=
  existsb (Vector2_eqb t) l.

Definition option_eqb {A : Type} (eqb : A -> A -> bool) (a b : option A) : bool :=
  match a, b with
  | Some x, Some y => eqb x y
  | None, None => true
  | _, _ => false
  end.

(** The uniques the battle core reads, with their parameters parsed
    ([unique.params[i]], through [int(...)] or [float(...)] where the code
    converts them).  A unique whose strength goes into a modifier set
    carries the label it goes under: [source] is the text that
    [BattleDamage.get_modifier_string_from_unique] makes of the object the
    unique comes from and of its conditionals, for StrengthNearCapital the
    name of that object with its kind.  The amount of
    StrengthForAdjacentEnemies is kept as the text it is, since the code
    compares the amounts of these uniques as texts. *)
Inductive Unique : Type :=
| KillUnitCapture (unit_filter : string)
| GainFromDefeatingUnit (unit_filter : string) (gold_amount : Z)
| GainFromEncampment (gold_amount : Z)
| Uncapturable
| CannotCaptureCities
| CannotBeIntercepted
| CannotInterceptUnits
| WithdrawsBeforeMeleeCombat
| SelfDestructs
| CanMoveAfterAttacking
| NoDamagePenaltyWoundedUnits
| NuclearWeapon (nuke_strength : Z)
| BlastRadius (radius : Z)
| FlatXPGain (amount : Z)
| PercentageXPGain (percent : Q)
| Strength (amount : Z) (source : string)
| StrengthNearCapital (amount : Z) (source : string)
| StrengthForAdjacentEnemies (amount : string)
                             (combatant_filter tile_filter : string)
| StrengthWhenStacked (amount : Z) (unit_filter : string)
| StrengthForCities (amount : Z) (source : string)
| StrengthWhenAirsweep (amount : Z) (source : string)
| FlankAttackBonus (percent : Q)
| AttackAcrossCoast
| AttackAcrossRiver
| NoDefensiveTerrainBonus
| NoDefensiveTerrainPenalty.

Inductive UniqueType : Type :=
| TKillUnitCapture | TGainFromDefeatingUnit | TGainFromEncampment
| TUncapturable | TCannotCaptureCities | TCannotBeIntercepted
| TCannotInterceptUnits | TWithdrawsBeforeMeleeCombat
| TSelfDestructs | TCanMoveAfterAttacking | TNoDamagePenaltyWoundedUnits
| TNuclearWeapon | TBlastRadius | TFlatXPGain | TPercentageXPGain
| TStrength | TStrengthNearCapital | TStrengthForAdjacentEnemies
| TStrengthWhenStacked | TStrengthForCities | TStrengthWhenAirsweep
| TFlankAttackBonus | TAttackAcrossCoast | TAttackAcrossRiver
| TNoDefensiveTerrainBonus | TNoDefensiveTerrainPenalty.

Definition unique_type (u : Unique) : UniqueType :=
  match u with
  | KillUnitCapture _ => TKillUnitCapture
  | GainFromDefeatingUnit _ _ => TGainFromDefeatingUnit
  | GainFromEncampment _ => TGainFromEncampment
  | Uncapturable => TUncapturable
  | CannotCaptureCities => TCannotCaptureCities
  | CannotBeIntercepted => TCannotBeIntercepted
  | CannotInterceptUnits => TCannotInterceptUnits
  | WithdrawsBeforeMeleeCombat => TWithdrawsBeforeMeleeCombat
  | SelfDestructs => TSelfDestructs
  | CanMoveAfterAttacking => TCanMoveAfterAttacking
  | NoDamagePenaltyWoundedUnits => TNoDamagePenaltyWoundedUnits
  | NuclearWeapon _ => TNuclearWeapon
  | BlastRadius _ => TBlastRadius
  | FlatXPGain _ => TFlatXPGain
  | PercentageXPGain _ => TPercentageXPGain
  | Strength _ _ => TStrength
  | StrengthNearCapital _ _ => TStrengthNearCapital
  | StrengthForAdjacentEnemies _ _ _ => TStrengthForAdjacentEnemies
  | StrengthWhenStacked _ _ => TStrengthWhenStacked
  | StrengthForCities _ _ => TStrengthForCities
  | StrengthWhenAirsweep _ _ => TStrengthWhenAirsweep
  | FlankAttackBonus _ => TFlankAttackBonus
  | AttackAcrossCoast => TAttackAcrossCoast
  | AttackAcrossRiver => TAttackAcrossRiver
  | NoDefensiveTerrainBonus => TNoDefensiveTerrainBonus
  | NoDefensiveTerrainPenalty => TNoDefensiveTerrainPenalty
  end.

#[global] Instance UniqueType_eq_dec : EqDecision UniqueType.
Proof. solve_decision. Defined.

(** [get_matching_uniques(type)] over a list of uniques. *)
Definition matching_uniques (t : UniqueType) (l : list Unique) : list Unique :=
  List.filter (fun u => bool_decide (unique_type u = t)) l.

Record BaseUnit : Type := {
  bu_is_ranged : bool;            (* base_unit.is_ranged() *)
  bu_is_air_unit : bool;          (* base_unit.is_air_unit() *)
  bu_is_civilian : bool;          (* is_civilian() *)
  moves_like_air_units : bool;
  strength : Z;
  ranged_strength : Z
}.

Record Promotions : Type := {
  xp : Z;
  total_xp_produced : Z           (* promotions.total_xp_produced() *)
}.

(** [unit.action], as far as the core tells actions apart. *)
Inductive UnitAction : Type :=
| Fortify | Sleep | Guard | Explore | SetUp | MoveTo | OtherAction.

(** A map unit, as far as the battle core reads and writes it.  [uniques]
    holds the uniques of the unit (with those of its civilization, which
    the calls below ask for together) whose conditionals hold in the state
    of the battle being resolved. *)
Record MapUnit : Type := {
  id : Z;
  name : string;
  health : Z;
  civ : string;                   (* unit.civ, by name *)
  base_unit : BaseUnit;
  uniques : list Unique;
  current_tile : Vector2;         (* get_tile().position *)
  promotions : Promotions;
  attacks_this_turn : Z;
  max_attacks_per_turn : Z;       (* max_attacks_per_turn() *)
  attacks_since_turn_start : list Vector2;
  current_movement : Q;
  is_embarked : bool;             (* is_embarked() *)
  cannot_move : bool;             (* cache.cannot_move *)
  is_escorting : bool;            (* is_escorting() *)
  action : option UnitAction;
  destroyed : bool                (* destroy() has been called *)
}.

Definition set_unit_health (h : Z) (u : MapUnit) : MapUnit :=
  {| id := id u; name := name u; health := h; civ := civ u; base_unit := base_unit u;
     uniques := uniques u; current_tile := current_tile u;
     promotions := promotions u; attacks_this_turn := attacks_this_turn u;
     max_attacks_per_turn := max_attacks_per_turn u;
     attacks_since_turn_start := attacks_since_turn_start u;
     current_movement := current_movement u; is_embarked := is_embarked u;
     cannot_move := cannot_move u; is_escorting := is_escorting u;
     action := action u; destroyed := destroyed u |}.

Definition set_current_tile (t : Vector2) (u : MapUnit) : MapUnit :=
  {| id := id u; name := name u; health := health u; civ := civ u; base_unit := base_unit u;
     uniques := uniques u; current_tile := t;
     promotions := promotions u; attacks_this_turn := attacks_this_turn u;
     max_attacks_per_turn := max_attacks_per_turn u;
     attacks_since_turn_start := attacks_since_turn_start u;
     current_movement := current_movement u; is_embarked := is_embarked u;
     cannot_move := cannot_move u; is_escorting := is_escorting u;
     action := action u; destroyed := destroyed u |}.

Definition set_xp (x : Z) (u : MapUnit) : MapUnit :=
  {| id := id u; name := name u; health := health u; civ := civ u; base_unit := base_unit u;
     uniques := uniques u; current_tile := current_tile u;
     promotions := {| xp := x;
                      total_xp_produced := total_xp_produced (promotions u) |};
     attacks_this_turn := attacks_this_turn u;
     max_attacks_per_turn := max_attacks_per_turn u;
     attacks_since_turn_start := attacks_since_turn_start u;
     current_movement := current_movement u; is_embarked := is_embarked u;
     cannot_move := cannot_move u; is_escorting := is_escorting u;
     action := action u; destroyed := destroyed u |}.

Definition set_attacks_this_turn (n : Z) (u : MapUnit) : MapUnit :=
  {| id := id u; name := name u; health := health u; civ := civ u; base_unit := base_unit u;
     uniques := uniques u; current_tile := current_tile u;
     promotions := promotions u; attacks_this_turn := n;
     max_attacks_per_turn := max_attacks_per_turn u;
     attacks_since_turn_start := attacks_since_turn_start u;
     current_movement := current_movement u; is_embarked := is_embarked u;
     cannot_move := cannot_move u; is_escorting := is_escorting u;
     action := action u; destroyed := destroyed u |}.

Definition set_attacks_since_turn_start (l : list Vector2) (u : MapUnit) : MapUnit :=
  {| id := id u; name := name u; health := health u; civ := civ u; base_unit := base_unit u;
     uniques := uniques u; current_tile := current_tile u;
     promotions := promotions u; attacks_this_turn := attacks_this_turn u;
     max_attacks_per_turn := max_attacks_per_turn u;
     attacks_since_turn_start := l;
     current_movement := current_movement u; is_embarked := is_embarked u;
     cannot_move := cannot_move u; is_escorting := is_escorting u;
     action := action u; destroyed := destroyed u |}.

Definition set_current_movement (m : Q) (u : MapUnit) : MapUnit :=
  {| id := id u; name := name u; health := health u; civ := civ u; base_unit := base_unit u;
     uniques := uniques u; current_tile := current_tile u;
     promotions := promotions u; attacks_this_turn := attacks_this_turn u;
     max_attacks_per_turn := max_attacks_per_turn u;
     attacks_since_turn_start := attacks_since_turn_start u;
     current_movement := m; is_embarked := is_embarked u;
     cannot_move := cannot_move u; is_escorting := is_escorting u;
     action := action u; destroyed := destroyed u |}.

Definition set_action (a : option UnitAction) (u : MapUnit) : MapUnit :=
  {| id := id u; name := name u; health := health u; civ := civ u; base_unit := base_unit u;
     uniques := uniques u; current_tile := current_tile u;
     promotions := promotions u; attacks_this_turn := attacks_this_turn u;
     max_attacks_per_turn := max_attacks_per_turn u;
     attacks_since_turn_start := attacks_since_turn_start u;
     current_movement := current_movement u; is_embarked := is_embarked u;
     cannot_move := cannot_move u; is_escorting := is_escorting u;
     action := a; destroyed := destroyed u |}.

(** [unit.destroy()]. *)
Definition destroy (u : MapUnit) : MapUnit :=
  {| id := id u; name := name u; health := health u; civ := civ u; base_unit := base_unit u;
     uniques := uniques u; current_tile := current_tile u;
     promotions := promotions u; attacks_this_turn := attacks_this_turn u;
     max_attacks_per_turn := max_attacks_per_turn u;
     attacks_since_turn_start := attacks_since_turn_start u;
     current_movement := current_movement u; is_embarked := is_embarked u;
     cannot_move := cannot_move u; is_escorting := is_escorting u;
     action := action u; destroyed := true |}.

Definition has_unique (t : UniqueType) (u : MapUnit) : bool :=
  match matching_uniques t (uniques u) with [] => false | _ => true end.

Definition action_is (a : UnitAction) (u : MapUnit) : bool :=
  match action u, a with
  | Some Fortify, Fortify | Some Sleep, Sleep | Some Guard, Guard
  | Some Explore, Explore | Some SetUp, SetUp | Some MoveTo, MoveTo
  | Some OtherAction, OtherAction => true
  | _, _ => false
  end.

Definition is_fortified : MapUnit -> bool := action_is Fortify.
Definition is_sleeping : MapUnit -> bool := action_is Sleep.
Definition is_guarding : MapUnit -> bool := action_is Guard.
Definition is_exploring : MapUnit -> bool := action_is Explore.
Definition is_moving : MapUnit -> bool := action_is MoveTo.

Record City : Type := {
  city_name : string;
  city_health : Z;                (* city.health *)
  city_civ : string;              (* city.civ, by name *)
  location : Vector2;
  population : Z;                 (* city.population.population *)
  attacked_this_turn : bool;
  city_destroyed : bool           (* destroy_city() has been called *)
}.

Record Civilization : Type := {
  gold : Z;
  is_barbarian : bool;
  is_major_civ : bool;            (* is_major_civ() *)
  civ_uniques : list Unique;
  civ_attacks_since_turn_start : list (Vector2 * Vector2)
}.

Inductive RoadStatus : Type := NoRoad | Road | Railroad.

Record Tile : Type := {
  owner : option string;          (* get_owner(), by name *)
  improvement : option string;
  improvement_is_pillaged : bool;
  road_status : RoadStatus;
  road_is_pillaged : bool;
  terrain_features : list string;
  is_city_center : bool;          (* is_city_center() *)
  is_land : bool;
  is_water : bool;
  is_impassible : bool            (* is_impassible() *)
}.

Inductive DiplomaticStatus : Type := Peace | War | Protector | DefensivePact.

Inductive CombatAction : Type := Attack | Defend | Intercept.

Record DamageDealt : Type := {
  attacker_dealt : Z;
  defender_dealt : Z
}.

Definition DamageDealt_add (a b : DamageDealt) : DamageDealt :=
  {| attacker_dealt := attacker_dealt a + attacker_dealt b;
     defender_dealt := defender_dealt a + defender_dealt b |}.

Definition DamageDealt_none : DamageDealt :=
  {| attacker_dealt := 0; defender_dealt := 0 |}.

(** ** The combatant abstraction ([ICombatant] and its two variants) *)

Inductive ICombatant : Type :=
| MapUnitCombatant (unit : MapUnit)
| CityCombatant (city : City).

Module CityCombatantM.

Definition get_health (c : City) : Z := city_health c.

Definition is_defeated (c : City) : bool := city_health c =? 1.

Definition set_health (h : Z) (c : City) : City :=
  {| city_name := city_name c; city_health := h; city_civ := city_civ c;
     location := location c; population := population c;
     attacked_this_turn := attacked_this_turn c;
     city_destroyed := city_destroyed c |}.

(** [CityCombatant.take_damage]. *)
Definition take_damage (damage : Z) (c : City) : City :=
  let c1 := set_health (city_health c - damage) c in
  if city_health c1 <? 1 then set_health 1 c1 (* min health is 1 *) else c1.

(** A sequence of [take_damage] calls; the result lists the city after
    each call, in order. *)
Fixpoint take_damages (damages : list Z) (c : City) : list City :=
  match damages with
  | [] => []
  | d :: rest => let c' := take_damage d c in c' :: take_damages rest c'
  end.

End CityCombatantM.
(** ** The game state the battle core works on *)

Record World : Type := {
  turns : Z;                                     (* game_info.turns *)
  civilizations : gmap string Civilization;      (* by civ name *)
  (* diplomacy !! (a, b): the status held by the diplomacy manager of
     civilization a for civilization b *)
  diplomacy : gmap (string * string) DiplomaticStatus;
  tiles : gmap Vector2 Tile;                     (* by position *)
  cities : gmap Vector2 City;                    (* by city.location *)
  units : list MapUnit;          (* the units on the map; the combatants
                                    of a battle are passed by value, and
                                    an entry with the id of one is that
                                    unit *)
  placed_units : list MapUnit;   (* units created while the battle runs *)
  random_state : nat        (* draws consumed from the global generator *)
}.

Definition set_civilizations (cs : gmap string Civilization) (w : World) : World :=
  {| turns := turns w; civilizations := cs; diplomacy := diplomacy w;
     tiles := tiles w; cities := cities w; units := units w;
     placed_units := placed_units w; random_state := random_state w |}.


Definition set_tiles (t : gmap Vector2 Tile) (w : World) : World :=
  {| turns := turns w; civilizations := civilizations w;
     diplomacy := diplomacy w; tiles := t; cities := cities w;
     units := units w; placed_units := placed_units w;
     random_state := random_state w |}.

Definition set_cities (c : gmap Vector2 City) (w : World) : World :=
  {| turns := turns w; civilizations := civilizations w;
     diplomacy := diplomacy w; tiles := tiles w; cities := c;
     units := units w; placed_units := placed_units w;
     random_state := random_state w |}.

Definition set_units (l : list MapUnit) (w : World) : World :=
  {| turns := turns w; civilizations := civilizations w;
     diplomacy := diplomacy w; tiles := tiles w; cities := cities w;
     units := l; placed_units := placed_units w;
     random_state := random_state w |}.

Definition set_placed_units (l : list MapUnit) (w : World) : World :=
  {| turns := turns w; civilizations := civilizations w;
     diplomacy := diplomacy w; tiles := tiles w; cities := cities w;
     units := units w; placed_units := l; random_state := random_state w |}.

Definition set_random_state (n : nat) (w : World) : World :=
  {| turns := turns w; civilizations := civilizations w;
     diplomacy := diplomacy w; tiles := tiles w; cities := cities w;
     units := units w; placed_units := placed_units w; random_state := n |}.

(** The game state after [n] more draws from the global generator. *)
Definition after_draws (n : nat) (w : World) : World :=
  set_random_state (n + random_state w) w.

(** Computations on the game state; [None] is a raised exception. *)
Definition M (A : Type) : Type := World -> option (A * World).

Definition ret {A : Type} (a : A) : M A := fun w => Some (a, w).

Definition bind {A B : Type} (c : M A) (k : A -> M B) : M B :=
  fun w => match c w with
           | None => None
           | Some (a, w') => k a w'
           end.

Definition raise {A : Type} : M A := fun _ => None.

Definition lift_option {A : Type} (o : option A) : M A :=
  match o with Some a => ret a | None => raise end.

Definition get_world : M World := fun w => Some (w, w).

Definition modify_world (f : World -> World) : M unit := fun w => Some (tt, f w).

Notation "'let*' x ':=' c 'in' k" := (bind c (fun x => k))
  (at level 10, x name, c at level 200, k at level 200).
Notation "'let*' ' p ':=' c 'in' k" := (bind c (fun p => k))
  (at level 10, p strict pattern, c at level 200, k at level 200).

(** A computation that leaves the game state as it finds it. *)
Definition reads {A : Type} (c : M A) : Prop :=
  forall w a w', c w = Some (a, w') -> w' = w.

(** [civ.is_barbarian] through the store; a name that is not in the store
    is a dangling reference, and raises. *)
Definition civ_is_barbarian (c : string) : M bool :=
  fun w => match civilizations w !! c with
           | Some ci => Some (is_barbarian ci, w)
           | None => None
           end.

(** [civ.is_major_civ()]. *)
Definition civ_is_major_civ (c : string) : M bool :=
  fun w => match civilizations w !! c with
           | Some ci => Some (is_major_civ ci, w)
           | None => None
           end.

(** [civ.get_matching_uniques(type)]. *)
Definition civ_get_matching_uniques (c : string) (t : UniqueType) : M (list Unique) :=
  fun w => match civilizations w !! c with
           | Some ci => Some (matching_uniques t (civ_uniques ci), w)
           | None => None
           end.

(** [civ.gold]. *)
Definition civ_gold (c : string) : M Z :=
  fun w => match civilizations w !! c with
           | Some ci => Some (gold ci, w)
           | None => None
           end.

Definition set_gold (g : Z) (ci : Civilization) : Civilization :=
  {| gold := g; is_barbarian := is_barbarian ci;
     is_major_civ := is_major_civ ci; civ_uniques := civ_uniques ci;
     civ_attacks_since_turn_start := civ_attacks_since_turn_start ci |}.

(** [civ.add_gold(amount)]. *)
Definition add_gold (c : string) (amount : Z) : M unit :=
  fun w => match civilizations w !! c with
           | Some ci =>
             Some (tt, set_civilizations
                         (<[c := set_gold (gold ci + amount) ci]>
                            (civilizations w)) w)
           | None => None
           end.

(** [gold_credited c g w w']: from [w] to [w'] the civilization [c] has
    gained [g] gold and is otherwise the same. *)
Definition gold_credited (c : string) (g : Z) (w w' : World) : Prop :=
  exists ci, civilizations w !! c = Some ci
             /\ civilizations w' !! c = Some (set_gold (gold ci + g) ci).

(** The update of one civilization in the store. *)
Definition update_civ (c : string) (f : Civilization -> Civilization) : M unit :=
  fun w => match civilizations w !! c with
           | Some ci =>
             Some (tt, set_civilizations (<[c := f ci]> (civilizations w)) w)
           | None => None
           end.

(** [tile.get_units()] of the tile at a position. *)
Definition units_on_tile (position : Vector2) (w : World) : list MapUnit :=
  List.filter (fun u => Vector2_eqb (current_tile u) position) (units w).

(** [tile.civilian_unit] of the tile at a position. *)
Definition civilian_unit_on_tile (position : Vector2) (w : World) : option MapUnit :=
  List.find (fun u => bu_is_civilian (base_unit u)) (units_on_tile position w).

(** [tile.military_unit] of the tile at a position: the unit on the tile
    that is neither a civilian nor an air unit. *)
Definition military_unit_on_tile (position : Vector2) (w : World)
    : option MapUnit :=
  List.find (fun u => negb (bu_is_civilian (base_unit u))
                      && negb (bu_is_air_unit (base_unit u)))
            (units_on_tile position w).

(** The tile at a position; a position without a tile is a dangling
    reference, and raises. *)
Definition tile_at (position : Vector2) : M Tile :=
  fun w => match tiles w !! position with
           | Some tile => Some (tile, w)
           | None => None
           end.

(** ** What the battle core takes from the rest of the game

    Methods and constants of classes outside the battle core, the two
    random sources, and the steps of the core that only run ruleset
    triggers, grant resources or move units on the map. *)

Inductive NukeModifier : Type := GarrisonDamageFromNukes | PopulationLossFromNukes.

Class Externals : Type := {
  (* Vector2.hash_code() *)
  hash_code : Vector2 -> Z;
  (* random.Random(seed).random(): the first draw of a generator private
     to the call, seeded with [seed] *)
  seeded_random : Z -> Q;
  (* the n-th draw of the global generator, random.random() *)
  global_random : nat -> Q;

  (* MapUnit.take_damage(damage) *)
  MapUnit_take_damage : Z -> MapUnit -> MapUnit;
  (* MapUnit.matches_filter(filter, multi_filter); None leaves
     multi_filter to the default of the method *)
  MapUnit_matches_filter : MapUnit -> string -> option bool -> bool;
  (* MapUnit.use_movement_points(amount) *)
  MapUnit_use_movement_points : Q -> MapUnit -> MapUnit;
  (* MapUnit.can_intercept(tile), intercept_chance(),
     intercept_damage_percent_bonus(), received_intercept_damage_factor() *)
  can_intercept : MapUnit -> Vector2 -> bool;
  intercept_chance : MapUnit -> Z;
  intercept_damage_percent_bonus : MapUnit -> Z;
  received_intercept_damage_factor : MapUnit -> Q;
  (* unit.movement.can_move_to(tile) *)
  can_move_to : MapUnit -> Vector2 -> World -> bool;
  (* base_unit.is_land_unit *)
  is_land_unit : MapUnit -> bool;
  (* tile.neighbors and tile.get_tiles_in_distance(n), as positions *)
  neighbors : Vector2 -> list Vector2;
  get_tiles_in_distance : Vector2 -> Z -> list Vector2;

  (* what BattleDamage reads to build the modifier sets:
     unit.civ.is_at_war_with(civ) *)
  civ_is_at_war_with : string -> string -> World -> bool;
  (* tile.matches_filter(filter), tile.aerial_distance_to(other) *)
  tile_matches_filter : Vector2 -> string -> World -> bool;
  aerial_distance_to : Vector2 -> Vector2 -> Z;
  (* the center tile of civ.get_capital(); None when the civilization has
     no cities or no capital *)
  capital_center_tile : string -> World -> option Vector2;
  (* city.get_matching_uniques(type, state) *)
  city_get_matching_uniques : City -> UniqueType -> World -> list Unique;
  (* game_info.get_difficulty().barbarian_bonus, a float *)
  barbarian_bonus : World -> Q;
  (* to_percent(text), of the extensions of the user interface: a float *)
  to_percent : Q -> Q;
  (* unit.is_preparing_air_sweep(), unit.get_fortification_turns() *)
  is_preparing_air_sweep : MapUnit -> bool;
  get_fortification_turns : MapUnit -> Z;
  (* tile.is_connected_by_river(other), tile.has_connection(civ),
     civ.tech.roads_connect_across_rivers *)
  is_connected_by_river : Vector2 -> Vector2 -> World -> bool;
  has_connection : Vector2 -> string -> World -> bool;
  roads_connect_across_rivers : string -> World -> bool;
  (* tile.get_defensive_bonus(unit), a float *)
  get_defensive_bonus : Vector2 -> MapUnit -> World -> Q;
  (* what GreatGeneralImplementation reads of the units:
     unit.cache.has_strength_bonus_in_radius_unique; the parameters of
     general.get_matching_uniques(StrengthBonusInRadius, state) for the
     state of our unit, the enemy and the combat action;
     unit.has_unique(GreatGeneralProvidesDoubleCombatBonus,
     check_civ_info_uniques=True); general.is_great_person_of_type("War") *)
  general_has_bonus_unique : MapUnit -> bool;
  general_bonus_uniques :
    MapUnit -> MapUnit -> ICombatant -> CombatAction ->
    list (string * string * string);
  doubles_general_bonus : MapUnit -> bool;
  general_is_great_war_person : MapUnit -> bool;
  (* CityCombatant.get_city_strength(combat_action), which sums ruleset
     constants, terrain, technology and buildings *)
  get_city_strength : City -> CombatAction -> Z;
  (* unit.civ.get_era().embark_defense *)
  embark_defense : string -> Z;
  (* BattleConstants; DAMAGE_REDUCTION_WOUNDED_UNIT_RATIO_PERCENTAGE and
     BASE_FLANKING_BONUS are floats *)
  DAMAGE_TO_CIVILIAN_UNIT : Z;
  DAMAGE_REDUCTION_WOUNDED_UNIT_RATIO_PERCENTAGE : Q;
  MISSING_RESOURCES_MALUS : Z;
  LANDING_MALUS : Z;
  BOARDING_MALUS : Z;
  ATTACKING_ACROSS_RIVER_MALUS : Z;
  FORTIFICATION_BONUS : Z;
  BASE_FLANKING_BONUS : Q;
  (* mod_options.constants.max_xp_from_barbarians *)
  max_xp_from_barbarians : Z;
  (* Constants.barbarian_encampment *)
  barbarian_encampment : string;

  (* civ.units.place_unit_near_tile(position, unit_name): the unit placed
     for civilization [civ], or None when no tile can take it *)
  place_unit_near_tile : string -> Vector2 -> string -> World -> option MapUnit;
  (* BattleUnitCapture.capture_civilian_unit(attacker, defender), which
     branches on ownership history and diplomacy; returns the captured
     unit *)
  capture_civilian_unit : ICombatant -> MapUnit -> M MapUnit;
  (* the great general points a civilization earns from experience, in
     Battle.add_xp (this_combatant, other_combatant, xp_gained) *)
  earn_great_general_points :
    MapUnit -> ICombatant -> Z -> Civilization -> Civilization;

  (* civ_suffered.knows(attacking_civ) *)
  knows : string -> string -> World -> bool;
  (* the number of resources the unit requires per turn that its
     civilization lacks (civ_resources[resource] < 0) *)
  lacking_resources : MapUnit -> World -> nat;
  (* city.get_aggregate_modifier(unique_type), city.can_be_destroyed(
     just_captured), city.population.add_population(n) *)
  get_aggregate_modifier : City -> NukeModifier -> World -> Q;
  can_be_destroyed : City -> bool -> World -> bool;
  add_population : Z -> City -> City;
  (* tile.terrain_has_unique(DestroyableByNukesChance); the terrain
     features of a tile with the chances (params[0], as a float) of their
     DestroyableByNukesChance uniques; tile.remove_terrain_feature(name),
     tile.add_terrain_feature(name) *)
  terrain_destroyable_by_nukes : Tile -> bool;
  terrain_feature_nuke_chances : Tile -> list (string * list Q);
  remove_terrain_feature : string -> Tile -> Tile;
  add_terrain_feature : string -> Tile -> Tile;
  (* tile.get_unpillaged_improvement(), the Irremovable and Unpillagable
     uniques of tile.get_tile_improvement(), tile.remove_improvement(),
     tile.set_pillaged(), tile.get_unpillaged_road() *)
  get_unpillaged_improvement : Tile -> option string;
  improvement_is_irremovable : Tile -> bool;
  improvement_is_unpillagable : Tile -> bool;
  remove_improvement : Tile -> Tile;
  set_pillaged : Tile -> Tile;
  get_unpillaged_road : Tile -> RoadStatus;

  (* steps that run unique triggers, grant resources, or move units *)
  trigger_upon_losing_health : ICombatant -> Z -> M ICombatant;
  plunder_from_damage : ICombatant -> ICombatant -> Z -> M unit;
  camp_attacked : Vector2 -> M unit;
  conquer_city : City -> MapUnit -> M (City * MapUnit);
  try_earn_from_killing : ICombatant -> ICombatant -> M unit;
  try_heal_after_killing : ICombatant -> M ICombatant;
  trigger_victory_uniques : ICombatant -> ICombatant -> Vector2 -> M ICombatant;
  trigger_defeat_uniques : ICombatant -> ICombatant -> Vector2 -> M ICombatant;
  trigger_damage_uniques_for_unit :
    ICombatant -> ICombatant -> Vector2 -> CombatAction ->
    M (ICombatant * ICombatant);
  do_destroy_improvements_ability : MapUnit -> Vector2 -> ICombatant -> M unit;
  post_battle_move_to_attacked_tile :
    ICombatant -> ICombatant -> Vector2 -> M ICombatant;
  destroy_if_defeated : string -> string -> M unit;
  set_used_nuclear_weapons_modifier : string -> M unit
}.

(** [random.random()]: the next draw of the global generator. *)
Definition random_random `{Externals} : M Q :=
  fun w => Some (global_random (random_state w),
                 set_random_state (S (random_state w)) w).

(** [random.choice(seq)] on a non-empty sequence: the element the next
    draw of the global generator points at. *)
Definition random_choice `{Externals} {A : Type} (default : A) (seq : list A) : M A :=
  let* x := random_random in
  ret (nth (Z.to_nat (int_of_float (x * inject_Z (Z.of_nat (length seq)))))
           seq default).

(** [random.randint(a, b)]: an integer of [a..b] from the next draw of the
    global generator. *)
Definition random_randint `{Externals} (a b : Z) : M Z :=
  let* x := random_random in
  ret (a + int_of_float (x * inject_Z (b - a + 1))).
(** ** Operations of [ICombatant] *)

Module Combatant.
Section WithExternals.
Context `{Externals}.

Definition is_ranged (c : ICombatant) : bool :=
  match c with
  | CityCombatant _ => true
  | MapUnitCombatant u => bu_is_ranged (base_unit u)
  end.

Definition is_melee (c : ICombatant) : bool := negb (is_ranged c).

Definition is_air_unit (c : ICombatant) : bool :=
  match c with
  | CityCombatant _ => false
  | MapUnitCombatant u => bu_is_air_unit (base_unit u)
  end.

Definition is_city (c : ICombatant) : bool :=
  match c with CityCombatant _ => true | MapUnitCombatant _ => false end.

Definition is_civilian (c : ICombatant) : bool :=
  match c with
  | MapUnitCombatant u => bu_is_civilian (base_unit u)
  | CityCombatant _ => false
  end.

Definition get_health (c : ICombatant) : Z :=
  match c with
  | MapUnitCombatant u => health u
  | CityCombatant ci => CityCombatantM.get_health ci
  end.

Definition is_defeated (c : ICombatant) : bool :=
  match c with
  | MapUnitCombatant u => health u <=? 0
  | CityCombatant ci => CityCombatantM.is_defeated ci
  end.

Definition take_damage (damage : Z) (c : ICombatant) : ICombatant :=
  match c with
  | MapUnitCombatant u => MapUnitCombatant (MapUnit_take_damage damage u)
  | CityCombatant ci => CityCombatant (CityCombatantM.take_damage damage ci)
  end.

Definition get_civ_info (c : ICombatant) : string :=
  match c with
  | MapUnitCombatant u => civ u
  | CityCombatant ci => city_civ ci
  end.

Definition get_tile (c : ICombatant) : Vector2 :=
  match c with
  | MapUnitCombatant u => current_tile u
  | CityCombatant ci => location ci
  end.

Definition get_attacking_strength (c : ICombatant) : Z :=
  match c with
  | MapUnitCombatant u =>
    if bu_is_ranged (base_unit u) then ranged_strength (base_unit u)
    else strength (base_unit u)
  | CityCombatant ci =>
    int_of_float (Qmult (inject_Z (get_city_strength ci Attack)) (3 # 4))
  end.

Definition get_defending_strength (attacked_by_ranged : bool) (c : ICombatant) : Z :=
  match c with
  | MapUnitCombatant u =>
    if is_embarked u && negb (bu_is_civilian (base_unit u))
    then embark_defense (civ u)
    else if bu_is_ranged (base_unit u) && attacked_by_ranged
         then ranged_strength (base_unit u)
         else strength (base_unit u)
  | CityCombatant ci =>
    if CityCombatantM.is_defeated ci then 1 else get_city_strength ci Defend
  end.

End WithExternals.
End Combatant.
(** ** The great general bonus ([GreatGeneralImplementation]) *)

Module GreatGeneralImplementation.

(** [str.isdigit()] and [int(str)] on a parameter written in ASCII. *)
Definition is_ascii_digit (c : Ascii.ascii) : bool :=
  (48 <=? Ascii.nat_of_ascii c)%nat && (Ascii.nat_of_ascii c <=? 57)%nat.

Fixpoint all_digits (s : string) : bool :=
  match s with
  | EmptyString => true
  | String c rest => is_ascii_digit c && all_digits rest
  end.

Definition isdigit (s : string) : bool :=
  match s with
  | EmptyString => false
  | _ => all_digits s
  end.

Fixpoint int_of_digits (acc : Z) (s : string) : Z :=
  match s with
  | EmptyString => acc
  | String c rest =>
    int_of_digits (10 * acc + Z.of_nat (Ascii.nat_of_ascii c - 48)) rest
  end.

(** [int(p) if p.isdigit() else 0]. *)
Definition int_if_digit (p : string) : Z :=
  if isdigit p then int_of_digits 0 p else 0.

Record GeneralBonusData : Type := {
  general : MapUnit;
  radius : Z;
  filter : string;
  bonus : Z
}.

(** [GeneralBonusData.from_unique]; [params] are the three parameters of
    the StrengthBonusInRadius unique. *)
Definition from_unique (general : MapUnit) (params : string * string * string)
    : GeneralBonusData :=
  {| general := general;
     radius := int_if_digit (snd params);
     filter := snd (fst params);
     bonus := int_if_digit (fst (fst params)) |}.

(** [max(great_generals, key=lambda x: x.bonus)]: the first of the
    elements with the largest bonus. *)
Fixpoint max_by_bonus (best : GeneralBonusData) (rest : list GeneralBonusData)
    : GeneralBonusData :=
  match rest with
  | [] => best
  | data :: rest =>
    max_by_bonus (if bonus best <? bonus data then data else best) rest
  end.

Section WithExternals.
Context `{Externals}.

(* unit.cache.has_strength_bonus_in_radius_unique *)
Variable has_strength_bonus_in_radius_unique : MapUnit -> bool.
(* the parameters of general.get_matching_uniques(StrengthBonusInRadius,
   state) for the state of our unit, the enemy and the combat action *)
Variable strength_bonus_in_radius :
  MapUnit -> MapUnit -> ICombatant -> CombatAction ->
  list (string * string * string).
(* tile.aerial_distance_to(other) *)
Variable aerial_distance : Vector2 -> Vector2 -> Z.
(* unit.has_unique(GreatGeneralProvidesDoubleCombatBonus,
   check_civ_info_uniques=True) *)
Variable provides_double_combat_bonus : MapUnit -> bool.
(* general.is_great_person_of_type("War") *)
Variable is_great_person_of_type_war : MapUnit -> bool.

(** [all_generals]. *)
Definition all_generals (unit : MapUnit) (w : World) : list MapUnit :=
  List.filter (fun u => String.eqb (civ u) (civ unit)
                        && has_strength_bonus_in_radius_unique u)
              (units w).

(** [great_generals]: the bonus data of the generals in whose radius the
    unit stands and whose filter it matches. *)
Definition great_generals (unit : MapUnit) (enemy : ICombatant)
    (combat_action : CombatAction) (w : World) : list GeneralBonusData :=
  flat_map
    (fun general =>
       List.filter
         (fun bonus_data =>
            (aerial_distance (current_tile general) (current_tile unit)
             <=? radius bonus_data)
            && (String.eqb (filter bonus_data) "Military"
                || MapUnit_matches_filter unit (filter bonus_data) None))
         (map (from_unique general)
              (strength_bonus_in_radius general unit enemy combat_action)))
    (all_generals unit w).

(** [GreatGeneralImplementation.get_great_general_bonus]. *)
Definition get_great_general_bonus (unit : MapUnit) (enemy : ICombatant)
    (combat_action : CombatAction) (w : World) : string * Z :=
  match all_generals unit w with
  | [] => (EmptyString, 0)
  | _ :: _ =>
    match great_generals unit enemy combat_action w with
    | [] => (EmptyString, 0)
    | first :: rest =>
      let great_general_modifier := max_by_bonus first rest in
      if provides_double_combat_bonus unit
         && is_great_person_of_type_war (general great_general_modifier)
         (* apply only on "true" generals *)
      then (name (general great_general_modifier),
            bonus great_general_modifier * 2)
      else (name (general great_general_modifier),
            bonus great_general_modifier)
    end
  end.

End WithExternals.
End GreatGeneralImplementation.
(** ** The damage model ([BattleDamage]) *)

Module BattleDamage.

(** *** Modifier sets *)

(** Modelled from the spec: the class [Counter] of the models package,
    which is not among the sources: "an ordered collection of (label,
    percentage) pairs".  The pairs stand in the order in which their
    labels came in, the order in which a Python dict hands them out. *)
Definition Counter : Type := list (string * Z).

(** [counter[label] = value]. *)
Fixpoint counter_set (label : string) (value : Z) (counter : Counter) : Counter :=
  match counter with
  | [] => [(label, value)]
  | (l, v) :: rest =>
    if String.eqb l label then (l, value) :: rest
    else (l, v) :: counter_set label value rest
  end.

(** [counter.add(label, value)]: the value is added to the one that the
    label has. *)
Fixpoint counter_add (label : string) (value : Z) (counter : Counter) : Counter :=
  match counter with
  | [] => [(label, value)]
  | (l, v) :: rest =>
    if String.eqb l label then (l, v + value) :: rest
    else (l, v) :: counter_add label value rest
  end.

(** [counter.add(other)]. *)
Definition counter_add_all (other counter : Counter) : Counter :=
  fold_left (fun counter item => counter_add (fst item) (snd item) counter)
            other counter.

(** [counter.values()]. *)
Definition counter_values (counter : Counter) : list Z := map snd counter.

(** [int(text)] for a text written as an optional sign and decimal
    digits; any other text raises [ValueError]. *)
Definition int_of_text (text : string) : option Z :=
  let digits (s : string) : option Z :=
    if GreatGeneralImplementation.isdigit s
    then Some (GreatGeneralImplementation.int_of_digits 0 s)
    else None in
  match text with
  | String c rest =>
    if (Ascii.nat_of_ascii c =? 45)%nat then Z.opp <$> digits rest (* - *)
    else if (Ascii.nat_of_ascii c =? 43)%nat then digits rest (* + *)
    else digits text
  | EmptyString => None
  end.

(** [max(uniques, key=lambda x: x.params[0], default=None)] over
    StrengthForAdjacentEnemies uniques: the first of those whose amount,
    as a text, is the largest. *)
Definition amount_text (unique : Unique) : string :=
  match unique with
  | StrengthForAdjacentEnemies amount _ _ => amount
  | _ => EmptyString
  end.

Definition max_by_amount_text (uniques : list Unique) : option Unique :=
  match uniques with
  | [] => None
  | first :: rest =>
    Some (fold_left (fun best unique =>
                       if String.ltb (amount_text best) (amount_text unique)
                       then unique else best)
                    rest first)
  end.

(** *** The damage formula *)

Definition random_centered_around_30 (randomness_factor : Float.float)
    : Float.float :=
  Float.add (Float.Finite 24) (Float.mul (Float.Finite 12) randomness_factor).

(** [BattleDamage.damage_modifier]; [None] is the exception that a power
    raises: [OverflowError] when it is beyond the floats, and the error of
    a zero ratio to the power -1. *)
Definition damage_modifier (attacker_to_defender_ratio : Float.float)
    (damage_to_attacker : bool) (randomness_factor : Float.float)
    : option Float.float :=
  let? stronger_to_weaker_ratio :=
    Float.pow attacker_to_defender_ratio
              (if Float.ltb attacker_to_defender_ratio (Float.Finite 1)
               then -1 else 1) in
  let? quarter :=
    Float.div (Float.add stronger_to_weaker_ratio (Float.Finite 3))
              (Float.Finite 4) in
  let? fourth_power := Float.pow quarter 4 in
  let? ratio_modifier :=
    Float.div (Float.add fourth_power (Float.Finite 1)) (Float.Finite 2) in
  let? ratio_modifier :=
    if (damage_to_attacker
        && Float.ltb (Float.Finite 1) attacker_to_defender_ratio)
       || (negb damage_to_attacker
           && Float.ltb attacker_to_defender_ratio (Float.Finite 1))
    then Float.pow ratio_modifier (-1)
    else Some ratio_modifier in
  Some (Float.mul (random_centered_around_30 randomness_factor) ratio_modifier).




Section WithExternals.
Context `{Externals}.

(** *** The modifiers of a combatant *)

(** The units of the map as a battle sees them: the two combatants, which
    are passed by value, before the other units. *)
Definition map_units (combatant enemy : ICombatant) (w : World) : list MapUnit :=
  let unit_of (c : ICombatant) : list MapUnit :=
    match c with
    | MapUnitCombatant unit => [unit]
    | CityCombatant _ => []
    end in
  let fighting := unit_of combatant ++ unit_of enemy in
  fighting
  ++ List.filter (fun u => negb (existsb (fun v => id v =? id u) fighting))
                 (units w).

(** [tile.get_units()] and [tile.military_unit] among the units of a
    list. *)
Definition units_at (position : Vector2) (l : list MapUnit) : list MapUnit :=
  List.filter (fun u => Vector2_eqb (current_tile u) position) l.

Definition military_unit_at (position : Vector2) (l : list MapUnit)
    : option MapUnit :=
  List.find (fun u => negb (bu_is_civilian (base_unit u))
                      && negb (bu_is_air_unit (base_unit u)))
            (units_at position l).

(** [BattleDamage.add_unit_unique_modifiers]; returns [modifiers]. *)
Definition add_unit_unique_modifiers (combatant : MapUnit) (enemy : ICombatant)
    (tile_to_attack_from : Vector2) (modifiers : Counter) : M Counter :=
  let* w := get_world in
  let modifiers :=
    fold_left (fun modifiers unique =>
                 match unique with
                 | Strength amount source => counter_add source amount modifiers
                 | _ => modifiers
                 end)
              (matching_uniques TStrength (uniques combatant)) modifiers in
  let modifiers :=
    match capital_center_tile (civ combatant) w with
    | None => modifiers (* the loop breaks at once *)
    | Some capital =>
      fold_left (fun modifiers unique =>
                   match unique with
                   | StrengthNearCapital amount source =>
                     let distance :=
                       aerial_distance_to (current_tile combatant) capital in
                     let effect := amount - 3 * distance in
                     if 0 <? effect then counter_add source effect modifiers
                     else modifiers
                   | _ => modifiers
                   end)
                (matching_uniques TStrengthNearCapital (uniques combatant))
                modifiers
    end in
  let all_units := map_units (MapUnitCombatant combatant) enemy w in
  let here := current_tile combatant in
  let adjacent_units :=
    flat_map (fun tile => units_at tile all_units) (neighbors here) in
  let adjacent_units :=
    match enemy with
    | MapUnitCombatant enemy_unit =>
      if negb (position_in (current_tile enemy_unit) (neighbors here))
         && position_in tile_to_attack_from (neighbors here)
      then adjacent_units ++ [enemy_unit]
      else adjacent_units
    | CityCombatant _ => adjacent_units
    end in
  let strength_malus :=
    max_by_amount_text
      (flat_map
         (fun unit =>
            if civ_is_at_war_with (civ unit) (civ combatant) w
            then List.filter
                   (fun unique =>
                      match unique with
                      | StrengthForAdjacentEnemies _ combatant_filter tile_filter =>
                        MapUnit_matches_filter combatant combatant_filter (Some true)
                        && tile_matches_filter here tile_filter w
                      | _ => false
                      end)
                   (matching_uniques TStrengthForAdjacentEnemies (uniques unit))
            else [])
         adjacent_units) in
  match strength_malus with
  | Some unique =>
    let* amount := lift_option (int_of_text (amount_text unique)) in
    ret (counter_add "Adjacent enemy units" amount modifiers)
  | None => ret modifiers
  end.

(** [BattleDamage.add_resource_lacking_malus]; returns [modifiers]. *)
Definition add_resource_lacking_malus (combatant : MapUnit) (modifiers : Counter)
    : M Counter :=
  let* w := get_world in
  if (0 <? lacking_resources combatant w)%nat then
    let* barbarian := civ_is_barbarian (civ combatant) in
    if negb barbarian
    then ret (counter_set "Missing resource" MISSING_RESOURCES_MALUS modifiers)
    else ret modifiers
  else ret modifiers.

(** [BattleDamage.get_general_modifiers]. *)
Definition get_general_modifiers (combatant enemy : ICombatant)
    (combat_action : CombatAction) (tile_to_attack_from : Vector2) : M Counter :=
  let* modifiers :=
    match combatant with
    | MapUnitCombatant unit =>
      let* modifiers :=
        add_unit_unique_modifiers unit enemy tile_to_attack_from [] in
      let* modifiers := add_resource_lacking_malus unit modifiers in
      let* w := get_world in
      let great_general :=
        GreatGeneralImplementation.get_great_general_bonus
          general_has_bonus_unique general_bonus_uniques aerial_distance_to
          doubles_general_bonus general_is_great_war_person
          unit enemy combat_action w in
      let modifiers :=
        if negb (snd great_general =? 0)
        then counter_set (fst great_general) (snd great_general) modifiers
        else modifiers in
      ret (fold_left
             (fun modifiers unique =>
                match unique with
                | StrengthWhenStacked amount unit_filter =>
                  let stacked_units_bonus :=
                    if existsb (fun u => MapUnit_matches_filter u unit_filter None)
                               (units_at (current_tile unit)
                                         (map_units combatant enemy w))
                    then amount else 0 in
                  if 0 <? stacked_units_bonus
                  then counter_set
                         (String.append "Stacked with ["
                                        (String.append unit_filter "]"))
                         stacked_units_bonus modifiers
                  else modifiers
                | _ => modifiers
                end)
             (matching_uniques TStrengthWhenStacked (uniques unit)) modifiers)
    | CityCombatant city =>
      let* w := get_world in
      ret (fold_left
             (fun modifiers unique =>
                match unique with
                | StrengthForCities amount source =>
                  counter_add source amount modifiers
                | _ => modifiers
                end)
             (city_get_matching_uniques city TStrengthForCities w) [])
    end in
  let* enemy_is_barbarian := civ_is_barbarian (Combatant.get_civ_info enemy) in
  if enemy_is_barbarian then
    let* w := get_world in
    let* difficulty :=
      lift_option
        (Float.to_int (Float.mul (Float.of_Q (barbarian_bonus w))
                                 (Float.Finite 100))) in
    ret (counter_set "Difficulty" difficulty modifiers)
  else ret modifiers.

(** [BattleDamage.is_melee_attacking_across_river_with_no_bridge]. *)
Definition is_melee_attacking_across_river_with_no_bridge (attacker : MapUnit)
    (tile_to_attack_from : Vector2) (defender : ICombatant) (w : World) : bool :=
  let attacked := Combatant.get_tile defender in
  Combatant.is_melee (MapUnitCombatant attacker)
  && (aerial_distance_to tile_to_attack_from attacked =? 1)
  && is_connected_by_river tile_to_attack_from attacked w
  && negb (has_unique TAttackAcrossRiver attacker)
  && (negb (has_connection tile_to_attack_from (civ attacker) w)
      || negb (has_connection attacked (civ attacker) w)
      || negb (roads_connect_across_rivers (civ attacker) w)).

(** [BattleDamage.add_terrain_attack_modifiers]; returns [modifiers]. *)
Definition add_terrain_attack_modifiers (attacker : MapUnit)
    (defender : ICombatant) (tile_to_attack_from : Vector2)
    (modifiers : Counter) : M Counter :=
  let* attacker_tile := tile_at (current_tile attacker) in
  let* defender_tile := tile_at (Combatant.get_tile defender) in
  let* w := get_world in
  let is_melee := Combatant.is_melee (MapUnitCombatant attacker) in
  let across_coast := has_unique TAttackAcrossCoast attacker in
  let modifiers :=
    if is_embarked attacker && is_land defender_tile && negb across_coast
    then counter_set "Landing" LANDING_MALUS modifiers
    else modifiers in
  let modifiers :=
    if is_land_unit attacker && negb (is_water attacker_tile) && is_melee
       && is_water defender_tile && negb across_coast
    then counter_set "Boarding" BOARDING_MALUS modifiers
    else modifiers in
  let modifiers :=
    if negb (bu_is_air_unit (base_unit attacker)) && is_melee
       && is_water attacker_tile && negb (is_water defender_tile)
       && negb across_coast && negb (Combatant.is_city defender)
    then counter_set "Landing" LANDING_MALUS modifiers
    else modifiers in
  if is_melee_attacking_across_river_with_no_bridge
       attacker tile_to_attack_from defender w
  then ret (counter_set "Across river" ATTACKING_ACROSS_RIVER_MALUS modifiers)
  else ret modifiers.

(** [BattleDamage.get_air_sweep_attack_modifiers]. *)
Definition get_air_sweep_attack_modifiers (attacker : ICombatant) : Counter :=
  match attacker with
  | MapUnitCombatant unit =>
    fold_left (fun modifiers unique =>
                 match unique with
                 | StrengthWhenAirsweep amount source =>
                   counter_add source amount modifiers
                 | _ => modifiers
                 end)
              (matching_uniques TStrengthWhenAirsweep (uniques unit)) []
  | CityCombatant _ => []
  end.

(** [BattleDamage.get_attack_modifiers]. *)
Definition get_attack_modifiers (attacker defender : ICombatant)
    (tile_to_attack_from : Vector2) : M Counter :=
  let* modifiers :=
    get_general_modifiers attacker defender Attack tile_to_attack_from in
  match attacker with
  | MapUnitCombatant unit =>
    let* modifiers :=
      add_terrain_attack_modifiers unit defender tile_to_attack_from modifiers in
    let modifiers :=
      if is_preparing_air_sweep unit
      then counter_add_all (get_air_sweep_attack_modifiers attacker) modifiers
      else modifiers in
    if Combatant.is_melee attacker then
      let* w := get_world in
      let all_units := map_units attacker defender w in
      let number_of_other_attackers :=
        Z.of_nat
          (length
             (List.filter
                (fun tile =>
                   match military_unit_at tile all_units with
                   | Some military_unit =>
                     negb (id military_unit =? id unit)
                     && String.eqb (civ military_unit) (civ unit)
                     && Combatant.is_melee (MapUnitCombatant military_unit)
                   | None => false
                   end)
                (neighbors (Combatant.get_tile defender)))) in
      if 0 <? number_of_other_attackers then
        let flanking_bonus :=
          fold_left (fun flanking_bonus unique =>
                       match unique with
                       | FlankAttackBonus percent =>
                         Float.mul flanking_bonus (Float.of_Q (to_percent percent))
                       | _ => flanking_bonus
                       end)
                    (matching_uniques TFlankAttackBonus (uniques unit))
                    (Float.of_Q BASE_FLANKING_BONUS) in
        let* others := lift_option (Float.of_int number_of_other_attackers) in
        let* flanking := lift_option (Float.to_int (Float.mul flanking_bonus others)) in
        ret (counter_set "Flanking" flanking modifiers)
      else ret modifiers
    else ret modifiers
  | CityCombatant _ => ret modifiers
  end.

(** [BattleDamage.get_defence_modifiers]. *)
Definition get_defence_modifiers (attacker defender : ICombatant)
    (tile_to_attack_from : Vector2) : M Counter :=
  let* modifiers :=
    get_general_modifiers defender attacker Defend tile_to_attack_from in
  let tile := Combatant.get_tile defender in
  match defender with
  | MapUnitCombatant unit =>
    if negb (is_embarked unit) then
      let* w := get_world in
      let tile_defence_bonus := Float.of_Q (get_defensive_bonus tile unit w) in
      let* modifiers :=
        if (negb (has_unique TNoDefensiveTerrainBonus unit)
            && Float.ltb (Float.Finite 0) tile_defence_bonus)
           || (negb (has_unique TNoDefensiveTerrainPenalty unit)
               && Float.ltb tile_defence_bonus (Float.Finite 0))
        then
          let* percent :=
            lift_option
              (Float.to_int (Float.mul tile_defence_bonus (Float.Finite 100))) in
          ret (counter_set "Tile" percent modifiers)
        else ret modifiers in
      if is_fortified unit || is_guarding unit
      then ret (counter_set "Fortification"
                  (FORTIFICATION_BONUS * get_fortification_turns unit) modifiers)
      else ret modifiers
    else ret modifiers
  | CityCombatant _ => ret modifiers
  end.

(** *** From the modifiers to the damage *)

(** [BattleDamage.modifiers_to_final_bonus]: the values, divided by 100,
    are added one after the other to 1.0. *)
Definition modifiers_to_final_bonus (modifiers : Counter) : option Float.float :=
  fold_left (fun final_modifier modifier_value =>
               let? final_modifier := final_modifier in
               let? value := Float.of_int modifier_value in
               let? hundredth := Float.div value (Float.Finite 100) in
               Some (Float.add final_modifier hundredth))
            (counter_values modifiers) (Some (Float.Finite 1)).

(** [BattleDamage.get_health_dependant_damage_ratio]. *)
Definition get_health_dependant_damage_ratio (combatant : ICombatant)
    : option Float.float :=
  match combatant with
  | MapUnitCombatant u =>
    if has_unique TNoDamagePenaltyWoundedUnits u then Some (Float.Finite 1)
    else
      let? lost := Float.of_int (100 - health u) in
      let? penalty :=
        Float.div lost
          (Float.of_Q DAMAGE_REDUCTION_WOUNDED_UNIT_RATIO_PERCENTAGE) in
      Some (Float.sub (Float.Finite 1) penalty)
  | CityCombatant _ => Some (Float.Finite 1)
  end.

(** [BattleDamage.get_attacking_strength]. *)
Definition get_attacking_strength (attacker defender : ICombatant)
    (tile_to_attack_from : Vector2) : M Float.float :=
  let* modifiers := get_attack_modifiers attacker defender tile_to_attack_from in
  let* attack_modifier := lift_option (modifiers_to_final_bonus modifiers) in
  let* strength :=
    lift_option (Float.of_int (Combatant.get_attacking_strength attacker)) in
  ret (Float.max (Float.Finite 1) (Float.mul strength attack_modifier)).

(** [BattleDamage.get_defending_strength]. *)
Definition get_defending_strength (attacker defender : ICombatant)
    (tile_to_attack_from : Vector2) : M Float.float :=
  let* modifiers := get_defence_modifiers attacker defender tile_to_attack_from in
  let* defence_modifier := lift_option (modifiers_to_final_bonus modifiers) in
  let* strength :=
    lift_option
      (Float.of_int (Combatant.get_defending_strength
                       (Combatant.is_ranged attacker) defender)) in
  ret (Float.max (Float.Finite 1) (Float.mul strength defence_modifier)).

(** The randomness factor a damage calculation takes when the caller
    passes none: a private generator seeded with the turn number times the
    hash of the position of [combatant]'s tile. *)
Definition default_randomness_factor (combatant : ICombatant) : M Q :=
  let* w := get_world in
  let random_seed := (turns w * hash_code (Combatant.get_tile combatant))%Z in
  ret (seeded_random random_seed).

(** The damage of the formula: the ratio of the strengths, the damage
    modifier for it, and the product with the health-dependant ratio of
    [dealer], truncated. *)
Definition formula_damage (attacker defender : ICombatant)
    (tile_to_attack_from : Vector2) (damage_to_attacker : bool)
    (randomness_factor : Q) (dealer : ICombatant) : M Z :=
  let* attacking_strength :=
    get_attacking_strength attacker defender tile_to_attack_from in
  let* defending_strength :=
    get_defending_strength attacker defender tile_to_attack_from in
  let* ratio := lift_option (Float.div attacking_strength defending_strength) in
  let* modifier :=
    lift_option (damage_modifier ratio damage_to_attacker
                                 (Float.of_Q randomness_factor)) in
  let* health_ratio := lift_option (get_health_dependant_damage_ratio dealer) in
  lift_option (Float.to_int (Float.mul modifier health_ratio)).

(** [BattleDamage.calculate_damage_to_attacker]. *)
Definition calculate_damage_to_attacker (attacker defender : ICombatant)
    (tile_to_attack_from : option Vector2) (randomness_factor : option Q) : M Z :=
  let tile_to_attack_from :=
    match tile_to_attack_from with
    | None => Combatant.get_tile defender
    | Some t => t
    end in
  let* randomness_factor :=
    match randomness_factor with
    | None => default_randomness_factor attacker
    | Some f => ret f
    end in
  if Combatant.is_ranged attacker && negb (Combatant.is_air_unit attacker)
  then ret 0%Z
  else if Combatant.is_civilian defender
  then ret 0%Z
  else formula_damage attacker defender tile_to_attack_from true
                      randomness_factor defender.

(** [BattleDamage.calculate_damage_to_defender]. *)
Definition calculate_damage_to_defender (attacker defender : ICombatant)
    (tile_to_attack_from : option Vector2) (randomness_factor : option Q) : M Z :=
  let tile_to_attack_from :=
    match tile_to_attack_from with
    | None => Combatant.get_tile defender
    | Some t => t
    end in
  let* randomness_factor :=
    match randomness_factor with
    | None => default_randomness_factor defender
    | Some f => ret f
    end in
  if Combatant.is_civilian defender
  then ret DAMAGE_TO_CIVILIAN_UNIT
  else formula_damage attacker defender tile_to_attack_from false
                      randomness_factor attacker.

End WithExternals.

End BattleDamage.
(** ** The capture subsystem ([BattleUnitCapture]) *)

Module BattleUnitCapture.
Section WithExternals.
Context `{Externals}.

(** [BattleUnitCapture.unit_captured_prize_ships_unique]; a defender of
    defending strength zero makes the division raise. *)
Definition unit_captured_prize_ships_unique (attacker defender : MapUnit) : M bool :=
  if negb (existsb
             (fun unique =>
                match unique with
                | KillUnitCapture unit_filter =>
                  MapUnit_matches_filter defender unit_filter (Some true)
                | _ => false
                end)
             (matching_uniques TKillUnitCapture (uniques attacker)))
  then ret false
  else
    let attacking := Combatant.get_attacking_strength (MapUnitCombatant attacker) in
    let defending := Combatant.get_defending_strength false (MapUnitCombatant defender) in
    if defending =? 0 then raise
    else
      let capture_chance :=
        Qmin (8 # 10)
             ((1 # 10) + inject_Z attacking / inject_Z defending * (4 # 10))%Q in
      (* Between 0 and 1. Defaults to turn and location-based random to
         avoid save scumming *)
      let* w := get_world in
      let random_seed := turns w * hash_code (current_tile defender) in
      ret (Qle_bool (seeded_random random_seed) capture_chance).

(** The loop of [unit_gain_from_defeating_unit] over the matching
    uniques, threading [unit_captured]. *)
Fixpoint gain_from_defeating_unit_loop (attacker defender : MapUnit)
    (matching : list Unique) (unit_captured : bool) : M bool :=
  match matching with
  | [] => ret unit_captured
  | GainFromDefeatingUnit unit_filter gold_amount :: rest =>
    if MapUnit_matches_filter defender unit_filter None
    then let* _ := add_gold (civ attacker) gold_amount in
         gain_from_defeating_unit_loop attacker defender rest true
    else gain_from_defeating_unit_loop attacker defender rest unit_captured
  | _ :: rest => gain_from_defeating_unit_loop attacker defender rest unit_captured
  end.

(** [BattleUnitCapture.unit_gain_from_defeating_unit]. *)
Definition unit_gain_from_defeating_unit (attacker defender : MapUnit) : M bool :=
  if negb (Combatant.is_melee (MapUnitCombatant attacker)) then ret false
  else gain_from_defeating_unit_loop attacker defender
         (matching_uniques TGainFromDefeatingUnit (uniques attacker)) false.

Fixpoint gain_from_encampment_loop (attacker : MapUnit)
    (matching : list Unique) (unit_captured : bool) : M bool :=
  match matching with
  | [] => ret unit_captured
  | GainFromEncampment gold_amount :: rest =>
    let* _ := add_gold (civ attacker) gold_amount in
    gain_from_encampment_loop attacker rest true
  | _ :: rest => gain_from_encampment_loop attacker rest unit_captured
  end.

(** [BattleUnitCapture.unit_captured_from_encampment]. *)
Definition unit_captured_from_encampment (attacker defender : MapUnit)
    (attacked_tile : Vector2) : M bool :=
  let* defender_is_barbarian := civ_is_barbarian (civ defender) in
  if negb defender_is_barbarian then ret false
  else
    let* w := get_world in
    if negb (option_eqb String.eqb (tiles w !! attacked_tile ≫= improvement)
                        (Some barbarian_encampment))
    then ret false
    else
      (* German unique - needs to be checked before we try to move to the
         enemy tile, since the encampment disappears after we move in *)
      let* civ_matching := civ_get_matching_uniques (civ attacker) TGainFromEncampment in
      gain_from_encampment_loop attacker civ_matching false.

(** The three capture triggers, all run, in the order of the list the
    code builds before it takes [any] of it. *)
Definition capture_triggers (attacker defender : MapUnit)
    (attacked_tile : Vector2) : M bool :=
  let* prize_ships := unit_captured_prize_ships_unique attacker defender in
  let* from_encampment := unit_captured_from_encampment attacker defender attacked_tile in
  let* from_defeating := unit_gain_from_defeating_unit attacker defender in
  ret (prize_ships || from_encampment || from_defeating).

(** [BattleUnitCapture.spawn_captured_unit]. *)
Definition spawn_captured_unit (defender attacker : MapUnit) : M bool :=
  let defender_tile := current_tile defender in
  let* w := get_world in
  match place_unit_near_tile (civ attacker) defender_tile (name defender) w with
  | None => ret false
  | Some added_unit =>
    let added_unit := set_unit_health 50 (set_current_movement 0 added_unit) in
    let* _ := modify_world
           (fun w => set_placed_units (placed_units w ++ [added_unit]) w) in
    let* w' := get_world in
    match civilian_unit_on_tile defender_tile w' with
    | Some civilian_unit =>
      (* placeUnitNearTile might not have spawned the unit in exactly this
         tile, in which case no capture would have happened on this tile *)
      if negb (Vector2_eqb (current_tile added_unit) defender_tile)
      then let* _ := capture_civilian_unit (MapUnitCombatant attacker) civilian_unit in
           ret true
      else ret true
    | None => ret true
    end
  end.

(** [BattleUnitCapture.try_capture_military_unit]. *)
Definition try_capture_military_unit (attacker defender : ICombatant)
    (attacked_tile : Vector2) : M bool :=
  match defender, attacker with
  | MapUnitCombatant defender_unit, MapUnitCombatant attacker_unit =>
    if has_unique TUncapturable defender_unit then ret false
    else if negb (Combatant.is_defeated defender)
            || bu_is_civilian (base_unit defender_unit)
    then ret false
    else
      let* was_unit_captured := capture_triggers attacker_unit defender_unit attacked_tile in
      if negb was_unit_captured then ret false
      else
        (* This is called after takeDamage and so the defeated defender is
           already destroyed and thus removed from the tile *)
        spawn_captured_unit defender_unit attacker_unit
  | _, _ => ret false
  end.

(** *** The gold that the triggers grant *)

(** The gold of the uniques of [unit_gain_from_defeating_unit] whose
    filter matches the defender. *)
Fixpoint defeating_unit_gold (defender : MapUnit) (matching : list Unique) : Z :=
  match matching with
  | [] => 0
  | GainFromDefeatingUnit unit_filter gold_amount :: rest =>
    (if MapUnit_matches_filter defender unit_filter None then gold_amount else 0)
    + defeating_unit_gold defender rest
  | _ :: rest => defeating_unit_gold defender rest
  end.

(** Whether a GainFromDefeatingUnit unique among [matching] has a filter
    that matches the defender. *)
Definition some_filter_matches (defender : MapUnit) (matching : list Unique) : bool :=
  existsb (fun unique =>
             match unique with
             | GainFromDefeatingUnit unit_filter _ =>
               MapUnit_matches_filter defender unit_filter None
             | _ => false
             end) matching.

(** The gold of the GainFromEncampment uniques. *)
Fixpoint encampment_gold (matching : list Unique) : Z :=
  match matching with
  | [] => 0
  | GainFromEncampment gold_amount :: rest => gold_amount + encampment_gold rest
  | _ :: rest => encampment_gold rest
  end.

(** The gold that the three triggers grant to the civilization of the
    attacker, from the game state before they run. *)
Definition granted_gold (attacker defender : MapUnit) (attacked_tile : Vector2)
    (w : World) : Z :=
  (if match civilizations w !! civ defender with
      | Some ci => is_barbarian ci
      | None => false
      end
      && option_eqb String.eqb (tiles w !! attacked_tile ≫= improvement)
                    (Some barbarian_encampment)
   then match civilizations w !! civ attacker with
        | Some ci => encampment_gold (matching_uniques TGainFromEncampment
                                                       (civ_uniques ci))
        | None => 0
        end
   else 0)
  + (if Combatant.is_melee (MapUnitCombatant attacker)
     then defeating_unit_gold defender
            (matching_uniques TGainFromDefeatingUnit (uniques attacker))
     else 0).

End WithExternals.
End BattleUnitCapture.
(** ** Experience ([Battle.add_xp], [Battle.post_battle_add_xp]) *)

Module BattleXp.
Section WithExternals.
Context `{Externals}.

Definition sum_flat_xp_gain (l : list Unique) : Z :=
  fold_right (fun unique acc =>
                match unique with FlatXPGain amount => amount + acc | _ => acc end)
             0 l.

(** [sum(float(unique.params[0]) for unique in ...)]: the percentages
    are added one after the other, from the integer 0 (whole percentages,
    which is what the rulesets write, add up without rounding in whatever
    way a sum is taken). *)
Definition sum_percentage_xp_gain (l : list Unique) : Float.float :=
  fold_left (fun sum unique =>
               match unique with
               | PercentageXPGain percent => Float.add sum (Float.of_Q percent)
               | _ => sum
               end)
            l (Float.Finite 0).

(** [int(base_xp * xp_modifier)] with [xp_modifier = 1.0 + xp_bonus / 100],
    in floats. *)
Definition xp_gained_of (base_xp : Z) (xp_bonus : Float.float) : option Z :=
  let? hundredth := Float.div xp_bonus (Float.Finite 100) in
  let xp_modifier := Float.add (Float.Finite 1) hundredth in
  let? base := Float.of_int base_xp in
  Float.to_int (Float.mul base xp_modifier).

(** [Battle.add_xp(this_combatant, amount, other_combatant)]; returns
    [this_combatant]. *)
Definition add_xp (this_combatant : ICombatant) (amount : Z)
    (other_combatant : ICombatant) : M ICombatant :=
  match this_combatant with
  | CityCombatant _ => ret this_combatant
  | MapUnitCombatant unit =>
    let* other_is_barbarian :=
      civ_is_barbarian (Combatant.get_civ_info other_combatant) in
    if other_is_barbarian
       && (max_xp_from_barbarians <=? total_xp_produced (promotions unit))
    then ret this_combatant
    else
      let base_xp :=
        amount + sum_flat_xp_gain (matching_uniques TFlatXPGain (uniques unit)) in
      let xp_bonus :=
        sum_percentage_xp_gain
          (matching_uniques TPercentageXPGain (uniques unit)) in
      let* xp_gained := lift_option (xp_gained_of base_xp xp_bonus) in
      let unit' := set_xp (xp (promotions unit) + xp_gained) unit in
      let* _ :=
        if negb other_is_barbarian
        then
          let* major := civ_is_major_civ (civ unit) in
          if major
          then update_civ (civ unit)
                 (earn_great_general_points unit' other_combatant xp_gained)
          else ret tt
        else ret tt in
      ret (MapUnitCombatant unit')
  end.

(** The local [add_xp(attacker_xp, defender_xp)] of
    [post_battle_add_xp]. *)
Definition add_xp_both (attacker defender : ICombatant)
    (attacker_xp defender_xp : Z) : M (ICombatant * ICombatant) :=
  let* attacker := add_xp attacker attacker_xp defender in
  let* defender := add_xp defender defender_xp attacker in
  ret (attacker, defender).

(** [Battle.post_battle_add_xp]. *)
Definition post_battle_add_xp (attacker defender : ICombatant)
    : M (ICombatant * ICombatant) :=
  if Combatant.is_air_unit attacker then add_xp_both attacker defender 4 2
  else if Combatant.is_ranged attacker then
    if Combatant.is_city defender then add_xp_both attacker defender 3 2
    else add_xp_both attacker defender 2 2
  else if negb (Combatant.is_civilian defender)
  then add_xp_both attacker defender 5 4
  else ret (attacker, defender).

(** The experience table in the words of the specification, its rows in
    the order given: (attacker XP, defender XP), or no award. *)
Definition spec_xp_table (attacker_is_air attacker_is_ranged defender_is_city
    defender_is_civilian already_defeated_city : bool) : option (Z * Z) :=
  if already_defeated_city then None
  else if attacker_is_air then Some (4, 2)
  else if attacker_is_ranged && defender_is_city then Some (3, 2)
  else if attacker_is_ranged then Some (2, 2)
  else if negb defender_is_civilian then Some (5, 4)
  else None.

(** The award of the table to the two combatants. *)
Definition spec_award (attacker defender : ICombatant)
    (already_defeated_city : bool) : M (ICombatant * ICombatant) :=
  match spec_xp_table (Combatant.is_air_unit attacker)
                      (Combatant.is_ranged attacker)
                      (Combatant.is_city defender)
                      (Combatant.is_civilian defender)
                      already_defeated_city with
  | Some (attacker_xp, defender_xp) =>
    add_xp_both attacker defender attacker_xp defender_xp
  | None => ret (attacker, defender)
  end.

End WithExternals.
End BattleXp.
(** ** The interception subsystem ([AirInterception]) *)

Module AirInterception.
Section WithExternals.
Context `{Externals}.

(** [interceptors.sort(key=intercept_chance, reverse=True)]: a stable
    insertion into a list sorted by decreasing chance. *)
Fixpoint insert_by_chance (u : MapUnit) (sorted : list MapUnit) : list MapUnit :=
  match sorted with
  | [] => [u]
  | v :: rest =>
    if intercept_chance v <? intercept_chance u
    then u :: v :: rest
    else v :: insert_by_chance u rest
  end.

Definition sort_by_chance (l : list MapUnit) : list MapUnit :=
  fold_left (fun sorted u => insert_by_chance u sorted) l [].

(** The replacement, in the list of units, of the unit with the id of [u]
    by [u]. *)
Definition store_unit (u : MapUnit) (w : World) : World :=
  set_units (map (fun v => if id v =? id u then u else v) (units w)) w.

(** air_interception.py wraps the interceptor in a class [MapUnitCombatant]
    of its own, which has the methods [get_name], [get_civ_info],
    [get_tile], [is_defeated] and [take_damage] and no other, and is not
    the [MapUnitCombatant] of the battle core.  What the battle core does
    with such a combatant: *)

(** [BattleDamage.calculate_damage_to_defender(MapUnitCombatant(
    interceptor), attacker)]: the damage to a civilian is a constant; for
    any other defender the strength of the interceptor is asked of the
    combatant of air_interception.py, [attacker.get_attacking_strength()]
    in [BattleDamage.get_attacking_strength], which raises
    [AttributeError]. *)
Definition calculate_damage_to_defender_by_interceptor (interceptor : MapUnit)
    (defender : ICombatant) : M Z :=
  let* randomness_factor := BattleDamage.default_randomness_factor defender in
  if Combatant.is_civilian defender
  then ret DAMAGE_TO_CIVILIAN_UNIT
  else raise.

(** [Battle.add_xp(MapUnitCombatant(interceptor), amount, other)]: the
    combatant is no instance of the [MapUnitCombatant] of the battle core,
    and [add_xp] returns at once. *)
Definition add_xp_to_interceptor (interceptor : MapUnit) (amount : Z)
    (other_combatant : ICombatant) : M unit :=
  ret tt.

(** [Battle.take_damage(attacker, MapUnitCombatant(interceptor))]:
    [BattleDamage.calculate_damage_to_defender] asks the combatant of
    air_interception.py whether it is a civilian, [defender.is_civilian()],
    which raises [AttributeError]. *)
Definition take_damage_with_interceptor (attacker : ICombatant)
    (interceptor : MapUnit) : M DamageDealt :=
  raise.

(** [AirInterception.try_intercept_air_attack]; returns the attacker with
    the damage dealt.  [isinstance(defender, MapUnitCombatant)] asks for
    the class of air_interception.py, which the defender of a battle is
    not: a unit with CannotInterceptUnits is passed over whether it is the
    defender or not. *)
Definition try_intercept_air_attack (attacker : MapUnit) (attacked_tile : Vector2)
    (intercepting_civ : string) (defender : option ICombatant)
    : M (MapUnit * DamageDealt) :=
  if has_unique TCannotBeIntercepted attacker then ret (attacker, DamageDealt_none)
  else
    let* w := get_world in
    (* Pick highest chance interceptor *)
    let interceptors :=
      sort_by_chance
        (List.filter (fun unit => String.eqb (civ unit) intercepting_civ
                                  && can_intercept unit attacked_tile)
                     (units w)) in
    let is_the_defender (unit : MapUnit) := false in
    match List.find (fun unit => negb (has_unique TCannotInterceptUnits unit
                                       && negb (is_the_defender unit)))
                    interceptors with
    | None => ret (attacker, DamageDealt_none)
    | Some interceptor =>
      let interceptor :=
        set_attacks_this_turn (attacks_this_turn interceptor + 1) interceptor in
      let* _ := modify_world (store_unit interceptor) in
      (* Does intercept happen? *)
      let* x := random_random in
      if Qlt_bool (inject_Z (intercept_chance interceptor) / 100) x
      then ret (attacker, DamageDealt_none)
      else
        let* damage :=
          calculate_damage_to_defender_by_interceptor
            interceptor (MapUnitCombatant attacker) in
        let* damage :=
          lift_option
            (let? bonus := Float.of_int (intercept_damage_percent_bonus interceptor) in
             let? hundredth := Float.div bonus (Float.Finite 100) in
             let damage_factor := Float.add (Float.Finite 1) hundredth in
             let damage_factor :=
               Float.mul damage_factor
                         (Float.of_Q (received_intercept_damage_factor attacker)) in
             let? damage := Float.of_int damage in
             Float.to_int (Float.mul damage damage_factor)) in
        let damage := Z.min damage (health attacker) in
        let attacker := MapUnit_take_damage damage attacker in
        let* _ :=
          if 0 <? damage
          then add_xp_to_interceptor interceptor 2 (MapUnitCombatant attacker)
          else ret tt in
        ret (attacker, {| attacker_dealt := 0; defender_dealt := damage |})
    end.

End WithExternals.
End AirInterception.
(** ** The battle orchestrator ([Battle]) *)

Module Battle.
Section WithExternals.
Context `{Externals}.

(** *** The exchange of damage ([Battle.take_damage]) *)

(** The variables of the alternating loop of [take_damage]. *)
Record Exchange : Type := {
  potential_damage_to_defender : Z;
  potential_damage_to_attacker : Z;
  ex_attacker : ICombatant;
  ex_defender : ICombatant
}.

(** How a run of the loop ends: the loop condition is false, a [break],
    or the fuel of the embedding ran out before the loop did. *)
Inductive LoopExit : Type := ConditionFalse | Break | OutOfFuel.

(** The two branches of the body of the loop: one point of damage to the
    defender, or to the attacker. *)
Definition hit_defender (s : Exchange) : Exchange :=
  {| potential_damage_to_defender := potential_damage_to_defender s - 1;
     potential_damage_to_attacker := potential_damage_to_attacker s;
     ex_attacker := ex_attacker s;
     ex_defender := Combatant.take_damage 1 (ex_defender s) |}.

Definition hit_attacker (s : Exchange) : Exchange :=
  {| potential_damage_to_defender := potential_damage_to_defender s;
     potential_damage_to_attacker := potential_damage_to_attacker s - 1;
     ex_attacker := Combatant.take_damage 1 (ex_attacker s);
     ex_defender := ex_defender s |}.

(** The [while] loop of [take_damage]; every iteration takes one draw of
    the global generator. *)
Fixpoint exchange_loop (fuel : nat) (s : Exchange) : M (LoopExit * Exchange) :=
  let pd := potential_damage_to_defender s in
  let pa := potential_damage_to_attacker s in
  if 0 <? pd + pa then
    match fuel with
    | O => ret (OutOfFuel, s)
    | S fuel' =>
      let* x := random_random in
      if Qlt_bool (x * inject_Z (pd + pa)) (inject_Z pd) then
        let s' := hit_defender s in
        if Combatant.is_defeated (ex_defender s') then ret (Break, s')
        else exchange_loop fuel' s'
      else
        let s' := hit_attacker s in
        if Combatant.is_defeated (ex_attacker s') then ret (Break, s')
        else exchange_loop fuel' s'
    end
  else ret (ConditionFalse, s).


(** The second and third branch of [take_damage]: a ranged attacker that
    is no air unit only deals damage, any other attacker trades damage
    with the defender. *)
Definition exchange_damage (attacker defender : ICombatant)
    (potential_damage_to_defender potential_damage_to_attacker : Z)
    : M (ICombatant * ICombatant) :=
  if Combatant.is_ranged attacker && negb (Combatant.is_air_unit attacker)
  then ret (attacker, Combatant.take_damage potential_damage_to_defender defender)
  else
    let* r :=
      exchange_loop
        (Z.to_nat (potential_damage_to_defender + potential_damage_to_attacker))
        {| potential_damage_to_defender := potential_damage_to_defender;
           potential_damage_to_attacker := potential_damage_to_attacker;
           ex_attacker := attacker; ex_defender := defender |} in
    ret (ex_attacker (snd r), ex_defender (snd r)).

(** [Battle.take_damage]; returns the two combatants with the damage
    dealt. *)
Definition take_damage (attacker defender : ICombatant)
    : M (ICombatant * ICombatant * DamageDealt) :=
  let* potential_damage_to_defender :=
    BattleDamage.calculate_damage_to_defender attacker defender None None in
  let* potential_damage_to_attacker :=
    BattleDamage.calculate_damage_to_attacker attacker defender None None in
  let attacker_health_before := Combatant.get_health attacker in
  let defender_health_before := Combatant.get_health defender in
  let* after :=
    match defender with
    | MapUnitCombatant defender_unit =>
      if bu_is_civilian (base_unit defender_unit) && Combatant.is_melee attacker
      then
        let* captured := capture_civilian_unit attacker defender_unit in
        ret (attacker, MapUnitCombatant captured)
      else exchange_damage attacker defender
             potential_damage_to_defender potential_damage_to_attacker
    | CityCombatant _ =>
      exchange_damage attacker defender
        potential_damage_to_defender potential_damage_to_attacker
    end in
  let attacker := fst after in
  let defender := snd after in
  let defender_damage_dealt :=
    attacker_health_before - Combatant.get_health attacker in
  let attacker_damage_dealt :=
    defender_health_before - Combatant.get_health defender in
  let* attacker :=
    match attacker with
    | MapUnitCombatant _ => trigger_upon_losing_health attacker defender_damage_dealt
    | CityCombatant _ => ret attacker
    end in
  let* defender :=
    match defender with
    | MapUnitCombatant _ => trigger_upon_losing_health defender attacker_damage_dealt
    | CityCombatant _ => ret defender
    end in
  let* _ := plunder_from_damage attacker defender attacker_damage_dealt in
  ret (attacker, defender,
       {| attacker_dealt := attacker_damage_dealt;
          defender_dealt := defender_damage_dealt |}).

(** *** Movement points and attacks *)

Definition set_attacked_this_turn (b : bool) (c : City) : City :=
  {| city_name := city_name c; city_health := city_health c;
     city_civ := city_civ c; location := location c;
     population := population c; attacked_this_turn := b;
     city_destroyed := city_destroyed c |}.

(** [Battle.reduce_attacker_movement_points_and_attacks]; returns the
    attacker. *)
Definition reduce_attacker_movement_points_and_attacks
    (attacker defender : ICombatant) (attacked_tile : Vector2) : ICombatant :=
  match attacker with
  | CityCombatant city => CityCombatant (set_attacked_this_turn true city)
  | MapUnitCombatant unit =>
    if Combatant.is_civilian defender
       && Vector2_eqb (Combatant.get_tile attacker) (Combatant.get_tile defender)
    then attacker
    else
      let unit := set_attacks_this_turn (attacks_this_turn unit + 1) unit in
      let unit :=
        if has_unique TCanMoveAfterAttacking unit
           || (attacks_this_turn unit <? max_attacks_per_turn unit)
        then
          if negb (moves_like_air_units (base_unit unit))
             && negb (Combatant.is_melee attacker
                      && Combatant.is_defeated defender)
          then MapUnit_use_movement_points 1 unit
          else unit
        else set_current_movement 0 unit in
      let unit :=
        if is_fortified unit || is_sleeping unit || is_guarding unit
        then set_action None unit
        else unit in
      MapUnitCombatant unit
  end.

(** *** Withdrawal before melee *)

(** [Battle.do_withdraw_from_melee_ability]; returns whether the defender
    withdrew, with the two units. *)
Definition do_withdraw_from_melee_ability (attacker defender : MapUnit)
    : M (bool * MapUnit * MapUnit) :=
  if is_embarked defender then ret (false, attacker, defender)
  else if cannot_move defender then ret (false, attacker, defender)
  else if is_escorting defender then ret (false, attacker, defender)
  else if is_guarding defender then ret (false, attacker, defender)
  else
    let from_tile := current_tile defender in
    let attacker_tile := current_tile attacker in
    let* w := get_world in
    let can_not_withdraw_to (tile : Vector2) : bool :=
      negb (can_move_to defender tile w)
      || match tiles w !! tile with
         | Some t =>
           (is_land_unit defender && negb (is_land t))
           || (is_city_center t
               && negb (option_eqb String.eqb (owner t) (Some (civ defender))))
         | None => true
         end in
    let first_candidate_tiles :=
      List.filter (fun tile => negb (Vector2_eqb tile attacker_tile)
                               && negb (position_in tile (neighbors attacker_tile))
                               && negb (can_not_withdraw_to tile))
                  (neighbors from_tile) in
    let second_candidate_tiles :=
      List.filter (fun tile => position_in tile (neighbors attacker_tile)
                               && negb (can_not_withdraw_to tile))
                  (neighbors from_tile) in
    let withdraw_to (candidates : list Vector2) : M (bool * MapUnit * MapUnit) :=
      let* to_tile := random_choice from_tile candidates in
      let defender := set_current_tile to_tile defender in
      match reduce_attacker_movement_points_and_attacks
              (MapUnitCombatant attacker) (MapUnitCombatant defender) from_tile with
      | MapUnitCombatant attacker => ret (true, attacker, defender)
      | CityCombatant _ => ret (true, attacker, defender)
      end in
    match first_candidate_tiles, second_candidate_tiles with
    | _ :: _, _ => withdraw_to first_candidate_tiles
    | [], _ :: _ => withdraw_to second_candidate_tiles
    | [], [] => ret (false, attacker, defender)
    end.

(** *** One attack ([Battle.attack]) *)

(** The city capture step of [Battle.attack]. *)
Definition handle_city_capture (attacker defender : ICombatant)
    : M (ICombatant * ICombatant) :=
  match defender, attacker with
  | CityCombatant city, MapUnitCombatant unit =>
    if Combatant.is_defeated defender
       && Combatant.is_melee attacker
       && negb (has_unique TCannotCaptureCities unit)
    then
      let* attacker_is_barbarian := civ_is_barbarian (civ unit) in
      if attacker_is_barbarian then
        let city := CityCombatantM.take_damage (-1) city in (* Back to 2 HP *)
        let* defender_gold := civ_gold (city_civ city) in
        let ransom := Z.min 200 defender_gold in
        let* _ := add_gold (city_civ city) (- ransom) in
        ret (MapUnitCombatant (destroy unit), CityCombatant city)
      else
        let* conquered := conquer_city city unit in
        ret (MapUnitCombatant (snd conquered), CityCombatant (fst conquered))
    else ret (attacker, defender)
  | _, _ => ret (attacker, defender)
  end.

(** [Battle.post_battle_notifications]: the notification it adds is not
    part of the state.  Between two combatants of different civilizations
    it reads [attacker_tile.position], which raises [AttributeError] when
    the caller has passed no [attacker_tile]. *)
Definition post_battle_notifications (attacker defender : ICombatant)
    (attacked_tile : Vector2) (attacker_tile : option Vector2) : M unit :=
  if String.eqb (Combatant.get_civ_info attacker) (Combatant.get_civ_info defender)
  then ret tt
  else
    match attacker_tile with
    | Some _ => ret tt
    | None => raise
    end.

(** A combatant as the list of units has it: a unit that other code has
    reached through the list and changed is the same object. *)
Definition as_listed (c : ICombatant) (w : World) : ICombatant :=
  match c with
  | MapUnitCombatant u =>
    match List.find (fun v => id v =? id u) (units w) with
    | Some v => MapUnitCombatant v
    | None => c
    end
  | CityCombatant _ => c
  end.

(** Where [Battle.attack] stands when it comes to the award of
    experience: it has returned already, or it reaches the award with the
    two combatants, the damage to return and [is_already_defeated_city]. *)
Inductive AttackProgress : Type :=
| Returned (attacker defender : ICombatant) (damage : DamageDealt)
| ReachesXp (attacker defender : ICombatant) (damage : DamageDealt)
            (is_already_defeated_city : bool).

Definition append_attack (attacked_tile : Vector2) (attacker : ICombatant)
    : M ICombatant :=
  match attacker with
  | MapUnitCombatant unit =>
    ret (MapUnitCombatant
           (set_attacks_since_turn_start
              (attacks_since_turn_start unit ++ [attacked_tile]) unit))
  | CityCombatant city =>
    let* _ :=
      update_civ (city_civ city)
        (fun ci =>
           {| gold := gold ci; is_barbarian := is_barbarian ci;
              is_major_civ := is_major_civ ci; civ_uniques := civ_uniques ci;
              civ_attacks_since_turn_start :=
                civ_attacks_since_turn_start ci
                ++ [(location city, attacked_tile)] |}) in
    ret attacker
  end.

(** The post-battle effects of [Battle.attack] on a defeated military
    unit: the winner earns, heals and triggers its victory uniques, the
    loser triggers its defeat uniques. *)
Definition defeat_effects (winner loser : ICombatant) (attacked_tile : Vector2)
    : M (ICombatant * ICombatant) :=
  let* _ := try_earn_from_killing winner loser in
  let* winner := try_heal_after_killing winner in
  let* winner :=
    match winner with
    | MapUnitCombatant _ => trigger_victory_uniques winner loser attacked_tile
    | CityCombatant _ => ret winner
    end in
  let* loser := trigger_defeat_uniques loser winner attacked_tile in
  ret (winner, loser).

Definition is_military_unit (c : ICombatant) : bool :=
  match c with
  | MapUnitCombatant u => negb (bu_is_civilian (base_unit u))
  | CityCombatant _ => false
  end.

(** [Battle.attack] from the damage exchange to the reduction of the
    movement points of the attacker. *)
Definition attack_battle (attacker defender : ICombatant)
    (attacked_tile : Vector2) (intercept_damage : DamageDealt)
    : M AttackProgress :=
  let is_already_defeated_city :=
    Combatant.is_city defender && Combatant.is_defeated defender in
  let* exchanged := take_damage attacker defender in
  let attacker := fst (fst exchanged) in
  let defender := snd (fst exchanged) in
  let damage_dealt := snd exchanged in
  (* Handle unit capture *)
  let* capture_military_unit_success :=
    BattleUnitCapture.try_capture_military_unit attacker defender attacked_tile in
  let* _ :=
    if negb capture_military_unit_success
    then post_battle_notifications attacker defender attacked_tile
           (Some (Combatant.get_tile attacker))
    else ret tt in
  (* Handle barbarian camp attack *)
  let* defender_is_barbarian := civ_is_barbarian (Combatant.get_civ_info defender) in
  let* w := get_world in
  let* _ :=
    if defender_is_barbarian
       && option_eqb String.eqb (tiles w !! attacked_tile ≫= improvement)
                     (Some barbarian_encampment)
    then camp_attacked attacked_tile
    else ret tt in
  (* Handle city capture *)
  let* captured := handle_city_capture attacker defender in
  let attacker := fst captured in
  let defender := snd captured in
  (* Handle exploring units *)
  let defender :=
    match defender with
    | MapUnitCombatant u =>
      if negb (Combatant.is_defeated defender) && is_exploring u
      then MapUnitCombatant (set_action None u)
      else defender
    | CityCombatant _ => defender
    end in
  (* Handle post-battle effects *)
  let* effects :=
    if Combatant.is_defeated defender && is_military_unit defender
    then defeat_effects attacker defender attacked_tile
    else if Combatant.is_defeated attacker && is_military_unit attacker
    then
      let* r := defeat_effects defender attacker attacked_tile in
      ret (snd r, fst r)
    else ret (attacker, defender) in
  let attacker := fst effects in
  let defender := snd effects in
  let* triggered :=
    match attacker, defender with
    | MapUnitCombatant _, MapUnitCombatant _ =>
      let* r :=
        trigger_damage_uniques_for_unit attacker defender attacked_tile Attack in
      if negb (Combatant.is_ranged (fst r))
      then
        let* r' :=
          trigger_damage_uniques_for_unit (snd r) (fst r) attacked_tile Defend in
        ret (snd r', fst r')
      else ret r
    | _, _ => ret (attacker, defender)
    end in
  let attacker := fst triggered in
  let defender := snd triggered in
  let* attacker :=
    match attacker with
    | MapUnitCombatant u =>
      let u :=
        if has_unique TSelfDestructs u then destroy u
        else if is_moving u then set_action None u
        else u in
      let* _ := do_destroy_improvements_ability u attacked_tile defender in
      ret (MapUnitCombatant u)
    | CityCombatant _ => ret attacker
    end in
  let* attacker :=
    if negb capture_military_unit_success
    then post_battle_move_to_attacked_tile attacker defender attacked_tile
    else ret attacker in
  let attacker :=
    reduce_attacker_movement_points_and_attacks attacker defender attacked_tile in
  ret (ReachesXp attacker defender
         (DamageDealt_add damage_dealt intercept_damage)
         is_already_defeated_city).

(** [Battle.attack] from the withdrawal of the defender on. *)
Definition attack_after_interception (attacker defender : ICombatant)
    (attacked_tile : Vector2) (intercept_damage : DamageDealt)
    : M AttackProgress :=
  (* Handle withdraw from melee ability *)
  match attacker, defender with
  | MapUnitCombatant attacker_unit, MapUnitCombatant defender_unit =>
    if Combatant.is_melee attacker
       && has_unique TWithdrawsBeforeMeleeCombat defender_unit
    then
      let* r := do_withdraw_from_melee_ability attacker_unit defender_unit in
      if fst (fst r)
      then ret (Returned (MapUnitCombatant (snd (fst r)))
                         (MapUnitCombatant (snd r)) DamageDealt_none)
      else attack_battle (MapUnitCombatant (snd (fst r)))
                         (MapUnitCombatant (snd r))
                         attacked_tile intercept_damage
    else attack_battle attacker defender attacked_tile intercept_damage
  | _, _ => attack_battle attacker defender attacked_tile intercept_damage
  end.

(** [Battle.attack] up to the award of experience: the record of the
    attack, the interception of an air attacker, the withdrawal of the
    defender, and the battle. *)
Definition attack_until_xp (attacker defender : ICombatant) : M AttackProgress :=
  let attacked_tile := Combatant.get_tile defender in
  let* attacker := append_attack attacked_tile attacker in
  (* Handle air interception *)
  match attacker with
  | MapUnitCombatant unit =>
    if bu_is_air_unit (base_unit unit)
    then
      let* r :=
        AirInterception.try_intercept_air_attack
          unit attacked_tile (Combatant.get_civ_info defender) (Some defender) in
      let attacker := MapUnitCombatant (fst r) in
      let intercept_damage := snd r in
      (* the interceptor may be the defender itself *)
      let* w := get_world in
      let defender := as_listed defender w in
      if Combatant.is_defeated attacker
      then ret (Returned attacker defender intercept_damage)
      else attack_after_interception attacker defender attacked_tile
             intercept_damage
    else attack_after_interception attacker defender attacked_tile
           DamageDealt_none
  | CityCombatant _ =>
    attack_after_interception attacker defender attacked_tile DamageDealt_none
  end.

(** [Battle.attack]; returns the two combatants with the damage dealt. *)
Definition attack (attacker defender : ICombatant)
    : M (ICombatant * ICombatant * DamageDealt) :=
  let* progress := attack_until_xp attacker defender in
  match progress with
  | Returned attacker defender damage => ret (attacker, defender, damage)
  | ReachesXp attacker defender damage is_already_defeated_city =>
    let* awarded :=
      if negb is_already_defeated_city
      then BattleXp.post_battle_add_xp attacker defender
      else ret (attacker, defender) in
    ret (fst awarded, snd awarded, damage)
  end.

(** The local [can_not_withdraw_to] of [do_withdraw_from_melee_ability],
    for the defender that withdraws. *)
Definition can_not_withdraw_to (defender : MapUnit) (w : World)
    (tile : Vector2) : bool :=
  negb (can_move_to defender tile w)
  || match tiles w !! tile with
     | Some t =>
       (is_land_unit defender && negb (is_land t))
       || (is_city_center t
           && negb (option_eqb String.eqb (owner t) (Some (civ defender))))
     | None => true
     end.

(** [Battle.get_map_combatant_of_tile]; a city center without a city
    gives a combatant on [None], which is of no use to a caller: it is
    no combatant here. *)
Definition get_map_combatant_of_tile (position : Vector2) (w : World)
    : option ICombatant :=
  if match tiles w !! position with
     | Some tile => is_city_center tile
     | None => false
     end
  then CityCombatant <$> cities w !! position
  else
    match military_unit_on_tile position w with
    | Some unit => Some (MapUnitCombatant unit)
    | None =>
      match civilian_unit_on_tile position w with
      | Some unit => Some (MapUnitCombatant unit)
      | None => None
      end
    end.

End WithExternals.
End Battle.
(** ** The nuclear strike ([Nuke]) *)

Module Nuke.
Section WithExternals.
Context `{Externals}.


Definition is_war (s : DiplomaticStatus) : bool :=
  match s with War => true | _ => false end.






(** [Nuke._get_nuke_damage]. *)
Definition _get_nuke_damage (nuke_strength : Z) (is_ground_zero : bool) : M Q :=
  if is_ground_zero || (2 <=? nuke_strength) then ret 100%Q
  else if nuke_strength =? 1 then
    let* a := random_randint 0 39 in
    let* b := random_randint 0 39 in
    ret (inject_Z (30 + a + b))
  else
    let* a := random_randint 0 29 in
    ret (inject_Z (20 + a)).

(** [Nuke._apply_pillage_and_fallout]. *)
Definition _apply_pillage_and_fallout (tile : Tile) : Tile :=
  let tile :=
    match get_unpillaged_improvement tile with
    | Some _ =>
      if negb (improvement_is_irremovable tile) then
        if improvement_is_unpillagable tile then remove_improvement tile
        else set_pillaged tile
      else tile
    | None => tile
    end in
  let tile :=
    match get_unpillaged_road tile with
    | NoRoad => tile
    | _ => set_pillaged tile
    end in
  if is_water tile || is_impassible tile
     || existsb (String.eqb "Fallout") (terrain_features tile)
  then tile
  else add_terrain_feature "Fallout" tile.

Definition store_city (c : City) : M unit :=
  modify_world (fun w => set_cities (<[location c := c]> (cities w)) w).

Definition store_tile (position : Vector2) (t : Tile) : M unit :=
  modify_world (fun w => set_tiles (<[position := t]> (tiles w)) w).

Definition destroy_city (c : City) : City :=
  {| city_name := city_name c; city_health := city_health c;
     city_civ := city_civ c; location := location c;
     population := population c; attacked_this_turn := attacked_this_turn c;
     city_destroyed := true |}.

(** [Nuke._do_nuke_explosion_damage_to_city]. *)
Definition _do_nuke_explosion_damage_to_city (targeted_city : City)
    (nuke_strength : Z) (damage_modifier_from_missing_resource : Q) : M unit :=
  let* w := get_world in
  if ((2 <? nuke_strength)
      || ((1 <? nuke_strength) && (population targeted_city <? 5)))
     && can_be_destroyed targeted_city true w
  then store_city (destroy_city targeted_city)
  else
    let city :=
      CityCombatantM.take_damage
        (int_of_float (inject_Z (city_health targeted_city) * (1 # 2)
                       * damage_modifier_from_missing_resource))
        targeted_city in
    (* the dict of the loss factors draws for its entries 1 and 2 *)
    let* a1 := random_randint 0 19 in
    let* b1 := random_randint 0 19 in
    let* a2 := random_randint 0 9 in
    let* b2 := random_randint 0 9 in
    let factor :=
      if nuke_strength =? 0 then 0%Q
      else if nuke_strength =? 1 then (inject_Z (30 + a1 + b1) / 100)%Q
      else if nuke_strength =? 2 then (inject_Z (60 + a2 + b2) / 100)%Q
      else 1%Q in
    let population_loss :=
      int_of_float (inject_Z (population city)
                    * get_aggregate_modifier city PopulationLossFromNukes w
                    * factor) in
    store_city (add_population (- population_loss) city).

(** The loop of [_do_nuke_explosion_for_tile] over the units of the
    tile. *)
Fixpoint nuke_units (attacker : MapUnit) (tile_units : list MapUnit)
    (nuke_strength : Z) (is_ground_zero : bool)
    (building_modifier damage_modifier_from_missing_resource : Q) : M unit :=
  match tile_units with
  | [] => ret tt
  | unit :: rest =>
    let* nuke_damage := _get_nuke_damage nuke_strength is_ground_zero in
    let damage :=
      int_of_float (nuke_damage * building_modifier
                    * damage_modifier_from_missing_resource + 1) in
    let unit :=
      if bu_is_civilian (base_unit unit) then
        if health unit - damage <=? 40 then destroy unit else unit
      else MapUnit_take_damage damage unit in
    let* _ := modify_world (AirInterception.store_unit unit) in
    let* _ :=
      Battle.post_battle_notifications
        (MapUnitCombatant attacker) (MapUnitCombatant unit) (current_tile unit)
        None in
    let* _ := destroy_if_defeated (civ unit) (civ attacker) in
    nuke_units attacker rest nuke_strength is_ground_zero
      building_modifier damage_modifier_from_missing_resource
  end.

(** The loop over the chances of the DestroyableByNukesChance uniques of
    one terrain feature. *)
Fixpoint nuke_terrain_feature (position : Vector2) (feature_name : string)
    (chances : list Q) (is_ground_zero : bool) : M unit :=
  match chances with
  | [] => ret tt
  | percent :: rest =>
    let chance := (percent / 100)%Q in
    let* spared :=
      if negb (Qlt_bool 0 chance && is_ground_zero) then
        let* x := random_random in ret (Qle_bool chance x)
      else ret false in
    let* _ :=
      if spared then ret tt
      else
        let* w := get_world in
        match tiles w !! position with
        | Some tile =>
          store_tile position
            (_apply_pillage_and_fallout (remove_terrain_feature feature_name tile))
        | None => raise
        end in
    nuke_terrain_feature position feature_name rest is_ground_zero
  end.

Fixpoint nuke_terrain_features (position : Vector2)
    (features : list (string * list Q)) (is_ground_zero : bool) : M unit :=
  match features with
  | [] => ret tt
  | (feature_name, chances) :: rest =>
    let* _ := nuke_terrain_feature position feature_name chances is_ground_zero in
    nuke_terrain_features position rest is_ground_zero
  end.

(** [Nuke._do_nuke_explosion_for_tile]. *)
Definition _do_nuke_explosion_for_tile (attacker : MapUnit) (position : Vector2)
    (nuke_strength : Z) (is_ground_zero : bool) : M unit :=
  let* w := get_world in
  let* attacker_is_barbarian := civ_is_barbarian (civ attacker) in
  let damage_modifier_from_missing_resource :=
    if attacker_is_barbarian then 1%Q
    else ((1 # 2) ^ Z.of_nat (lacking_resources attacker w))%Q in
  (* Damage city and reduce its population *)
  let* building_modifier :=
    match cities w !! position with
    | Some city =>
      let* _ :=
        _do_nuke_explosion_damage_to_city city nuke_strength
          damage_modifier_from_missing_resource in
      let* _ :=
        Battle.post_battle_notifications
          (MapUnitCombatant attacker) (CityCombatant city) (location city)
          None in
      let* _ := destroy_if_defeated (city_civ city) (civ attacker) in
      ret (get_aggregate_modifier city GarrisonDamageFromNukes w)
    | None => ret 1%Q
    end in
  (* Damage and/or destroy units on the tile *)
  let* w := get_world in
  let* _ :=
    nuke_units attacker (units_on_tile position w) nuke_strength is_ground_zero
      building_modifier damage_modifier_from_missing_resource in
  (* Pillage improvements, pillage roads, add fallout *)
  let* w := get_world in
  match tiles w !! position with
  | None => raise
  | Some tile =>
    if is_city_center tile then ret tt (* Never touch city centers *)
    else if terrain_destroyable_by_nukes tile
    then nuke_terrain_features position (terrain_feature_nuke_chances tile)
           is_ground_zero
    else
      let* fallout :=
        if is_ground_zero then ret true
        else let* x := random_random in ret (Qlt_bool x (1 # 2)) in
      if fallout then store_tile position (_apply_pillage_and_fallout tile)
      else ret tt
  end.







(** *** Whether a nuke may be used ([Nuke.may_use_nuke]) *)

Section MayUseNuke.

(* tile.is_visible(civ) *)
Variable is_visible : Vector2 -> string -> World -> bool.
(* civ.is_defeated() *)
Variable civ_is_defeated : string -> World -> bool.
(* attacker_civ.get_diplomacy_manager(defender_civ)?.can_attack(); None
   when the attacker has no diplomacy manager for the defender *)
Variable can_attack : string -> string -> World -> option bool.
(* unit.get_nuke_blast_radius() *)
Variable get_nuke_blast_radius : MapUnit -> Z.

(** The local [check_defender_civ]; [can_nuke] is the variable it shares
    with [may_use_nuke], and it returns its new value. *)
Definition check_defender_civ (attacker_civ : string)
    (defender_civ : option string) (can_nuke : bool) : M bool :=
  match defender_civ with
  | None => ret can_nuke
  | Some defender_civ =>
    let* w := get_world in
    (* Allow nuking yourself! *)
    if String.eqb defender_civ attacker_civ || civ_is_defeated defender_civ w
    then ret can_nuke
    else
      let* defender_is_barbarian := civ_is_barbarian defender_civ in
      if defender_is_barbarian then ret can_nuke
      else if option_eqb Bool.eqb (can_attack attacker_civ defender_civ w)
                         (Some true)
      then ret can_nuke
      else ret false
  end.

(** The loop of [may_use_nuke] over the tiles in the blast radius. *)
Fixpoint check_tiles (attacker_civ : string) (hit_tiles : list Vector2)
    (can_nuke : bool) : M bool :=
  match hit_tiles with
  | [] => ret can_nuke
  | tile :: rest =>
    let* w := get_world in
    let* can_nuke :=
      check_defender_civ attacker_civ (tiles w !! tile ≫= owner) can_nuke in
    let* can_nuke :=
      check_defender_civ attacker_civ
        (Combatant.get_civ_info <$> Battle.get_map_combatant_of_tile tile w)
        can_nuke in
    check_tiles attacker_civ rest can_nuke
  end.

(** [Nuke.may_use_nuke]. *)
Definition may_use_nuke (nuke : MapUnit) (target_tile : Vector2) : M bool :=
  if Vector2_eqb (current_tile nuke) target_tile then ret false
  else
    let* w := get_world in
    (* Can only nuke visible Tiles *)
    if negb (is_visible target_tile (civ nuke) w) then ret false
    else
      let blast_radius := get_nuke_blast_radius nuke in
      check_tiles (civ nuke) (get_tiles_in_distance target_tile blast_radius) true.

(** The civilizations that [may_use_nuke] checks on a tile: its owner and
    that of the combatant on it. *)
Definition civs_on_tile (tile : Vector2) (w : World) : list string :=
  match tiles w !! tile ≫= owner with Some c => [c] | None => [] end
  ++ match Battle.get_map_combatant_of_tile tile w with
     | Some combatant => [Combatant.get_civ_info combatant]
     | None => []
     end.

(** Whether [check_defender_civ] lets a civilization pass. *)
Definition may_be_hit (attacker_civ : string) (w : World)
    (defender_civ : string) : bool :=
  String.eqb defender_civ attacker_civ
  || civ_is_defeated defender_civ w
  || match civilizations w !! defender_civ with
     | Some ci => is_barbarian ci
     | None => false
     end
  || option_eqb Bool.eqb (can_attack attacker_civ defender_civ w) (Some true).

End MayUseNuke.

End WithExternals.
End Nuke.
(** ** The air sweep ([AirInterception.air_sweep]) *)

Module AirSweep.
Section WithExternals.
Context `{Externals}.

(* the names of game_info.civilizations, in their order *)
Variable game_civilizations : World -> list string.
(* civ.is_at_war_with(other_civ) *)
Variable is_at_war_with : string -> string -> World -> bool.
(* random.sample(population, len(population)) on the global generator in
   state n: the order it gives to the population, and the number of draws
   it takes *)
Variable sample_order : nat -> list MapUnit -> list MapUnit.
Variable sample_draws : nat -> list MapUnit -> nat.

Definition random_sample (population : list MapUnit) : M (list MapUnit) :=
  fun w => Some (sample_order (random_state w) population,
                 after_draws (sample_draws (random_state w) population) w).

(** The sequence of all potential interceptors from all civilizations at
    war with [attacking_civ], before the air units take priority. *)
Definition all_potential_interceptors (attacking_civ : string)
    (attacked_tile : Vector2) (w : World) : list MapUnit :=
  flat_map
    (fun intercepting_civ =>
       if is_at_war_with attacking_civ intercepting_civ w
       then List.filter (fun unit => String.eqb (civ unit) intercepting_civ
                                     && can_intercept unit attacked_tile)
                        (units w)
       else [])
    (game_civilizations w).

(** [potential_interceptors] after "First priority: only air units". *)
Definition potential_interceptors (attacking_civ : string)
    (attacked_tile : Vector2) (w : World) : list MapUnit :=
  let potential_interceptors :=
    all_potential_interceptors attacking_civ attacked_tile w in
  if existsb (fun unit => bu_is_air_unit (base_unit unit)) potential_interceptors
  then List.filter (fun unit => bu_is_air_unit (base_unit unit))
                   potential_interceptors
  else potential_interceptors.

(** The interceptor that the loop over the sorted sample engages: its
    body returns in the first iteration. *)
Definition engaged_interceptor (sampled : list MapUnit) : option MapUnit :=
  head (AirInterception.sort_by_chance sampled).

(** The attacker after the first statements of [air_sweep]: the sweep is
    counted as an attack and the movement is used up. *)
Definition count_sweep (attacker : MapUnit) : MapUnit :=
  (* Air Sweep counts as an attack, even if nothing else happens *)
  let attacker :=
    set_attacks_this_turn (attacks_this_turn attacker + 1) attacker in
  (* Use up movement *)
  if has_unique TCanMoveAfterAttacking attacker
     || (attacks_this_turn attacker <? max_attacks_per_turn attacker)
  then
    if negb (moves_like_air_units (base_unit attacker))
    then MapUnit_use_movement_points 1 attacker
    else attacker
  else set_current_movement 0 attacker.

(** [AirInterception.air_sweep]; returns the attacker. *)
Definition air_sweep (attacker : MapUnit) (attacked_tile : Vector2) : M MapUnit :=
  let attacker := count_sweep attacker in
  let* w := get_world in
  (* Pick highest chance interceptor *)
  let* sampled :=
    random_sample (potential_interceptors (civ attacker) attacked_tile w) in
  match engaged_interceptor sampled with
  | Some interceptor =>
    let interceptor :=
      set_attacks_this_turn (attacks_this_turn interceptor + 1) interceptor in
    let* _ := modify_world (AirInterception.store_unit interceptor) in
    if negb (bu_is_air_unit (base_unit interceptor))
    then ret (set_action None attacker)
    else
      (* Damage if Air v Air should work similar to Melee *)
      let* damage_dealt :=
        AirInterception.take_damage_with_interceptor
          (MapUnitCombatant attacker) interceptor in
      (* the call has raised: the experience of the two and the
         notifications are not reached *)
      ret (set_action None attacker)
  | None =>
    (* No interceptions available *)
    ret (set_action None attacker)
  end.

End WithExternals.
End AirSweep.
(** ** A small game for the concrete instances

    One instance of [Externals] with plain rules (damage is subtracted
    from health, no river, road, fortification or great general, triggers
    do nothing), two
    civilizations and the barbarians, and a few units and a city. *)

Module Fixtures.

Definition tile_with_features (l : list string) (t : Tile) : Tile :=
  {| owner := owner t; improvement := improvement t;
     improvement_is_pillaged := improvement_is_pillaged t;
     road_status := road_status t; road_is_pillaged := road_is_pillaged t;
     terrain_features := l; is_city_center := is_city_center t;
     is_land := is_land t; is_water := is_water t;
     is_impassible := is_impassible t |}.

Definition tile_pillaged (t : Tile) : Tile :=
  {| owner := owner t; improvement := improvement t;
     improvement_is_pillaged := true;
     road_status := road_status t; road_is_pillaged := road_is_pillaged t;
     terrain_features := terrain_features t;
     is_city_center := is_city_center t;
     is_land := is_land t; is_water := is_water t;
     is_impassible := is_impassible t |}.

Definition tile_without_improvement (t : Tile) : Tile :=
  {| owner := owner t; improvement := None;
     improvement_is_pillaged := false;
     road_status := road_status t; road_is_pillaged := road_is_pillaged t;
     terrain_features := terrain_features t;
     is_city_center := is_city_center t;
     is_land := is_land t; is_water := is_water t;
     is_impassible := is_impassible t |}.

Definition four_neighbors (p : Vector2) : list Vector2 :=
  [(fst p + 1, snd p); (fst p - 1, snd p); (fst p, snd p + 1); (fst p, snd p - 1)].

Definition externals : Externals := {|
  hash_code := fun p => 31 * fst p + snd p;
  seeded_random := fun seed => Qmake (seed mod 100) 100;
  global_random := fun n => if Nat.even n then (1 # 4)%Q else (3 # 4)%Q;
  MapUnit_take_damage := fun d u => set_unit_health (health u - d) u;
  MapUnit_matches_filter :=
    fun u f _ => String.eqb f "All" || String.eqb f (name u);
  MapUnit_use_movement_points :=
    fun q u => set_current_movement (Qmax 0 (current_movement u - q)) u;
  can_intercept := fun u _ => String.eqb (name u) "Anti-Aircraft Gun";
  intercept_chance := fun u => Z.min 100 (health u);
  intercept_damage_percent_bonus := fun _ => 0;
  received_intercept_damage_factor := fun _ => 1%Q;
  can_move_to := fun _ _ _ => true;
  is_land_unit := fun _ => true;
  neighbors := four_neighbors;
  get_tiles_in_distance := fun p _ => p :: four_neighbors p;
  civ_is_at_war_with :=
    fun a b w => match diplomacy w !! (a, b) with Some War => true | _ => false end;
  tile_matches_filter := fun _ f _ => String.eqb f "All";
  aerial_distance_to :=
    fun p q => Z.max (Z.abs (fst p - fst q)) (Z.abs (snd p - snd q));
  capital_center_tile := fun _ _ => None;
  city_get_matching_uniques := fun _ _ _ => [];
  barbarian_bonus := fun _ => 0%Q;
  to_percent := fun q => (1 + q / 100)%Q;
  is_preparing_air_sweep := fun _ => false;
  get_fortification_turns := fun _ => 0;
  is_connected_by_river := fun _ _ _ => false;
  has_connection := fun _ _ _ => false;
  roads_connect_across_rivers := fun _ _ => false;
  get_defensive_bonus := fun _ _ _ => 0%Q;
  general_has_bonus_unique := fun _ => false;
  general_bonus_uniques := fun _ _ _ _ => [];
  doubles_general_bonus := fun _ => false;
  general_is_great_war_person := fun _ => false;
  get_city_strength := fun _ _ => 10;
  embark_defense := fun _ => 5;
  DAMAGE_TO_CIVILIAN_UNIT := 40;
  DAMAGE_REDUCTION_WOUNDED_UNIT_RATIO_PERCENTAGE := 300%Q;
  MISSING_RESOURCES_MALUS := -25;
  LANDING_MALUS := -50;
  BOARDING_MALUS := -50;
  ATTACKING_ACROSS_RIVER_MALUS := -20;
  FORTIFICATION_BONUS := 20;
  BASE_FLANKING_BONUS := 10%Q;
  max_xp_from_barbarians := 30;
  barbarian_encampment := "Barbarian encampment";
  place_unit_near_tile := fun _ _ _ _ => None;
  capture_civilian_unit := fun _ u => ret u;
  earn_great_general_points := fun _ _ _ ci => ci;
  knows := fun _ _ _ => true;
  lacking_resources := fun _ _ => 0%nat;
  get_aggregate_modifier := fun _ _ _ => 1%Q;
  can_be_destroyed := fun _ _ _ => false;
  add_population := fun n c =>
    {| city_name := city_name c; city_health := city_health c;
       city_civ := city_civ c; location := location c;
       population := Z.max 1 (population c + n);
       attacked_this_turn := attacked_this_turn c;
       city_destroyed := city_destroyed c |};
  terrain_destroyable_by_nukes := fun _ => false;
  terrain_feature_nuke_chances := fun _ => [];
  remove_terrain_feature :=
    fun n t => tile_with_features
                 (List.filter (fun f => negb (String.eqb f n)) (terrain_features t)) t;
  add_terrain_feature := fun n t => tile_with_features (terrain_features t ++ [n]) t;
  get_unpillaged_improvement :=
    fun t => if improvement_is_pillaged t then None else improvement t;
  improvement_is_irremovable := fun _ => false;
  improvement_is_unpillagable := fun _ => false;
  remove_improvement := tile_without_improvement;
  set_pillaged := tile_pillaged;
  get_unpillaged_road := fun t => if road_is_pillaged t then NoRoad else road_status t;
  trigger_upon_losing_health := fun c _ => ret c;
  plunder_from_damage := fun _ _ _ => ret tt;
  camp_attacked := fun _ => ret tt;
  conquer_city := fun c u => ret (c, u);
  try_earn_from_killing := fun _ _ => ret tt;
  try_heal_after_killing := fun c => ret c;
  trigger_victory_uniques := fun c _ _ => ret c;
  trigger_defeat_uniques := fun c _ _ => ret c;
  trigger_damage_uniques_for_unit := fun a b _ _ => ret (a, b);
  do_destroy_improvements_ability := fun _ _ _ => ret tt;
  post_battle_move_to_attacked_tile := fun a _ _ => ret a;
  destroy_if_defeated := fun _ _ => ret tt;
  set_used_nuclear_weapons_modifier := fun _ => ret tt
|}.

Definition melee_base : BaseUnit :=
  {| bu_is_ranged := false; bu_is_air_unit := false; bu_is_civilian := false;
     moves_like_air_units := false; strength := 8; ranged_strength := 0 |}.

Definition ranged_base : BaseUnit :=
  {| bu_is_ranged := true; bu_is_air_unit := false; bu_is_civilian := false;
     moves_like_air_units := false; strength := 5; ranged_strength := 7 |}.

(** A nuclear weapon has no strength of its own. *)
Definition nuclear_base : BaseUnit :=
  {| bu_is_ranged := true; bu_is_air_unit := true; bu_is_civilian := false;
     moves_like_air_units := true; strength := 0; ranged_strength := 0 |}.

Definition make_unit (i : Z) (n c : string) (b : BaseUnit) (h : Z)
    (us : list Unique) (t : Vector2) : MapUnit :=
  {| id := i; name := n; health := h; civ := c; base_unit := b; uniques := us;
     current_tile := t;
     promotions := {| xp := 0; total_xp_produced := 0 |};
     attacks_this_turn := 0; max_attacks_per_turn := 1;
     attacks_since_turn_start := []; current_movement := 2%Q;
     is_embarked := false; cannot_move := false; is_escorting := false;
     action := None; destroyed := false |}.

Definition make_civ (g : Z) (barbarian : bool) : Civilization :=
  {| gold := g; is_barbarian := barbarian; is_major_civ := negb barbarian;
     civ_uniques := []; civ_attacks_since_turn_start := [] |}.

Definition land : Tile :=
  {| owner := None; improvement := None; improvement_is_pillaged := false;
     road_status := NoRoad; road_is_pillaged := false; terrain_features := [];
     is_city_center := false; is_land := true; is_water := false;
     is_impassible := false |}.

Definition rome_tile : Tile :=
  {| owner := Some "Rome"; improvement := Some "Farm";
     improvement_is_pillaged := false;
     road_status := NoRoad; road_is_pillaged := false; terrain_features := [];
     is_city_center := false; is_land := true; is_water := false;
     is_impassible := false |}.

Definition anti_aircraft_gun : MapUnit :=
  make_unit 7 "Anti-Aircraft Gun" "Rome" ranged_base 100 [] (5, 5).

(** The gun after a fight: at 20 health it hits one time in five. *)
Definition damaged_gun : MapUnit :=
  make_unit 7 "Anti-Aircraft Gun" "Rome" ranged_base 20 [] (5, 5).

Definition legion : MapUnit :=
  make_unit 8 "Legion" "Rome" melee_base 100 [] (6, 5).

Definition world : World :=
  {| turns := 12;
     civilizations :=
       <["Rome" := make_civ 150 false]>
         (<["Greece" := make_civ 70 false]>
            (<["Barbarians" := make_civ 0 true]> ∅));
     diplomacy :=
       <[("Greece", "Rome") := Peace]> (<[("Rome", "Greece") := Peace]> ∅);
     tiles := <[(5, 5) := rome_tile]> (<[(6, 5) := rome_tile]>
              (<[(4, 5) := land]> (<[(5, 6) := land]> (<[(5, 4) := land]>
              (<[(0, 0) := land]> (<[(1, 0) := land]> (<[(2, 0) := land]>
              (<[(0, 1) := land]> (<[(1, 1) := land]> ∅)))))))));
     cities := ∅;
     units := [anti_aircraft_gun; legion];
     placed_units := [];
     random_state := 0 |}.

Definition world_with_damaged_gun : World :=
  set_units [damaged_gun; legion] world.

Definition rome : City :=
  {| city_name := "Rome"; city_health := 1; city_civ := "Rome";
     location := (3, 3); population := 6; attacked_this_turn := false;
     city_destroyed := false |}.

Definition warrior : MapUnit :=
  make_unit 1 "Warrior" "Greece" melee_base 100 [] (0, 0).

Definition archer : MapUnit :=
  make_unit 2 "Archer" "Greece" ranged_base 100
            [GainFromDefeatingUnit "All" 10] (0, 1).

Definition swordsman : MapUnit :=
  make_unit 3 "Swordsman" "Greece" melee_base 100
            [GainFromDefeatingUnit "All" 10] (0, 1).

Definition brute : MapUnit :=
  make_unit 4 "Brute" "Barbarians" melee_base 100 [] (3, 4).

Definition restrained_brute : MapUnit :=
  make_unit 5 "Brute" "Barbarians" melee_base 100 [CannotCaptureCities] (3, 4).

Definition scout : MapUnit :=
  make_unit 6 "Scout" "Rome" melee_base 100 [WithdrawsBeforeMeleeCombat] (1, 0).

Definition spearman : MapUnit :=
  make_unit 11 "Spearman" "Rome" melee_base 100 [] (1, 1).

Definition fallen_legion : MapUnit :=
  make_unit 9 "Legion" "Rome" melee_base 0 [] (1, 1).

Definition atomic_bomb : MapUnit :=
  make_unit 10 "Atomic Bomb" "Greece" nuclear_base 100
            [NuclearWeapon 1; BlastRadius 1; SelfDestructs] (9, 9).

(** An atomic bomb of Rome. *)
Definition roman_bomb : MapUnit :=
  make_unit 16 "Atomic Bomb" "Rome" nuclear_base 100
            [NuclearWeapon 1; BlastRadius 1; SelfDestructs] (9, 9).


(** [world] after the civilization of Greece has gained ten gold. *)
Definition world_after_gain : World :=
  set_civilizations
    (<["Greece" := make_civ 80 false]> (civilizations world)) world.

Definition warrior_against_scout : Battle.Exchange :=
  {| Battle.potential_damage_to_defender := 2;
     Battle.potential_damage_to_attacker := 1;
     Battle.ex_attacker := MapUnitCombatant warrior;
     Battle.ex_defender := MapUnitCombatant scout |}.

(** A warrior that has produced thirty experience, the most that
    barbarians give. *)
Definition veteran : MapUnit :=
  {| id := 12; name := "Warrior"; health := 100; civ := "Greece";
     base_unit := melee_base; uniques := []; current_tile := (3, 5);
     promotions := {| xp := 30; total_xp_produced := 30 |};
     attacks_this_turn := 0; max_attacks_per_turn := 1;
     attacks_since_turn_start := []; current_movement := 2%Q;
     is_embarked := false; cannot_move := false; is_escorting := false;
     action := None; destroyed := false |}.

(** The tile of the city of Rome, and the game with Rome on the map. *)
Definition rome_center : Tile :=
  {| owner := Some "Rome"; improvement := None;
     improvement_is_pillaged := false; road_status := Road;
     road_is_pillaged := false; terrain_features := [];
     is_city_center := true; is_land := true; is_water := false;
     is_impassible := false |}.

Definition world_with_rome : World :=
  set_tiles (<[(3, 3) := rome_center]> (tiles world))
            (set_cities (<[(3, 3) := rome]> (cities world)) world).

End Fixtures.
(** * Theorems *)

Section CityCombatantFacts.
Import CityCombatantM.

Lemma take_damage_health (d : Z) (c : City) :
  city_health (take_damage d c) = Z.max 1 (city_health c - d).
Proof.
  unfold take_damage; simpl.
  destruct (city_health c - d <? 1) eqn:E; simpl.
  - apply Z.ltb_lt in E. lia.
  - apply Z.ltb_ge in E. lia.
Qed.

(** C4. Each call of [CityCombatant.take_damage] leaves
    health' = max(1, health - damage), and after every call of any sequence
    of calls, with arbitrary integer amounts, the health of the city is at
    least 1. *)
Theorem city_health_never_below_one (c : City) (damages : list Z) :
  (forall d, city_health (take_damage d c) = Z.max 1 (city_health c - d)) /\
  Forall (fun c' => 1 <= city_health c') (take_damages damages c).
Proof.
  split; [intros d; apply take_damage_health |].
  revert c. induction damages as [| d rest IH]; intros c; simpl.
  - constructor.
  - constructor; [rewrite take_damage_health; lia | apply IH].
Qed.

End CityCombatantFacts.
(** ** Rounding to the nearest float *)

Section RoundingFacts.
Import Float.
Local Open Scope Q_scope.

Lemma Qle_bool_false (a b : Q) : Qle_bool a b = false <-> b < a.
Proof.
  split; intros H.
  - apply Qnot_le_lt. intros C. apply Qle_bool_iff in C. congruence.
  - destruct (Qle_bool a b) eqn:E; [| reflexivity].
    apply Qle_bool_iff in E. lra.
Qed.

Lemma pow2_pos (e : Z) : 0 < pow2 e.
Proof. apply Qpower_0_lt. reflexivity. Qed.

Lemma pow2_add (a b : Z) : pow2 (a + b) == pow2 a * pow2 b.
Proof. apply Qpower_plus. discriminate. Qed.

Lemma pow2_le (a b : Z) : (a <= b)%Z -> pow2 a <= pow2 b.
Proof. intros. apply Qpower_le_compat_l; [assumption | discriminate]. Qed.

Lemma pow2_lt (a b : Z) : (a < b)%Z -> pow2 a < pow2 b.
Proof. intros. apply Qpower_lt_compat_l; [assumption | reflexivity]. Qed.

Lemma pow2_lt_inv (a b : Z) : pow2 a < pow2 b -> (a < b)%Z.
Proof. intros. apply (Qpower_lt_compat_l_inv 2); [assumption | reflexivity]. Qed.

Lemma pow2_Z (a : Z) : (0 <= a)%Z -> pow2 a == inject_Z (2 ^ a).
Proof. intros. unfold pow2. now rewrite Zpower_Qpower. Qed.

Lemma pow2_sub (a b : Z) : pow2 (a - b) == pow2 a / pow2 b.
Proof.
  unfold Z.sub. rewrite pow2_add. unfold pow2 at 2. rewrite Qpower_opp.
  reflexivity.
Qed.

Lemma Qabs_frac (q : Q) : Qabs q == inject_Z (Z.abs (Qnum q)) / inject_Z (Zpos (Qden q)).
Proof.
  destruct q as [n d]. unfold Qabs. cbn [Qnum Qden].
  rewrite (Qmake_Qdiv (Z.abs n) d). reflexivity.
Qed.

Lemma mag_bounds (q : Q) :
  ~ q == 0 -> pow2 (mag q - 1) <= Qabs q /\ Qabs q < pow2 (mag q).
Proof.
  intros Hq.
  assert (Hn : (0 < Z.abs (Qnum q))%Z).
  { destruct q as [n d]. unfold Qeq in Hq. cbn in *. lia. }
  pose proof (Z.log2_spec _ Hn) as [Ha1 Ha2].
  pose proof (Z.log2_spec (Zpos (Qden q)) ltac:(lia)) as [Hb1 Hb2].
  pose proof (Z.log2_nonneg (Z.abs (Qnum q))) as Ha0.
  pose proof (Z.log2_nonneg (Zpos (Qden q))) as Hb0.
  set (a := Z.log2 (Z.abs (Qnum q))) in *.
  set (b := Z.log2 (Zpos (Qden q))) in *.
  assert (Hd : 0 < inject_Z (Zpos (Qden q))) by (unfold Qlt; simpl; lia).
  assert (Hup : Qabs q < pow2 (a - b + 1)).
  { replace (a - b + 1)%Z with (Z.succ a - b)%Z by lia.
    rewrite pow2_sub, Qabs_frac, !pow2_Z by lia.
    apply Qlt_shift_div_l; [change 0 with (inject_Z 0); rewrite <- Zlt_Qlt; lia |].
    unfold Qdiv. rewrite <- Qmult_assoc, (Qmult_comm (/ _)), Qmult_assoc.
    apply Qlt_shift_div_r; [assumption |].
    rewrite <- !inject_Z_mult, <- Zlt_Qlt. nia. }
  assert (Hlo : pow2 (a - b - 1) < Qabs q).
  { replace (a - b - 1)%Z with (a - Z.succ b)%Z by lia.
    rewrite pow2_sub, Qabs_frac, !pow2_Z by lia.
    apply Qlt_shift_div_r; [change 0 with (inject_Z 0); rewrite <- Zlt_Qlt; lia |].
    unfold Qdiv. rewrite <- Qmult_assoc, (Qmult_comm (/ _)), Qmult_assoc.
    apply Qlt_shift_div_l; [assumption |].
    rewrite <- !inject_Z_mult, <- Zlt_Qlt. nia. }
  unfold mag. fold a b.
  destruct (Qle_bool (pow2 (a - b)) (Qabs q)) eqn:E.
  - apply Qle_bool_iff in E. split; [| exact Hup].
    now replace (a - b + 1 - 1)%Z with (a - b)%Z by lia.
  - split; [apply Qlt_le_weak, Hlo |].
    apply Qnot_le_lt. intros Hle. apply Qle_bool_iff in Hle. congruence.
Qed.

Lemma mag_unique (q : Q) (e : Z) :
  pow2 (e - 1) <= Qabs q -> Qabs q < pow2 e -> mag q = e.
Proof.
  intros H1 H2.
  assert (Hq : ~ q == 0).
  { intros E. rewrite E in H1. pose proof (pow2_pos (e - 1)).
    change (Qabs 0) with 0 in H1. lra. }
  destruct (mag_bounds q Hq) as [H3 H4].
  assert (mag q - 1 < e)%Z by (apply pow2_lt_inv; lra).
  assert (e - 1 < mag q)%Z by (apply pow2_lt_inv; lra).
  lia.
Qed.

Lemma mag_le (a b : Q) : 0 < a -> a <= b -> (mag a <= mag b)%Z.
Proof.
  intros Ha Hab.
  destruct (mag_bounds a) as [H1 _]; [lra |].
  destruct (mag_bounds b) as [_ H2]; [lra |].
  rewrite Qabs_pos in H1, H2 by lra.
  assert (mag a - 1 < mag b)%Z by (apply pow2_lt_inv; lra).
  lia.
Qed.

Lemma nearest_even_near (x : Q) :
  inject_Z (nearest_even x) - (1 # 2) <= x /\ x <= inject_Z (nearest_even x) + (1 # 2).
Proof.
  unfold nearest_even.
  pose proof (Qfloor_le x) as H1. pose proof (Qlt_floor x) as H2.
  rewrite inject_Z_plus in H2. change (inject_Z 1) with 1 in H2.
  destruct (Qcompare_spec (x - inject_Z (Qfloor x)) (1 # 2)) as [E | E | E].
  - destruct (Z.even (Qfloor x)); [| rewrite inject_Z_plus;
                                      change (inject_Z 1) with 1]; lra.
  - lra.
  - rewrite inject_Z_plus. change (inject_Z 1) with 1. lra.
Qed.

Lemma nearest_even_floor (x : Q) :
  (Qfloor x <= nearest_even x <= Qfloor x + 1)%Z.
Proof.
  unfold nearest_even.
  destruct (Qcompare _ _); [destruct (Z.even _) | |]; lia.
Qed.

Lemma nearest_even_le (x y : Q) : x <= y -> (nearest_even x <= nearest_even y)%Z.
Proof.
  intros Hxy.
  pose proof (Qfloor_resp_le x y Hxy) as Hf.
  destruct (Z.eq_dec (Qfloor x) (Qfloor y)) as [E | NE].
  - unfold nearest_even. rewrite E.
    destruct (Qcompare_spec (x - inject_Z (Qfloor y)) (1 # 2)) as [Ex | Ex | Ex];
      destruct (Qcompare_spec (y - inject_Z (Qfloor y)) (1 # 2)) as [Ey | Ey | Ey];
      try destruct (Z.even (Qfloor y)); try lia; lra.
  - pose proof (nearest_even_floor x). pose proof (nearest_even_floor y). lia.
Qed.

Lemma nearest_even_Z (n : Z) : nearest_even (inject_Z n) = n.
Proof.
  unfold nearest_even. rewrite Qfloor_Z.
  destruct (Qcompare_spec (inject_Z n - inject_Z n) (1 # 2)) as [E | E | E];
    [lra | reflexivity | lra].
Qed.

Lemma nearest_even_comp (x y : Q) : x == y -> nearest_even x = nearest_even y.
Proof.
  intros E. apply Z.le_antisymm; apply nearest_even_le; lra.
Qed.

Lemma Qdiv_pow2_le (a b : Q) (e : Z) : a <= b -> a / pow2 e <= b / pow2 e.
Proof.
  intros H. pose proof (pow2_pos e) as Hp.
  apply Qle_shift_div_l; [assumption |].
  unfold Qdiv. rewrite <- Qmult_assoc, (Qmult_comm (/ _)), Qmult_inv_r by lra. lra.
Qed.

Lemma round_value (q : Q) :
  ~ q == 0 ->
  round q == inject_Z (nearest_even (q / pow2 (cexp q))) * pow2 (cexp q).
Proof.
  intros Hq. unfold round.
  destruct (Qeq_bool q 0) eqn:E; [apply Qeq_bool_iff in E; contradiction |].
  apply Qred_correct.
Qed.

Lemma round_zero (q : Q) : q == 0 -> round q = 0.
Proof.
  intros Hq. unfold round. apply Qeq_bool_iff in Hq. now rewrite Hq.
Qed.

Lemma cexp_le (a b : Q) : 0 < a -> a <= b -> (cexp a <= cexp b)%Z.
Proof. intros Ha Hab. unfold cexp. pose proof (mag_le a b Ha Hab). lia. Qed.

Lemma round_le_pos (a b : Q) : 0 < a -> a <= b -> round a <= round b.
Proof.
  intros Ha Hab.
  rewrite !round_value by lra.
  pose proof (cexp_le a b Ha Hab) as He.
  pose proof (pow2_pos (cexp a)) as Hpa. pose proof (pow2_pos (cexp b)) as Hpb.
  destruct (Z.eq_dec (cexp a) (cexp b)) as [E | NE].
  - rewrite E. apply Qmult_le_compat_r; [| lra].
    rewrite <- Zle_Qle. apply nearest_even_le, Qdiv_pow2_le, Hab.
  - assert (Hlt : (cexp a < cexp b)%Z) by lia.
    apply Qle_trans with (pow2 (cexp b + 52)).
    + (* the float of a is at most 2^(cexp a + 53) *)
      apply Qle_trans with (pow2 (cexp a + 53)); [| apply pow2_le; lia].
      rewrite Z.add_comm, pow2_add.
      apply Qmult_le_compat_r; [| lra].
      rewrite (pow2_Z 53) by lia. rewrite <- Zle_Qle.
      rewrite <- (nearest_even_Z (2 ^ 53)). apply nearest_even_le.
      rewrite <- pow2_Z by lia.
      apply Qle_shift_div_r; [assumption |].
      rewrite <- pow2_add.
      destruct (mag_bounds a) as [_ Hm]; [lra |].
      rewrite Qabs_pos in Hm by lra.
      apply Qlt_le_weak, (Qlt_le_trans _ _ _ Hm), pow2_le.
      unfold cexp, prec. lia.
    + (* the float of b is at least 2^(cexp b + 52) *)
      rewrite Z.add_comm, pow2_add.
      apply Qmult_le_compat_r; [| lra].
      rewrite (pow2_Z 52) by lia. rewrite <- Zle_Qle.
      rewrite <- (nearest_even_Z (2 ^ 52)). apply nearest_even_le.
      rewrite <- pow2_Z by lia.
      apply Qle_shift_div_l; [assumption |].
      rewrite <- pow2_add.
      destruct (mag_bounds b) as [Hm _]; [lra |].
      rewrite Qabs_pos in Hm by lra.
      refine (Qle_trans _ _ _ (pow2_le _ _ _) Hm).
      unfold cexp, prec, emin in *. lia.
Qed.

Lemma round_nonneg (q : Q) : 0 <= q -> 0 <= round q.
Proof.
  intros Hq. destruct (Qeq_dec q 0) as [E | NE].
  - rewrite (round_zero q E). lra.
  - rewrite round_value by assumption.
    pose proof (pow2_pos (cexp q)) as Hp.
    apply Qmult_le_0_compat; [| lra].
    change 0 with (inject_Z 0). rewrite <- Zle_Qle.
    rewrite <- (nearest_even_Z 0). apply nearest_even_le.
    change (inject_Z 0) with 0.
    apply Qle_shift_div_l; [assumption | lra].
Qed.

Lemma round_le (a b : Q) : 0 <= a -> a <= b -> round a <= round b.
Proof.
  intros Ha Hab. destruct (Qeq_dec a 0) as [E | NE].
  - rewrite (round_zero a E). apply round_nonneg. lra.
  - apply round_le_pos; [| assumption]. destruct (Qlt_le_dec 0 a); [assumption |].
    exfalso. apply NE. lra.
Qed.

Lemma mag_comp (a b : Q) : ~ a == 0 -> a == b -> mag a = mag b.
Proof.
  intros Ha E. destruct (mag_bounds a Ha) as [H1 H2].
  symmetry. apply mag_unique; rewrite <- E; assumption.
Qed.

Lemma round_comp (a b : Q) : a == b -> round a = round b.
Proof.
  intros E. unfold round.
  destruct (Qeq_bool a 0) eqn:Ea, (Qeq_bool b 0) eqn:Eb.
  - reflexivity.
  - apply Qeq_bool_iff in Ea. rewrite E in Ea. apply Qeq_bool_iff in Ea. congruence.
  - apply Qeq_bool_iff in Eb. rewrite <- E in Eb. apply Qeq_bool_iff in Eb. congruence.
  - assert (Ha : ~ a == 0) by (intros Ha; apply Qeq_bool_iff in Ha; congruence).
    unfold cexp. rewrite (mag_comp a b Ha E).
    apply Qred_complete.
    rewrite (nearest_even_comp (a / pow2 (Z.max (mag b - prec) emin))
                               (b / pow2 (Z.max (mag b - prec) emin)))
      by (now rewrite E).
    reflexivity.
Qed.





Lemma of_Q_finite (q x : Q) : of_Q q = Finite x -> x = round q.
Proof.
  unfold of_Q. destruct (Qle_bool _ _); [discriminate |]. congruence.
Qed.

(** The integers below 2^53 are floats. *)
Lemma round_integer (n : Z) :
  (0 <= n < 2 ^ 53)%Z -> round (inject_Z n) == inject_Z n.
Proof.
  intros [H0 H1].
  destruct (Z.eq_dec n 0%Z) as [-> | Hn]; [reflexivity |].
  assert (Hq : ~ inject_Z n == 0).
  { intros E. apply Hn. unfold Qeq in E. simpl in E. lia. }
  assert (Hpos : 0 < inject_Z n).
  { change 0 with (inject_Z 0). rewrite <- Zlt_Qlt. lia. }
  rewrite (round_value _ Hq).
  set (c := cexp (inject_Z n)).
  assert (Hc : (c <= 0)%Z).
  { unfold c, cexp, prec, emin.
    destruct (mag_bounds _ Hq) as [Hlo _].
    rewrite Qabs_pos in Hlo by lra.
    assert (Hlt : pow2 (mag (inject_Z n) - 1) < pow2 53).
    { apply Qle_lt_trans with (inject_Z n); [exact Hlo |].
      rewrite (pow2_Z 53) by lia. rewrite <- Zlt_Qlt. exact H1. }
    apply pow2_lt_inv in Hlt. lia. }
  set (d := (- c)%Z).
  assert (Ec : pow2 c == 1 / pow2 d).
  { replace c with (0 - d)%Z by (unfold d; lia). rewrite pow2_sub. reflexivity. }
  pose proof (pow2_pos d) as Hd.
  assert (Ed : pow2 d == inject_Z (2 ^ d)) by (apply pow2_Z; unfold d; lia).
  assert (E : inject_Z n / pow2 c == inject_Z (n * 2 ^ d)).
  { rewrite inject_Z_mult, <- Ed, Ec. field. lra. }
  rewrite (nearest_even_comp _ _ E), nearest_even_Z.
  rewrite inject_Z_mult, <- Ed, Ec. field. lra.
Qed.

End RoundingFacts.
(** ** The damage modifier *)

Section DamageModifierFacts.
Import Float BattleDamage.
Local Open Scope Q_scope.













End DamageModifierFacts.
Section DamageCalculationFacts.
Context `{Externals}.
Import BattleDamage.

(** C3. For an attacker that is ranged and not an air unit,
    [calculate_damage_to_attacker] returns 0 for every defender, tile and
    randomness factor, given or defaulted, and leaves the game state as it
    is. *)
Theorem ranged_attacker_takes_no_damage
    (attacker defender : ICombatant) (tile_to_attack_from : option Vector2)
    (randomness_factor : option Q) (w : World) :
  Combatant.is_ranged attacker = true ->
  Combatant.is_air_unit attacker = false ->
  calculate_damage_to_attacker attacker defender tile_to_attack_from
    randomness_factor w = Some (0, w).
Proof.
  intros Hranged Hair.
  unfold calculate_damage_to_attacker, bind.
  destruct randomness_factor as [f |];
    cbn [default_randomness_factor ret bind get_world];
    rewrite Hranged, Hair; reflexivity.
Qed.

Lemma reads_ret {A : Type} (a : A) : reads (ret a).
Proof. intros w a' w' E. unfold ret in E. congruence. Qed.

Lemma reads_raise {A : Type} : reads (@raise A).
Proof. intros w a w' E. discriminate. Qed.

Lemma reads_lift_option {A : Type} (o : option A) : reads (lift_option o).
Proof. destruct o; [apply reads_ret | apply reads_raise]. Qed.

Lemma reads_get_world : reads get_world.
Proof. intros w a w' E. unfold get_world in E. congruence. Qed.

Lemma reads_bind {A B : Type} (c : M A) (k : A -> M B) :
  reads c -> (forall a, reads (k a)) -> reads (bind c k).
Proof.
  intros Hc Hk w b w' E. unfold bind in E.
  destruct (c w) as [[a w1] |] eqn:Ec; [| discriminate].
  apply Hc in Ec. subst w1. exact (Hk a w b w' E).
Qed.

Lemma reads_civ_is_barbarian (c : string) : reads (civ_is_barbarian c).
Proof.
  intros w a w' E. unfold civ_is_barbarian in E.
  destruct (civilizations w !! c); congruence.
Qed.

Lemma reads_tile_at (position : Vector2) : reads (tile_at position).
Proof.
  intros w a w' E. unfold tile_at in E.
  destruct (tiles w !! position); congruence.
Qed.

Lemma reads_as_result {A : Type} (c : M A) (w : World) :
  reads c -> c w = option_map (fun a => (a, w)) (option_map fst (c w)).
Proof.
  intros Hc. destruct (c w) as [[a w'] |] eqn:E; [| reflexivity].
  apply Hc in E. subst w'. reflexivity.
Qed.

Ltac reader :=
  repeat first
    [ apply reads_ret | apply reads_raise | apply reads_lift_option
    | apply reads_get_world | apply reads_civ_is_barbarian | apply reads_tile_at
    | apply reads_bind; [| intros ?]
    | progress cbv zeta
    | match goal with
      | |- reads (if ?b then _ else _) => destruct b
      | |- reads (match ?x with _ => _ end) => destruct x
      end ].

Lemma reads_get_general_modifiers (combatant enemy : ICombatant)
    (combat_action : CombatAction) (tile_to_attack_from : Vector2) :
  reads (get_general_modifiers combatant enemy combat_action tile_to_attack_from).
Proof.
  unfold get_general_modifiers, add_unit_unique_modifiers,
    add_resource_lacking_malus.
  reader.
Qed.

Lemma reads_get_attack_modifiers (attacker defender : ICombatant)
    (tile_to_attack_from : Vector2) :
  reads (get_attack_modifiers attacker defender tile_to_attack_from).
Proof.
  unfold get_attack_modifiers.
  apply reads_bind; [apply reads_get_general_modifiers | intros modifiers].
  unfold add_terrain_attack_modifiers. reader.
Qed.

Lemma reads_get_defence_modifiers (attacker defender : ICombatant)
    (tile_to_attack_from : Vector2) :
  reads (get_defence_modifiers attacker defender tile_to_attack_from).
Proof.
  unfold get_defence_modifiers.
  apply reads_bind; [apply reads_get_general_modifiers | intros modifiers].
  reader.
Qed.

Lemma reads_formula_damage (attacker defender : ICombatant)
    (tile_to_attack_from : Vector2) (damage_to_attacker : bool)
    (randomness_factor : Q) (dealer : ICombatant) :
  reads (formula_damage attacker defender tile_to_attack_from
           damage_to_attacker randomness_factor dealer).
Proof.
  unfold formula_damage, get_attacking_strength, get_defending_strength.
  repeat first
    [ apply reads_get_attack_modifiers | apply reads_get_defence_modifiers
    | apply reads_ret | apply reads_lift_option
    | apply reads_bind; [| intros ?] ].
Qed.

Lemma reads_default_randomness_factor (combatant : ICombatant) :
  reads (default_randomness_factor combatant).
Proof. unfold default_randomness_factor. reader. Qed.

Lemma calculate_damage_to_defender_reads (attacker defender : ICombatant)
    (tile : option Vector2) (rf : option Q) (w : World) :
  calculate_damage_to_defender attacker defender tile rf w
  = option_map (fun damage => (damage, w))
      (option_map fst
         (calculate_damage_to_defender attacker defender tile rf w)).
Proof.
  apply reads_as_result. unfold calculate_damage_to_defender. cbv zeta.
  apply reads_bind;
    [destruct rf; [apply reads_ret | apply reads_default_randomness_factor] |].
  intros f. destruct (Combatant.is_civilian defender);
    [apply reads_ret | apply reads_formula_damage].
Qed.

Lemma calculate_damage_to_attacker_reads (attacker defender : ICombatant)
    (tile : option Vector2) (rf : option Q) (w : World) :
  calculate_damage_to_attacker attacker defender tile rf w
  = option_map (fun damage => (damage, w))
      (option_map fst
         (calculate_damage_to_attacker attacker defender tile rf w)).
Proof.
  apply reads_as_result. unfold calculate_damage_to_attacker. cbv zeta.
  apply reads_bind;
    [destruct rf; [apply reads_ret | apply reads_default_randomness_factor] |].
  intros f.
  destruct (Combatant.is_ranged attacker && negb (Combatant.is_air_unit attacker));
    [apply reads_ret |].
  destruct (Combatant.is_civilian defender);
    [apply reads_ret | apply reads_formula_damage].
Qed.

Lemma unit_captured_prize_ships_unique_reads (attacker defender : MapUnit)
    (w : World) :
  BattleUnitCapture.unit_captured_prize_ships_unique attacker defender w
  = option_map (fun captured => (captured, w))
      (option_map fst
         (BattleUnitCapture.unit_captured_prize_ships_unique attacker defender w)).
Proof.
  unfold BattleUnitCapture.unit_captured_prize_ships_unique.
  destruct (negb _); [reflexivity |].
  destruct (_ =? 0); reflexivity.
Qed.

(** C9. With the turn number and the tile position fixed, the randomness
    factor of a damage calculation and the capture roll of prize ships
    come out the same in any two evaluations, whatever else differs in the
    two game states (the state of the global generator among it); and no
    evaluation of a roll or of a damage calculation changes the game
    state, so none draws from the global generator. *)
Theorem seeded_rolls_are_deterministic (w1 w2 : World) :
  turns w1 = turns w2 ->
  (forall c1 c2, Combatant.get_tile c1 = Combatant.get_tile c2 ->
     exists f, default_randomness_factor c1 w1 = Some (f, w1)
               /\ default_randomness_factor c2 w2 = Some (f, w2))
  /\ (forall attacker defender,
        option_map fst
          (BattleUnitCapture.unit_captured_prize_ships_unique attacker defender w1)
        = option_map fst
            (BattleUnitCapture.unit_captured_prize_ships_unique attacker defender w2))
  /\ (forall attacker defender tile damage w',
        calculate_damage_to_defender attacker defender tile None w1
          = Some (damage, w')
        \/ calculate_damage_to_attacker attacker defender tile None w1
           = Some (damage, w') ->
        random_state w' = random_state w1 /\ w' = w1)
  /\ (forall attacker defender captured w',
        BattleUnitCapture.unit_captured_prize_ships_unique attacker defender w1
          = Some (captured, w') ->
        random_state w' = random_state w1 /\ w' = w1).
Proof.
  intros Hturns. split; [| split; [| split]].
  - intros c1 c2 Htile. eexists.
    unfold default_randomness_factor, bind, get_world, ret.
    rewrite Hturns, Htile. split; reflexivity.
  - intros attacker defender.
    unfold BattleUnitCapture.unit_captured_prize_ships_unique.
    destruct (negb _); [reflexivity |].
    destruct (_ =? 0); [reflexivity |].
    unfold bind, get_world, ret. rewrite Hturns. reflexivity.
  - intros attacker defender tile damage w' [E | E];
      [rewrite calculate_damage_to_defender_reads in E
      | rewrite calculate_damage_to_attacker_reads in E];
      destruct (option_map fst _); simpl in E; split; congruence.
  - intros attacker defender captured w' E.
    rewrite unit_captured_prize_ships_unique_reads in E.
    destruct (option_map fst _); simpl in E; split; congruence.
Qed.

End DamageCalculationFacts.

Section DamageCalculationInstances.
Import BattleDamage Fixtures.

(** An archer shooting at a warrior takes no damage. *)
Lemma ranged_attacker_takes_no_damage_witness :
  @calculate_damage_to_attacker externals
    (MapUnitCombatant archer) (MapUnitCombatant warrior) None None world
  = Some (0, world).
Proof.
  apply (@ranged_attacker_takes_no_damage externals); reflexivity.
Defined.

(** The same turn in a game state whose global generator has moved on:
    the randomness factor for the tile of the scout is the same. *)
Lemma seeded_rolls_are_deterministic_witness :
  turns world = turns (set_random_state 5 world)
  /\ exists f,
       @default_randomness_factor externals (MapUnitCombatant scout) world
       = Some (f, world)
       /\ @default_randomness_factor externals (MapUnitCombatant scout)
            (set_random_state 5 world)
          = Some (f, set_random_state 5 world).
Proof.
  split; [reflexivity |].
  apply (proj1 (@seeded_rolls_are_deterministic externals world
                  (set_random_state 5 world) eq_refl)).
  reflexivity.
Defined.

End DamageCalculationInstances.
Section CaptureFacts.
Context `{Externals}.
Import BattleUnitCapture.

Lemma gold_credited_zero (c : string) (w : World) (ci : Civilization) :
  civilizations w !! c = Some ci -> gold_credited c 0 w w.
Proof.
  intros E. exists ci. split; [exact E |].
  rewrite E. destruct ci. unfold set_gold. simpl. now rewrite Z.add_0_r.
Qed.

Lemma gold_credited_trans (c : string) (g1 g2 : Z) (w w1 w2 : World) :
  gold_credited c g1 w w1 -> gold_credited c g2 w1 w2 ->
  gold_credited c (g1 + g2) w w2.
Proof.
  intros (ci & E & E1) (ci1 & E1' & E2).
  rewrite E1 in E1'. injection E1' as <-.
  exists ci. split; [exact E |]. rewrite E2.
  unfold set_gold. simpl. now rewrite Z.add_assoc.
Qed.

Lemma add_gold_credits (c : string) (g : Z) (w : World) (ci : Civilization) :
  civilizations w !! c = Some ci ->
  exists w', add_gold c g w = Some (tt, w') /\ gold_credited c g w w'.
Proof.
  intros E. unfold add_gold. rewrite E. eexists. split; [reflexivity |].
  exists ci. split; [exact E |]. simpl. apply lookup_insert_eq.
Qed.

Lemma gold_credited_lookup (c : string) (g : Z) (w w' : World) :
  gold_credited c g w w' -> exists ci', civilizations w' !! c = Some ci'.
Proof. intros (ci & _ & E). eauto. Qed.

Lemma gain_from_defeating_unit_loop_credits (attacker defender : MapUnit)
    (matching : list Unique) (unit_captured : bool) (w : World) (ci : Civilization) :
  civilizations w !! civ attacker = Some ci ->
  exists w',
    gain_from_defeating_unit_loop attacker defender matching unit_captured w
    = Some (unit_captured || some_filter_matches defender matching, w')
    /\ gold_credited (civ attacker) (defeating_unit_gold defender matching) w w'.
Proof.
  revert unit_captured w ci.
  induction matching as [| unique rest IH]; intros unit_captured w ci E.
  - exists w. split.
    + simpl. now rewrite orb_false_r.
    + now apply gold_credited_zero with ci.
  - assert (Skip : exists w',
               gain_from_defeating_unit_loop attacker defender rest unit_captured w
               = Some (unit_captured || some_filter_matches defender rest, w')
               /\ gold_credited (civ attacker)
                    (defeating_unit_gold defender rest) w w')
      by (apply IH with ci; exact E).
    destruct unique; try exact Skip.
    simpl. unfold some_filter_matches. simpl.
    destruct (MapUnit_matches_filter defender unit_filter None) eqn:Hm.
    + destruct (add_gold_credits (civ attacker) gold_amount w ci E)
        as (w1 & Ew1 & C1).
      destruct (gold_credited_lookup _ _ _ _ C1) as (ci1 & E1).
      destruct (IH true w1 ci1 E1) as (w2 & Ew2 & C2).
      exists w2. split.
      * unfold bind. rewrite Ew1. rewrite Ew2.
        now rewrite orb_true_r.
      * now apply gold_credited_trans with w1.
    + destruct Skip as (w' & Ew' & C). exists w'. split; [exact Ew' |].
      now rewrite Z.add_0_l.
Qed.

Lemma gain_from_encampment_loop_credits (attacker : MapUnit)
    (matching : list Unique) (unit_captured : bool) (w : World) (ci : Civilization) :
  civilizations w !! civ attacker = Some ci ->
  exists (b : bool) w',
    gain_from_encampment_loop attacker matching unit_captured w = Some (b, w')
    /\ gold_credited (civ attacker) (encampment_gold matching) w w'.
Proof.
  revert unit_captured w ci.
  induction matching as [| unique rest IH]; intros unit_captured w ci E.
  - exists unit_captured, w. split; [reflexivity |].
    now apply gold_credited_zero with ci.
  - destruct unique; try (apply IH with ci; exact E).
    simpl.
    destruct (add_gold_credits (civ attacker) gold_amount w ci E)
      as (w1 & Ew1 & C1).
    destruct (gold_credited_lookup _ _ _ _ C1) as (ci1 & E1).
    destruct (IH true w1 ci1 E1) as (b & w2 & Ew2 & C2).
    exists b, w2. split.
    + unfold bind. rewrite Ew1. exact Ew2.
    + now apply gold_credited_trans with w1.
Qed.

Lemma some_filter_matches_In (defender : MapUnit) (l : list Unique)
    (unit_filter : string) (gold_amount : Z) :
  In (GainFromDefeatingUnit unit_filter gold_amount) l ->
  MapUnit_matches_filter defender unit_filter None = true ->
  some_filter_matches defender (matching_uniques TGainFromDefeatingUnit l) = true.
Proof.
  intros Hin Hm. unfold some_filter_matches. apply existsb_exists.
  exists (GainFromDefeatingUnit unit_filter gold_amount). split; [| exact Hm].
  unfold matching_uniques. apply filter_In. split; [exact Hin | reflexivity].
Qed.

(** C5 (amended).  [unit_gain_from_defeating_unit] by the kind of the
    attacker, which has a GainFromDefeatingUnit unique whose filter
    matches the defender: a melee attacker is granted the gold of every
    such unique and the trigger reports success; for an attacker that is
    not melee the trigger reports no success and the game state, the gold
    of every civilization with it, is left as it was. *)
Theorem gain_from_defeating_unit_needs_melee (attacker defender : MapUnit)
    (w : World) (ci : Civilization) (unit_filter : string) (gold_amount : Z) :
  civilizations w !! civ attacker = Some ci ->
  In (GainFromDefeatingUnit unit_filter gold_amount) (uniques attacker) ->
  MapUnit_matches_filter defender unit_filter None = true ->
  (Combatant.is_melee (MapUnitCombatant attacker) = true ->
   exists w',
     unit_gain_from_defeating_unit attacker defender w = Some (true, w')
     /\ gold <$> civilizations w' !! civ attacker
        = Some (gold ci
                + defeating_unit_gold defender
                    (matching_uniques TGainFromDefeatingUnit (uniques attacker))))
  /\ (Combatant.is_melee (MapUnitCombatant attacker) = false ->
      unit_gain_from_defeating_unit attacker defender w = Some (false, w)).
Proof.
  intros E Hin Hm. split; intros Hmelee.
  - unfold unit_gain_from_defeating_unit. rewrite Hmelee. simpl.
    destruct (gain_from_defeating_unit_loop_credits attacker defender
                (matching_uniques TGainFromDefeatingUnit (uniques attacker))
                false w ci E) as (w' & Ew' & (ci0 & E0 & E')).
    exists w'. split.
    + rewrite Ew'. simpl.
      now rewrite (some_filter_matches_In defender _ unit_filter gold_amount).
    + rewrite E'. rewrite E in E0. injection E0 as <-. reflexivity.
  - unfold unit_gain_from_defeating_unit. rewrite Hmelee. reflexivity.
Qed.

Lemma capture_triggers_credit (attacker defender : MapUnit)
    (attacked_tile : Vector2) (w w1 : World) (fired : bool) (ci : Civilization) :
  civilizations w !! civ attacker = Some ci ->
  capture_triggers attacker defender attacked_tile w = Some (fired, w1) ->
  gold_credited (civ attacker)
    (granted_gold attacker defender attacked_tile w) w w1.
Proof.
  intros E Ht. unfold capture_triggers, bind in Ht.
  rewrite unit_captured_prize_ships_unique_reads in Ht.
  destruct (option_map fst _) as [prize |]; [| discriminate]. simpl in Ht.
  (* the encampment *)
  assert (Enc : exists (b : bool) w2,
             unit_captured_from_encampment attacker defender attacked_tile w
               = Some (b, w2)
             /\ gold_credited (civ attacker)
                  (if match civilizations w !! civ defender with
                      | Some ci => is_barbarian ci
                      | None => false
                      end
                      && option_eqb String.eqb
                           (tiles w !! attacked_tile ≫= improvement)
                           (Some barbarian_encampment)
                   then encampment_gold
                          (matching_uniques TGainFromEncampment (civ_uniques ci))
                   else 0) w w2).
  { unfold unit_captured_from_encampment, bind, civ_is_barbarian in *.
    destruct (civilizations w !! civ defender) as [cd |]; [| discriminate].
    destruct (is_barbarian cd); simpl.
    - unfold get_world. simpl.
      destruct (option_eqb String.eqb _ _); simpl.
      + unfold civ_get_matching_uniques. rewrite E.
        apply gain_from_encampment_loop_credits with ci. exact E.
      + exists false, w. split; [reflexivity |].
        now apply gold_credited_zero with ci.
    - exists false, w. split; [reflexivity |].
      now apply gold_credited_zero with ci. }
  destruct Enc as (b2 & w2 & Ew2 & C2).
  rewrite Ew2 in Ht.
  (* the gain from defeating the unit *)
  destruct (gold_credited_lookup _ _ _ _ C2) as (ci2 & E2).
  unfold unit_gain_from_defeating_unit in Ht.
  unfold granted_gold. rewrite E.
  apply gold_credited_trans with w2; [exact C2 |].
  destruct (Combatant.is_melee (MapUnitCombatant attacker)); simpl in Ht.
  - destruct (gain_from_defeating_unit_loop_credits attacker defender
                (matching_uniques TGainFromDefeatingUnit (uniques attacker))
                false w2 ci2 E2) as (w3 & Ew3 & C3).
    rewrite Ew3 in Ht. injection Ht as _ <-. exact C3.
  - injection Ht as _ <-. now apply gold_credited_zero with ci2.
Qed.

(** C10. The capture of a military unit is not atomic: when a trigger
    has fired and no tile takes the replacement unit
    ([place_unit_near_tile] returns nothing), [try_capture_military_unit]
    reports no capture, and the game state it leaves is the one the
    triggers left, in which the civilization of the attacker holds the
    gold they granted. *)
Theorem capture_is_not_rolled_back (attacker defender : MapUnit)
    (attacked_tile : Vector2) (w w1 : World) (ci : Civilization) :
  has_unique TUncapturable defender = false ->
  Combatant.is_defeated (MapUnitCombatant defender) = true ->
  bu_is_civilian (base_unit defender) = false ->
  civilizations w !! civ attacker = Some ci ->
  capture_triggers attacker defender attacked_tile w = Some (true, w1) ->
  place_unit_near_tile (civ attacker) (current_tile defender) (name defender) w1
    = None ->
  try_capture_military_unit (MapUnitCombatant attacker)
    (MapUnitCombatant defender) attacked_tile w = Some (false, w1)
  /\ gold <$> civilizations w1 !! civ attacker
     = Some (gold ci + granted_gold attacker defender attacked_tile w).
Proof.
  intros Hunc Hdef Hciv E Ht Hplace. split.
  - unfold try_capture_military_unit. rewrite Hunc.
    simpl in Hdef. simpl. rewrite Hdef, Hciv. simpl.
    unfold bind. rewrite Ht. simpl.
    unfold spawn_captured_unit, bind, get_world. rewrite Hplace. reflexivity.
  - destruct (capture_triggers_credit _ _ _ _ _ _ _ E Ht) as (ci0 & E0 & E1).
    rewrite E1. rewrite E in E0. injection E0 as <-. reflexivity.
Qed.

End CaptureFacts.

Section CaptureInstances.
Import BattleUnitCapture Fixtures.

(** A swordsman with the unique defeats a legion: ten gold.  An archer
    with the same unique gains nothing. *)
Lemma gain_from_defeating_unit_needs_melee_witness :
  (exists w',
     @unit_gain_from_defeating_unit externals swordsman fallen_legion world
     = Some (true, w')
     /\ gold <$> civilizations w' !! "Greece" = Some (70 + 10))
  /\ @unit_gain_from_defeating_unit externals archer fallen_legion world
     = Some (false, world).
Proof.
  split.
  - apply (@gain_from_defeating_unit_needs_melee externals swordsman
             fallen_legion world (make_civ 70 false) "All" 10).
    + reflexivity.
    + simpl. left. reflexivity.
    + reflexivity.
    + reflexivity.
  - apply (@gain_from_defeating_unit_needs_melee externals archer
             fallen_legion world (make_civ 70 false) "All" 10).
    + reflexivity.
    + simpl. left. reflexivity.
    + reflexivity.
    + reflexivity.
Defined.

(** C5, as the claim has it, fails for an attacker that is not a melee
    unit: the preconditions of the military capture hold, the archer has a
    GainFromDefeatingUnit unique whose filter matches the defeated
    legion, and the trigger reports no success and grants no gold. *)
Lemma ranged_attacker_gains_nothing :
  has_unique TUncapturable fallen_legion = false
  /\ Combatant.is_defeated (MapUnitCombatant fallen_legion) = true
  /\ bu_is_civilian (base_unit fallen_legion) = false
  /\ In (GainFromDefeatingUnit "All" 10) (uniques archer)
  /\ @MapUnit_matches_filter externals fallen_legion "All" None = true
  /\ @unit_gain_from_defeating_unit externals archer fallen_legion world
     = Some (false, world)
  /\ gold <$> civilizations world !! "Greece" = Some 70.
Proof.
  repeat split; try reflexivity. simpl. left. reflexivity.
Qed.

(** The swordsman defeats the legion, the gold is granted, and no tile
    takes the captured unit. *)
Lemma capture_is_not_rolled_back_witness :
  @try_capture_military_unit externals (MapUnitCombatant swordsman)
    (MapUnitCombatant fallen_legion) (1, 1) world
  = Some (false, world_after_gain)
  /\ gold <$> civilizations world_after_gain !! "Greece" = Some (70 + 10).
Proof.
  apply (@capture_is_not_rolled_back externals swordsman fallen_legion (1, 1)
           world world_after_gain (make_civ 70 false)); reflexivity.
Defined.

End CaptureInstances.
Section CityRaidFacts.
Context `{Externals}.
Import Battle.

(** C7, as the code has it. When a barbarian melee unit that may capture
    cities (it has no CannotCaptureCities unique) has defeated a city, the
    city capture step of [Battle.attack] does not conquer the city: the
    city stays with its civilization at 2 health, that civilization loses
    min(200, its gold), and the attacking unit is destroyed. *)
Theorem barbarian_raid (unit : MapUnit) (city : City) (w : World)
    (barbarians defenders : Civilization) :
  CityCombatantM.is_defeated city = true ->
  Combatant.is_melee (MapUnitCombatant unit) = true ->
  has_unique TCannotCaptureCities unit = false ->
  civilizations w !! civ unit = Some barbarians ->
  is_barbarian barbarians = true ->
  civilizations w !! city_civ city = Some defenders ->
  exists unit' city' w',
    handle_city_capture (MapUnitCombatant unit) (CityCombatant city) w
    = Some ((MapUnitCombatant unit', CityCombatant city'), w')
    /\ city_health city' = 2
    /\ city_civ city' = city_civ city
    /\ city_destroyed city' = city_destroyed city
    /\ gold <$> civilizations w' !! city_civ city
       = Some (gold defenders - Z.min 200 (gold defenders))
    /\ unit' = destroy unit
    /\ destroyed unit' = true.
Proof.
  intros Hdefeated Hmelee Hunique Ebarb Hbarb Edef.
  unfold handle_city_capture.
  cbn [Combatant.is_defeated]. rewrite Hdefeated, Hmelee, Hunique.
  cbn [andb negb]. unfold bind at 1. unfold civ_is_barbarian at 1.
  rewrite Ebarb, Hbarb.
  assert (Hhealth : city_health city = 1)
    by (unfold CityCombatantM.is_defeated in Hdefeated; lia).
  assert (Hcity : CityCombatantM.take_damage (-1) city
                  = CityCombatantM.set_health 2 city).
  { unfold CityCombatantM.take_damage. simpl. rewrite Hhealth. reflexivity. }
  rewrite Hcity. cbn [CityCombatantM.set_health city_civ].
  unfold bind, civ_gold, add_gold. rewrite Edef. rewrite Edef.
  eexists _, _, _. split; [reflexivity |].
  cbn [city_health city_civ city_destroyed set_civilizations civilizations].
  repeat split.
  rewrite lookup_insert_eq. simpl. f_equal; lia.
Qed.

End CityRaidFacts.

Section CityRaidInstances.
Import Battle Fixtures.

(** A brute raids Rome, which holds 150 gold: all of it is taken. *)
Lemma barbarian_raid_witness :
  exists unit' city' w',
    @handle_city_capture externals (MapUnitCombatant brute) (CityCombatant rome)
      world
    = Some ((MapUnitCombatant unit', CityCombatant city'), w')
    /\ city_health city' = 2
    /\ city_civ city' = "Rome"
    /\ city_destroyed city' = false
    /\ gold <$> civilizations w' !! "Rome" = Some (150 - Z.min 200 150)
    /\ unit' = destroy brute
    /\ destroyed unit' = true.
Proof.
  apply (@barbarian_raid externals brute rome world
           (make_civ 0 true) (make_civ 150 false)); reflexivity.
Defined.

(** C7, as the claim has it, fails for a barbarian melee unit with the
    CannotCaptureCities unique: Rome is defeated (1 health), and the city
    capture step leaves the city at 1 health, the gold of its civilization
    untouched and the unit in place. *)
Lemma restrained_barbarian_does_not_raid :
  CityCombatantM.is_defeated rome = true
  /\ Combatant.is_melee (MapUnitCombatant restrained_brute) = true
  /\ is_barbarian <$> civilizations world !! civ restrained_brute = Some true
  /\ @handle_city_capture externals (MapUnitCombatant restrained_brute)
       (CityCombatant rome) world
     = Some ((MapUnitCombatant restrained_brute, CityCombatant rome), world)
  /\ city_health rome = 1
  /\ gold <$> civilizations world !! city_civ rome = Some 150
  /\ destroyed restrained_brute = false.
Proof.
  repeat split; reflexivity.
Qed.

End CityRaidInstances.
Section ExchangeFacts.
Context `{Externals}.
Import Battle.

Lemma after_no_draw (w : World) : after_draws 0 w = w.
Proof. destruct w. reflexivity. Qed.

Lemma after_draws_succ (n : nat) (w : World) :
  after_draws n (after_draws 1 w) = after_draws (S n) w.
Proof.
  unfold after_draws, set_random_state. simpl. f_equal. lia.
Qed.

Lemma exchange_loop_done (fuel : nat) (s : Exchange) (w : World) :
  potential_damage_to_defender s + potential_damage_to_attacker s <= 0 ->
  exchange_loop fuel s w = Some ((ConditionFalse, s), w).
Proof.
  intros Hsum.
  assert (E : (0 <? potential_damage_to_defender s
                    + potential_damage_to_attacker s) = false)
    by (apply Z.ltb_ge; exact Hsum).
  destruct fuel; simpl; rewrite E; reflexivity.
Qed.

Lemma exchange_loop_no_fuel (s : Exchange) (w : World) :
  0 < potential_damage_to_defender s + potential_damage_to_attacker s ->
  exchange_loop 0 s w = Some ((OutOfFuel, s), w).
Proof.
  intros Hsum. simpl.
  assert (E : (0 <? potential_damage_to_defender s
                    + potential_damage_to_attacker s) = true)
    by (apply Z.ltb_lt; exact Hsum).
  rewrite E. reflexivity.
Qed.

(** One iteration of the loop. *)
Lemma exchange_loop_step (fuel : nat) (s : Exchange) (w : World) :
  0 < potential_damage_to_defender s + potential_damage_to_attacker s ->
  exchange_loop (S fuel) s w
  = if Qlt_bool (global_random (random_state w)
                 * inject_Z (potential_damage_to_defender s
                             + potential_damage_to_attacker s))
                (inject_Z (potential_damage_to_defender s))
    then if Combatant.is_defeated (ex_defender (hit_defender s))
         then Some ((Break, hit_defender s), after_draws 1 w)
         else exchange_loop fuel (hit_defender s) (after_draws 1 w)
    else if Combatant.is_defeated (ex_attacker (hit_attacker s))
         then Some ((Break, hit_attacker s), after_draws 1 w)
         else exchange_loop fuel (hit_attacker s) (after_draws 1 w).
Proof.
  intros Hsum.
  assert (E : (0 <? potential_damage_to_defender s
                    + potential_damage_to_attacker s) = true)
    by (apply Z.ltb_lt; exact Hsum).
  cbn [exchange_loop]. rewrite E.
  unfold bind, random_random.
  destruct (Qlt_bool _ _).
  - destruct (Combatant.is_defeated (ex_defender (hit_defender s))); reflexivity.
  - destruct (Combatant.is_defeated (ex_attacker (hit_attacker s))); reflexivity.
Qed.






End ExchangeFacts.

Section ExchangeInstances.
Import Battle Fixtures.

(** With the draws 1/4, 3/4, 1/4 the defender, the attacker and the
    defender again lose one point; the loop ends after three iterations
    with the potential damages used up. *)
Example exchange_of_three_points :
  @exchange_loop externals 3 warrior_against_scout world
  = Some ((ConditionFalse,
           {| potential_damage_to_defender := 0;
              potential_damage_to_attacker := 0;
              ex_attacker := MapUnitCombatant (set_unit_health 99 warrior);
              ex_defender := MapUnitCombatant (set_unit_health 98 scout) |}),
          after_draws 3 world).
Proof. reflexivity. Qed.

(** With two iterations of fuel the same loop is still running. *)
Example exchange_of_three_points_needs_three :
  fst <$> @exchange_loop externals 2 warrior_against_scout world
  = Some (OutOfFuel,
          {| potential_damage_to_defender := 1;
             potential_damage_to_attacker := 0;
             ex_attacker := MapUnitCombatant (set_unit_health 99 warrior);
             ex_defender := MapUnitCombatant (set_unit_health 99 scout) |}).
Proof. reflexivity. Qed.

(** Against Rome at 1 health the first point of damage to the city ends
    the loop. *)
Example exchange_with_defeated_city :
  fst <$> @exchange_loop externals 30
            {| potential_damage_to_defender := 20;
               potential_damage_to_attacker := 10;
               ex_attacker := MapUnitCombatant warrior;
               ex_defender := CityCombatant rome |} world
  = Some (Break,
          {| potential_damage_to_defender := 19;
             potential_damage_to_attacker := 10;
             ex_attacker := MapUnitCombatant warrior;
             ex_defender := CityCombatant rome |}).
Proof. reflexivity. Qed.



End ExchangeInstances.
Section ExperienceFacts.
Context `{Externals}.
Import BattleXp Battle.

Lemma bind_Some {A B : Type} (c : M A) (k : A -> M B) (w : World) (r : B * World) :
  bind c k w = Some r -> exists a w1, c w = Some (a, w1) /\ k a w1 = Some r.
Proof.
  unfold bind. destruct (c w) as [[a w1] |]; [| discriminate].
  intros E. exists a, w1. split; [reflexivity | exact E].
Qed.

Ltac bind_inversion H :=
  repeat (cbv zeta in H; apply bind_Some in H; destruct H as (? & ? & _ & H)).

(** The cascade of [post_battle_add_xp] is the table of the
    specification. *)
Lemma post_battle_add_xp_is_table (attacker defender : ICombatant) :
  post_battle_add_xp attacker defender = spec_award attacker defender false.
Proof.
  unfold post_battle_add_xp, spec_award, spec_xp_table.
  destruct (Combatant.is_air_unit attacker), (Combatant.is_ranged attacker),
    (Combatant.is_city defender), (Combatant.is_civilian defender);
    reflexivity.
Qed.

Lemma spec_award_already_defeated (attacker defender : ICombatant) :
  spec_award attacker defender true = ret (attacker, defender).
Proof. reflexivity. Qed.

Lemma attack_battle_reaches_xp (attacker defender : ICombatant)
    (attacked_tile : Vector2) (intercept_damage : DamageDealt)
    (w w' : World) (progress : AttackProgress) :
  attack_battle attacker defender attacked_tile intercept_damage w
    = Some (progress, w') ->
  exists attacker' defender' damage,
    progress = ReachesXp attacker' defender' damage
                 (Combatant.is_city defender && Combatant.is_defeated defender).
Proof.
  intros E. unfold attack_battle in E. bind_inversion E.
  cbv zeta in E. unfold ret in E. injection E as <- _. eauto.
Qed.

Lemma attack_after_interception_reaches_xp (attacker defender : ICombatant)
    (attacked_tile : Vector2) (intercept_damage : DamageDealt) (w w' : World)
    (attacker' defender' : ICombatant) (damage : DamageDealt) (already : bool) :
  attack_after_interception attacker defender attacked_tile intercept_damage w
    = Some (ReachesXp attacker' defender' damage already, w') ->
  already = Combatant.is_city defender && Combatant.is_defeated defender.
Proof.
  intros E. unfold attack_after_interception in E.
  assert (Direct : forall a d,
             Combatant.is_city d && Combatant.is_defeated d
             = Combatant.is_city defender && Combatant.is_defeated defender ->
             attack_battle a d attacked_tile intercept_damage w
               = Some (ReachesXp attacker' defender' damage already, w') ->
             already = Combatant.is_city defender
                       && Combatant.is_defeated defender).
  { intros a d Hsame Ed.
    destruct (attack_battle_reaches_xp _ _ _ _ _ _ _ Ed) as (? & ? & ? & Ep).
    injection Ep as _ _ _ ->. exact Hsame. }
  destruct attacker as [attacker_unit | city], defender as [defender_unit | city'];
    try (eapply Direct; [reflexivity | exact E]).
  destruct (Combatant.is_melee (MapUnitCombatant attacker_unit)
            && has_unique TWithdrawsBeforeMeleeCombat defender_unit);
    [| eapply Direct; [reflexivity | exact E]].
  apply bind_Some in E. destruct E as (r & w1 & _ & E).
  destruct (fst (fst r)).
  - unfold ret in E. discriminate.
  - destruct (attack_battle_reaches_xp _ _ _ _ _ _ _ E) as (? & ? & ? & Ep).
    injection Ep as _ _ _ ->. reflexivity.
Qed.

Lemma as_listed_defeated_city (defender : ICombatant) (w : World) :
  Combatant.is_city (as_listed defender w)
  && Combatant.is_defeated (as_listed defender w)
  = Combatant.is_city defender && Combatant.is_defeated defender.
Proof.
  destruct defender as [unit | city]; [| reflexivity].
  unfold as_listed. destruct (find _ _); reflexivity.
Qed.

Lemma attack_until_xp_reaches_xp (attacker defender : ICombatant) (w w' : World)
    (attacker' defender' : ICombatant) (damage : DamageDealt) (already : bool) :
  attack_until_xp attacker defender w
    = Some (ReachesXp attacker' defender' damage already, w') ->
  already = Combatant.is_city defender && Combatant.is_defeated defender.
Proof.
  intros E. unfold attack_until_xp in E. cbv zeta in E.
  apply bind_Some in E. destruct E as (a & w1 & _ & E).
  destruct a as [unit | city].
  - destruct (bu_is_air_unit (base_unit unit)).
    + apply bind_Some in E. destruct E as (r & w2 & _ & E). cbv zeta in E.
      apply bind_Some in E. destruct E as (w3 & w4 & _ & E).
      destruct (Combatant.is_defeated (MapUnitCombatant (fst r))).
      * unfold ret in E. discriminate.
      * apply attack_after_interception_reaches_xp in E.
        now rewrite as_listed_defeated_city in E.
    + now apply attack_after_interception_reaches_xp in E.
  - now apply attack_after_interception_reaches_xp in E.
Qed.

(** An attack that returns before the award leaves the combatants as
    they are at the return. *)
Lemma attack_returned_awards_nothing (attacker defender : ICombatant)
    (w w' : World) (attacker' defender' : ICombatant) (damage : DamageDealt) :
  attack_until_xp attacker defender w
    = Some (Returned attacker' defender' damage, w') ->
  attack attacker defender w = Some ((attacker', defender', damage), w').
Proof.
  intros E. unfold attack, bind. rewrite E. reflexivity.
Qed.

(** C6, as the code has it. In every call of [Battle.attack] that
    reaches the award of experience (the attacker has not been shot down
    on its way and the defender has not withdrawn), [add_xp] is called
    with the amounts of the table, its rows read in order: air attacker
    (4,2); ranged attacker against a city (3,2); ranged attacker against a
    unit (2,2); any other attacker against a defender that is no
    civilian (5,4); otherwise nothing; and nothing at all when the
    defender is a city that was at 1 health before the attack. *)
Theorem attack_awards_xp_by_table (attacker defender : ICombatant) (w w' : World)
    (attacker' defender' : ICombatant) (damage : DamageDealt) (already : bool) :
  attack_until_xp attacker defender w
    = Some (ReachesXp attacker' defender' damage already, w') ->
  already = Combatant.is_city defender && Combatant.is_defeated defender
  /\ attack attacker defender w
     = (let* awarded := spec_award attacker' defender' already in
        ret (fst awarded, snd awarded, damage)) w'.
Proof.
  intros E. split.
  - now apply attack_until_xp_reaches_xp in E.
  - unfold attack. unfold bind at 1. rewrite E.
    destruct already; cbn [negb].
    + rewrite spec_award_already_defeated. reflexivity.
    + rewrite post_battle_add_xp_is_table. reflexivity.
Qed.

End ExperienceFacts.

Section ExperienceInstances.
Import BattleXp Battle Fixtures.

(** A swordsman attacks a spearman: the attack reaches the award, and the
    award is that of the table. *)
Lemma attack_awards_xp_by_table_witness :
  exists attacker' defender' damage already w',
    @attack_until_xp externals (MapUnitCombatant swordsman)
      (MapUnitCombatant spearman) world
    = Some (ReachesXp attacker' defender' damage already, w')
    /\ already = false
    /\ @attack externals (MapUnitCombatant swordsman)
         (MapUnitCombatant spearman) world
       = (let* awarded := @spec_award externals attacker' defender' already in
          ret (fst awarded, snd awarded, damage)) w'.
Proof.
  eexists _, _, _, _, _.
  assert (E : forall A B : Prop, A -> (A -> B) -> A /\ B) by (intros; tauto).
  apply E; clear E.
  - vm_compute. reflexivity.
  - intros Reached.
    exact (@attack_awards_xp_by_table externals _ _ _ _ _ _ _ _ Reached).
Defined.

Example swordsman_against_spearman :
  match @attack externals (MapUnitCombatant swordsman)
          (MapUnitCombatant spearman) world with
  | Some (MapUnitCombatant a, MapUnitCombatant d, damage, _) =>
    xp (promotions a) = 5 /\ xp (promotions d) = 4
    /\ damage = {| attacker_dealt := 34; defender_dealt := 25 |}
  | _ => False
  end.
Proof. vm_compute. repeat split. Qed.

Example archer_against_spearman :
  match @attack externals (MapUnitCombatant archer)
          (MapUnitCombatant spearman) world with
  | Some (MapUnitCombatant a, MapUnitCombatant d, damage, _) =>
    xp (promotions a) = 2 /\ xp (promotions d) = 2
    /\ damage = {| attacker_dealt := 31; defender_dealt := 0 |}
  | _ => False
  end.
Proof. vm_compute. repeat split. Qed.

(** C6, as the claim has it, fails for an attack that returns before the
    award.  A warrior attacks a scout that withdraws before melee combat:
    the row of the table for a melee attacker against a unit that is no
    civilian is (5,4), and its award would leave the two units with 5 and
    4 experience; the attack returns with the scout on another tile, no
    damage, and the experience of both still 0. *)
Lemma withdrawal_awards_no_xp :
  spec_xp_table
    (Combatant.is_air_unit (MapUnitCombatant warrior))
    (Combatant.is_ranged (MapUnitCombatant warrior))
    (Combatant.is_city (MapUnitCombatant scout))
    (Combatant.is_civilian (MapUnitCombatant scout))
    (Combatant.is_city (MapUnitCombatant scout)
     && Combatant.is_defeated (MapUnitCombatant scout))
  = Some (5, 4)
  /\ (exists a d w',
        @spec_award externals (MapUnitCombatant warrior)
          (MapUnitCombatant scout) false world
        = Some ((MapUnitCombatant a, MapUnitCombatant d), w')
        /\ xp (promotions a) = 5 /\ xp (promotions d) = 4)
  /\ (exists a d w',
        @attack externals (MapUnitCombatant warrior) (MapUnitCombatant scout)
          world
        = Some ((MapUnitCombatant a, MapUnitCombatant d, DamageDealt_none), w')
        /\ current_tile d = (2, 0)
        /\ xp (promotions a) = 0 /\ xp (promotions d) = 0).
Proof.
  split; [reflexivity |].
  split; eexists _, _, _; (split; [vm_compute; reflexivity |]);
    repeat split.
Qed.

End ExperienceInstances.
Section NukeFacts.
Context `{Externals}.
Import Nuke.

Lemma insert_by_chance_In (u x : MapUnit) (l : list MapUnit) :
  In x (AirInterception.insert_by_chance u l) -> x = u \/ In x l.
Proof.
  induction l as [| v l IH]; simpl.
  - intros [-> | []]. now left.
  - destruct (intercept_chance v <? intercept_chance u); simpl.
    + intros [-> | [-> | Hin]]; auto.
    + intros [-> | Hin]; auto. destruct (IH Hin); auto.
Qed.

Lemma sort_by_chance_In (x : MapUnit) (l : list MapUnit) :
  In x (AirInterception.sort_by_chance l) -> In x l.
Proof.
  unfold AirInterception.sort_by_chance.
  assert (G : forall acc, In x (fold_left
                                  (fun sorted u =>
                                     AirInterception.insert_by_chance u sorted)
                                  l acc) -> In x acc \/ In x l).
  { induction l as [| v l IH]; intros acc Hin; simpl in *; [now left |].
    destruct (IH _ Hin) as [Hacc | Hl]; [| now right; right].
    destruct (insert_by_chance_In _ _ _ Hacc) as [-> | Hacc']; auto. }
  intros Hin. destruct (G [] Hin) as [[] | Hl]. exact Hl.
Qed.





End NukeFacts.

Section NukeInstances.
Import Nuke Fixtures.



End NukeInstances.
Section ExchangeMoreFacts.
Context `{Externals}.
Import Battle.

Lemma hit_defender_needs_potential (x : Q) (pd pa : Z) :
  (0 <= x)%Q -> 0 <= pd -> 0 <= pa ->
  Qlt_bool (x * inject_Z (pd + pa)) (inject_Z pd) = true -> 1 <= pd.
Proof.
  intros Hx Hpd Hpa E. unfold Qlt_bool in E. apply negb_true_iff in E.
  apply Qle_bool_false in E.
  destruct (Z.eq_dec pd 0) as [-> | N]; [| lia]. exfalso.
  assert (Ha : (0 <= inject_Z (0 + pa))%Q).
  { change 0%Q with (inject_Z 0). rewrite <- Zle_Qle. lia. }
  change (inject_Z 0) with 0%Q in E. nra.
Qed.

Lemma hit_attacker_needs_potential (x : Q) (pd pa : Z) :
  (x < 1)%Q -> 0 <= pd -> 0 <= pa -> 0 < pd + pa ->
  Qlt_bool (x * inject_Z (pd + pa)) (inject_Z pd) = false -> 1 <= pa.
Proof.
  intros Hx Hpd Hpa Hsum E. unfold Qlt_bool in E. apply negb_false_iff in E.
  apply Qle_bool_iff in E.
  destruct (Z.eq_dec pa 0) as [-> | N]; [| lia]. exfalso.
  rewrite Z.add_0_r in E, Hsum.
  assert (Hd : (0 < inject_Z pd)%Q).
  { change 0%Q with (inject_Z 0). rewrite <- Zlt_Qlt. lia. }
  nra.
Qed.

(** X4.  With draws in [0, 1) and potential damages that are not negative,
    the alternating loop never deals more than the potential damage to
    either side: the potentials that are left are not negative, each
    combatant has taken one point of damage per point its potential went
    down, and one draw was taken per point. *)
Theorem exchange_stays_within_potential (fuel : nat) :
  forall (s s' : Exchange) (w w' : World) (exit : LoopExit),
    (forall n, (0 <= global_random n /\ global_random n < 1)%Q) ->
    0 <= potential_damage_to_defender s ->
    0 <= potential_damage_to_attacker s ->
    exchange_loop fuel s w = Some ((exit, s'), w') ->
    let to_defender :=
      potential_damage_to_defender s - potential_damage_to_defender s' in
    let to_attacker :=
      potential_damage_to_attacker s - potential_damage_to_attacker s' in
    0 <= potential_damage_to_defender s' /\ 0 <= to_defender
    /\ 0 <= potential_damage_to_attacker s' /\ 0 <= to_attacker
    /\ ex_defender s'
       = Nat.iter (Z.to_nat to_defender) (Combatant.take_damage 1) (ex_defender s)
    /\ ex_attacker s'
       = Nat.iter (Z.to_nat to_attacker) (Combatant.take_damage 1) (ex_attacker s)
    /\ w' = after_draws (Z.to_nat (to_defender + to_attacker)) w.
Proof.
  induction fuel as [| fuel IH]; intros s s' w w' exit Hdraws Hpd Hpa E.
  - destruct (Z_lt_le_dec 0 (potential_damage_to_defender s
                             + potential_damage_to_attacker s)) as [Hsum | Hsum].
    + rewrite exchange_loop_no_fuel in E by exact Hsum.
      injection E as <- <- <-. rewrite !Z.sub_diag. cbn.
      rewrite after_no_draw. repeat split; lia.
    + rewrite exchange_loop_done in E by exact Hsum.
      injection E as <- <- <-. rewrite !Z.sub_diag. cbn.
      rewrite after_no_draw. repeat split; lia.
  - destruct (Z_lt_le_dec 0 (potential_damage_to_defender s
                             + potential_damage_to_attacker s)) as [Hsum | Hsum].
    2: { rewrite exchange_loop_done in E by exact Hsum.
         injection E as <- <- <-. rewrite !Z.sub_diag. cbn.
         rewrite after_no_draw. repeat split; lia. }
    rewrite exchange_loop_step in E by exact Hsum.
    destruct (Hdraws (random_state w)) as [Hx0 Hx1].
    destruct (Qlt_bool _ _) eqn:Ehit.
    + pose proof (hit_defender_needs_potential _ _ _ Hx0 Hpd Hpa Ehit) as H1.
      assert (Hstep : forall t, 0 <= t ->
                Nat.iter (Z.to_nat t) (Combatant.take_damage 1)
                         (ex_defender (hit_defender s))
                = Nat.iter (Z.to_nat (t + 1)) (Combatant.take_damage 1)
                           (ex_defender s)).
      { intros t Ht. rewrite Z2Nat.inj_add by lia.
        rewrite Nat.add_comm. cbn [Z.to_nat Pos.to_nat Pos.iter_op Nat.add].
        rewrite Nat.iter_succ_r. reflexivity. }
      destruct (Combatant.is_defeated (ex_defender (hit_defender s))).
      * injection E as <- <- <-. cbn [hit_defender potential_damage_to_defender
          potential_damage_to_attacker ex_defender ex_attacker].
        replace (potential_damage_to_defender s
                 - (potential_damage_to_defender s - 1)) with 1 by lia.
        rewrite Z.sub_diag. cbn. repeat split; lia.
      * apply IH in E; [| exact Hdraws
                         | cbn [hit_defender potential_damage_to_defender]; lia
                         | cbn [hit_defender potential_damage_to_attacker]; lia].
        cbn [hit_defender potential_damage_to_defender
               potential_damage_to_attacker ex_attacker] in E.
        cbv zeta in E |- *.
        destruct E as (A & B & C & D & Ed & Ea & Ew).
        split; [lia |]. split; [lia |]. split; [lia |]. split; [lia |].
        split; [| split; [exact Ea |]].
        -- rewrite Ed, Hstep by lia. f_equal. f_equal. lia.
        -- rewrite Ew, after_draws_succ. f_equal. lia.
    + pose proof (hit_attacker_needs_potential _ _ _ Hx1 Hpd Hpa Hsum Ehit) as H1.
      assert (Hstep : forall t, 0 <= t ->
                Nat.iter (Z.to_nat t) (Combatant.take_damage 1)
                         (ex_attacker (hit_attacker s))
                = Nat.iter (Z.to_nat (t + 1)) (Combatant.take_damage 1)
                           (ex_attacker s)).
      { intros t Ht. rewrite Z2Nat.inj_add by lia.
        rewrite Nat.add_comm. cbn [Z.to_nat Pos.to_nat Pos.iter_op Nat.add].
        rewrite Nat.iter_succ_r. reflexivity. }
      destruct (Combatant.is_defeated (ex_attacker (hit_attacker s))).
      * injection E as <- <- <-. cbn [hit_attacker potential_damage_to_defender
          potential_damage_to_attacker ex_defender ex_attacker].
        replace (potential_damage_to_attacker s
                 - (potential_damage_to_attacker s - 1)) with 1 by lia.
        rewrite Z.sub_diag. cbn. repeat split; lia.
      * apply IH in E; [| exact Hdraws
                         | cbn [hit_attacker potential_damage_to_defender]; lia
                         | cbn [hit_attacker potential_damage_to_attacker]; lia].
        cbn [hit_attacker potential_damage_to_defender
               potential_damage_to_attacker ex_defender] in E.
        cbv zeta in E |- *.
        destruct E as (A & B & C & D & Ed & Ea & Ew).
        split; [lia |]. split; [lia |]. split; [lia |]. split; [lia |].
        split; [exact Ed | split].
        -- rewrite Ea, Hstep by lia. f_equal. f_equal. lia.
        -- rewrite Ew, after_draws_succ. f_equal. lia.
Qed.

End ExchangeMoreFacts.

Section ExchangeMoreInstances.
Import Battle Fixtures.

Lemma fixture_draws_in_unit_interval (n : nat) :
  (0 <= @global_random externals n /\ @global_random externals n < 1)%Q.
Proof.
  cbn. destruct (Nat.even n); split; try reflexivity; unfold Qle; simpl; lia.
Qed.

(** A warrior with 1 potential damage to take attacks a scout with 2. *)
Lemma exchange_stays_within_potential_witness :
  exists exit s' w',
    @exchange_loop externals 3 warrior_against_scout world
    = Some ((exit, s'), w')
    /\ 0 <= potential_damage_to_defender s'
    /\ 0 <= 2 - potential_damage_to_defender s'
    /\ 0 <= potential_damage_to_attacker s'
    /\ 0 <= 1 - potential_damage_to_attacker s'
    /\ ex_defender s'
       = Nat.iter (Z.to_nat (2 - potential_damage_to_defender s'))
                  (@Combatant.take_damage externals 1) (MapUnitCombatant scout)
    /\ ex_attacker s'
       = Nat.iter (Z.to_nat (1 - potential_damage_to_attacker s'))
                  (@Combatant.take_damage externals 1) (MapUnitCombatant warrior)
    /\ w' = after_draws
              (Z.to_nat (2 - potential_damage_to_defender s'
                         + (1 - potential_damage_to_attacker s'))) world.
Proof.
  eexists _, _, _.
  assert (E : forall A B : Prop, A -> (A -> B) -> A /\ B) by (intros; tauto).
  apply E; clear E.
  - vm_compute. reflexivity.
  - intros Run.
    exact (@exchange_stays_within_potential externals 3 warrior_against_scout
             _ world _ _ fixture_draws_in_unit_interval
             ltac:(simpl; lia) ltac:(simpl; lia) Run).
Defined.

End ExchangeMoreInstances.
Section TakeDamageFacts.
Context `{Externals}.
Import Battle.

Lemma reads_result {A : Type} (c : M A) (w w1 : World) (a : A) :
  c w = option_map (fun x => (x, w)) (option_map fst (c w)) ->
  c w = Some (a, w1) -> w1 = w.
Proof.
  intros R E. rewrite E in R. simpl in R. congruence.
Qed.

(** X5.  In [Battle.take_damage] a ranged attacker that is no air unit
    deals the calculated damage in one blow and takes none: the damage
    record reports 0 for the defender's side, and for the attacker's side
    the health the defender loses by [take_damage(potential damage)]. *)
Theorem ranged_attack_is_one_sided (attacker defender : ICombatant)
    (w w' : World) (r : ICombatant * ICombatant * DamageDealt) :
  Combatant.is_ranged attacker = true ->
  Combatant.is_air_unit attacker = false ->
  take_damage attacker defender w = Some (r, w') ->
  exists damage,
    BattleDamage.calculate_damage_to_defender attacker defender None None w
    = Some (damage, w)
    /\ snd r
       = {| attacker_dealt :=
              Combatant.get_health defender
              - Combatant.get_health (Combatant.take_damage damage defender);
            defender_dealt := 0 |}.
Proof.
  intros Hranged Hair E. unfold take_damage in E.
  apply bind_Some in E. destruct E as (damage & w1 & Ed & E).
  pose proof (reads_result _ _ _ _
                (calculate_damage_to_defender_reads _ _ _ _ _) Ed) as ->.
  apply bind_Some in E. destruct E as (to_attacker & w1 & Ea & E).
  pose proof (reads_result _ _ _ _
                (calculate_damage_to_attacker_reads _ _ _ _ _) Ea) as ->.
  exists damage. split; [exact Ed |].
  apply bind_Some in E. destruct E as (after & w1 & Ex & E).
  assert (Hafter : after = (attacker, Combatant.take_damage damage defender)).
  { assert (Hx : exchange_damage attacker defender damage to_attacker w
                 = Some ((attacker, Combatant.take_damage damage defender), w)).
    { unfold exchange_damage. rewrite Hranged, Hair. reflexivity. }
    destruct defender as [defender_unit | city].
    - unfold Combatant.is_melee in Ex. rewrite Hranged, andb_false_r in Ex.
      congruence.
    - congruence. }
  subst after. cbn [fst snd] in E.
  apply bind_Some in E. destruct E as (attacker1 & w2 & _ & E).
  apply bind_Some in E. destruct E as (defender1 & w3 & _ & E).
  apply bind_Some in E. destruct E as ([] & w4 & _ & E).
  injection E as <- <-. cbn [snd]. rewrite Z.sub_diag. reflexivity.
Qed.

End TakeDamageFacts.

Section TakeDamageInstances.
Import Battle Fixtures.

(** An archer shoots at a spearman. *)
Lemma ranged_attack_is_one_sided_witness :
  exists r w' damage,
    @take_damage externals (MapUnitCombatant archer) (MapUnitCombatant spearman)
      world = Some (r, w')
    /\ @BattleDamage.calculate_damage_to_defender externals
         (MapUnitCombatant archer) (MapUnitCombatant spearman) None None world
       = Some (damage, world)
    /\ snd r
       = {| attacker_dealt :=
              100 - Combatant.get_health
                      (@Combatant.take_damage externals damage
                         (MapUnitCombatant spearman));
            defender_dealt := 0 |}.
Proof.
  destruct (@take_damage externals (MapUnitCombatant archer)
              (MapUnitCombatant spearman) world) as [[r w'] |] eqn:Run;
    [| vm_compute in Run; discriminate].
  destruct (@ranged_attack_is_one_sided externals (MapUnitCombatant archer)
              (MapUnitCombatant spearman) world w' r eq_refl eq_refl Run)
    as (damage & Calculated & Dealt).
  exists r, w', damage. split; [reflexivity |]. split; assumption.
Defined.

End TakeDamageInstances.
Section MovementFacts.
Context `{Externals}.
Import Battle.

(** X6.  A unit that attacks something other than a civilian on its own
    tile, has no CanMoveAfterAttacking unique and has no attack left after
    this one ends with no movement: its attack count is one higher, its
    movement is 0, and it is no longer fortified, sleeping or guarding;
    its health and tile are as before. *)
Theorem last_attack_ends_movement (unit : MapUnit) (defender : ICombatant)
    (attacked_tile : Vector2) :
  Combatant.is_civilian defender
  && Vector2_eqb (current_tile unit) (Combatant.get_tile defender) = false ->
  has_unique TCanMoveAfterAttacking unit = false ->
  max_attacks_per_turn unit <= attacks_this_turn unit + 1 ->
  exists unit',
    reduce_attacker_movement_points_and_attacks
      (MapUnitCombatant unit) defender attacked_tile = MapUnitCombatant unit'
    /\ attacks_this_turn unit' = attacks_this_turn unit + 1
    /\ current_movement unit' = 0%Q
    /\ is_fortified unit' = false /\ is_sleeping unit' = false
    /\ is_guarding unit' = false
    /\ health unit' = health unit /\ current_tile unit' = current_tile unit.
Proof.
  intros Hcivilian Hunique Hlast.
  unfold reduce_attacker_movement_points_and_attacks.
  cbn [Combatant.get_tile]. rewrite Hcivilian.
  assert (E1 : has_unique TCanMoveAfterAttacking
                 (set_attacks_this_turn (attacks_this_turn unit + 1) unit)
               = false) by exact Hunique.
  rewrite E1. cbn [orb attacks_this_turn set_attacks_this_turn
                       max_attacks_per_turn].
  assert (E2 : (attacks_this_turn unit + 1 <? max_attacks_per_turn unit) = false)
    by (apply Z.ltb_ge; exact Hlast).
  rewrite E2.
  unfold is_fortified, is_sleeping, is_guarding, action_is.
  destruct unit as [? ? ? ? ? ? ? ? ? ? ? ? ? ? ? [[] |] ?]; cbn;
    (eexists; split; [reflexivity |]); cbn; repeat split; reflexivity.
Qed.

(** X9.  The city capture step of [Battle.attack] leaves the combatants
    and the game state as they are unless the defender is defeated and
    the attacker fights in melee: no ranged attacker captures or raids a
    city, and no city that is not defeated is taken. *)
Theorem no_capture_without_melee_victory (attacker defender : ICombatant)
    (w : World) :
  Combatant.is_defeated defender && Combatant.is_melee attacker = false ->
  handle_city_capture attacker defender w = Some ((attacker, defender), w).
Proof.
  intros Hno. unfold handle_city_capture.
  destruct defender as [defender_unit | city]; [reflexivity |].
  destruct attacker as [unit | attacking_city]; [| reflexivity].
  rewrite Hno. reflexivity.
Qed.

End MovementFacts.

Section MovementInstances.
Import Battle Fixtures.

(** A warrior, with one attack per turn, attacks a spearman. *)
Lemma last_attack_ends_movement_witness :
  exists unit',
    @reduce_attacker_movement_points_and_attacks externals
      (MapUnitCombatant warrior) (MapUnitCombatant spearman) (1, 1)
    = MapUnitCombatant unit'
    /\ attacks_this_turn unit' = attacks_this_turn warrior + 1
    /\ current_movement unit' = 0%Q
    /\ is_fortified unit' = false /\ is_sleeping unit' = false
    /\ is_guarding unit' = false
    /\ health unit' = health warrior
    /\ current_tile unit' = current_tile warrior.
Proof.
  apply (@last_attack_ends_movement externals warrior
           (MapUnitCombatant spearman) (1, 1));
    [reflexivity | reflexivity | simpl; lia].
Defined.

(** An archer has brought Rome down to 1 health. *)
Lemma no_capture_without_melee_victory_witness :
  @handle_city_capture externals (MapUnitCombatant archer) (CityCombatant rome)
    world
  = Some ((MapUnitCombatant archer, CityCombatant rome), world).
Proof.
  apply (@no_capture_without_melee_victory externals). reflexivity.
Defined.

End MovementInstances.
Section RandomFacts.
Context `{Externals}.

Lemma int_of_float_bounds (q : Q) (n : Z) :
  (0 <= q)%Q -> (q < inject_Z n)%Q -> 0 <= int_of_float q < n.
Proof.
  intros H0 Hn. unfold int_of_float.
  destruct q as [a b]. unfold Qle, Qlt in *. cbn in *.
  rewrite Z.mul_1_r in *.
  assert (Ha : 0 <= a) by lia.
  rewrite Z.quot_div_nonneg by lia. split.
  - apply Z.div_pos; lia.
  - apply Z.div_lt_upper_bound; lia.
Qed.

Lemma scaled_draw_bounds (x : Q) (n : Z) :
  (0 <= x)%Q -> (x < 1)%Q -> 0 < n ->
  0 <= int_of_float (x * inject_Z n) < n.
Proof.
  intros H0 H1 Hn.
  assert (Hq : (0 < inject_Z n)%Q).
  { change 0%Q with (inject_Z 0). rewrite <- Zlt_Qlt. exact Hn. }
  apply int_of_float_bounds; nra.
Qed.

(** With draws in [0, 1), [random.choice] on a sequence that is not empty
    returns one of its elements and takes one draw. *)
Lemma random_choice_In {A : Type} (default : A) (seq : list A) (w : World) :
  (forall n, (0 <= global_random n /\ global_random n < 1)%Q) ->
  seq <> [] ->
  exists a, random_choice default seq w = Some (a, after_draws 1 w)
            /\ In a seq.
Proof.
  intros Hdraws Hseq. unfold random_choice, bind, random_random, ret.
  eexists. split; [reflexivity |].
  apply nth_In.
  destruct (Hdraws (random_state w)) as [H0 H1].
  assert (Hlen : 0 < Z.of_nat (length seq)) by (destruct seq; [congruence | cbn; lia]).
  pose proof (scaled_draw_bounds _ _ H0 H1 Hlen). lia.
Qed.

(** With draws in [0, 1), [random.randint(a, b)] returns an integer of
    [a..b] and takes one draw. *)
Lemma random_randint_range (a b : Z) (w : World) :
  (forall n, (0 <= global_random n /\ global_random n < 1)%Q) ->
  a <= b ->
  exists x, random_randint a b w = Some (x, after_draws 1 w) /\ a <= x <= b.
Proof.
  intros Hdraws Hab. unfold random_randint, bind, random_random, ret.
  eexists. split; [reflexivity |].
  destruct (Hdraws (random_state w)) as [H0 H1].
  pose proof (scaled_draw_bounds _ (b - a + 1) H0 H1 ltac:(lia)). lia.
Qed.

End RandomFacts.
Section WithdrawalFacts.
Context `{Externals}.
Import Battle.

(** X8.  When [do_withdraw_from_melee_ability] reports no withdrawal, it
    has changed nothing: the two units and the game state are as before,
    and no draw was taken from the global generator. *)
Theorem no_withdrawal_changes_nothing (attacker defender attacker' defender' : MapUnit)
    (w w' : World) :
  do_withdraw_from_melee_ability attacker defender w
  = Some ((false, attacker', defender'), w') ->
  attacker' = attacker /\ defender' = defender /\ w' = w.
Proof.
  unfold do_withdraw_from_melee_ability.
  assert (Same : ret (false, attacker, defender) w
                 = Some ((false, attacker', defender'), w') ->
                 attacker' = attacker /\ defender' = defender /\ w' = w).
  { intros E. injection E as <- <- <-. auto. }
  destruct (is_embarked defender); [exact Same |].
  destruct (cannot_move defender); [exact Same |].
  destruct (is_escorting defender); [exact Same |].
  destruct (is_guarding defender); [exact Same |].
  unfold bind at 1. cbn [get_world].
  assert (Moved : forall candidates,
            (let* to_tile := random_choice (current_tile defender) candidates in
             match reduce_attacker_movement_points_and_attacks
                     (MapUnitCombatant attacker)
                     (MapUnitCombatant (set_current_tile to_tile defender))
                     (current_tile defender) with
             | MapUnitCombatant attacker0 =>
               ret (true, attacker0, set_current_tile to_tile defender)
             | CityCombatant _ =>
               ret (true, attacker, set_current_tile to_tile defender)
             end) w = Some ((false, attacker', defender'), w') -> False).
  { intros candidates E. apply bind_Some in E.
    destruct E as (to_tile & w1 & _ & E).
    destruct (reduce_attacker_movement_points_and_attacks _ _ _);
      discriminate E. }
  destruct (List.filter _ _) as [| t1 l1].
  - destruct (List.filter _ _) as [| t2 l2]; [exact Same |].
    intros E. exfalso. exact (Moved _ E).
  - intros E. exfalso. exact (Moved _ E).
Qed.

(** X7.  With draws in [0, 1), a defender that withdraws moves to a
    neighbour of its tile that it is not barred from; when that tile is
    the attacker's tile or next to it, every neighbour away from the
    attacker was barred.  Nothing else of the defender changes, the
    attacker pays for the attack as against the moved defender, and one
    draw was taken. *)
Theorem withdrawal_destination (attacker defender attacker' defender' : MapUnit)
    (w w' : World) :
  (forall n, (0 <= global_random n /\ global_random n < 1)%Q) ->
  do_withdraw_from_melee_ability attacker defender w
  = Some ((true, attacker', defender'), w') ->
  let to_tile := current_tile defender' in
  In to_tile (neighbors (current_tile defender))
  /\ can_not_withdraw_to defender w to_tile = false
  /\ (Vector2_eqb to_tile (current_tile attacker)
      || position_in to_tile (neighbors (current_tile attacker)) = true ->
      forall tile, In tile (neighbors (current_tile defender)) ->
        Vector2_eqb tile (current_tile attacker) = false ->
        position_in tile (neighbors (current_tile attacker)) = false ->
        can_not_withdraw_to defender w tile = true)
  /\ defender' = set_current_tile to_tile defender
  /\ reduce_attacker_movement_points_and_attacks
       (MapUnitCombatant attacker) (MapUnitCombatant defender')
       (current_tile defender) = MapUnitCombatant attacker'
  /\ w' = after_draws 1 w.
Proof.
  intros Hdraws. unfold do_withdraw_from_melee_ability.
  destruct (is_embarked defender); [discriminate |].
  destruct (cannot_move defender); [discriminate |].
  destruct (is_escorting defender); [discriminate |].
  destruct (is_guarding defender); [discriminate |].
  unfold bind at 1. cbn [get_world].
  set (first_candidate_tiles := List.filter _ (neighbors (current_tile defender))).
  set (second_candidate_tiles := List.filter _ (neighbors (current_tile defender))).
  assert (Moved : forall candidates, candidates <> [] ->
            (let* to_tile := random_choice (current_tile defender) candidates in
             match reduce_attacker_movement_points_and_attacks
                     (MapUnitCombatant attacker)
                     (MapUnitCombatant (set_current_tile to_tile defender))
                     (current_tile defender) with
             | MapUnitCombatant attacker0 =>
               ret (true, attacker0, set_current_tile to_tile defender)
             | CityCombatant _ =>
               ret (true, attacker, set_current_tile to_tile defender)
             end) w = Some ((true, attacker', defender'), w') ->
            In (current_tile defender') candidates
            /\ defender' = set_current_tile (current_tile defender') defender
            /\ reduce_attacker_movement_points_and_attacks
                 (MapUnitCombatant attacker) (MapUnitCombatant defender')
                 (current_tile defender) = MapUnitCombatant attacker'
            /\ w' = after_draws 1 w).
  { intros candidates Hne E.
    destruct (random_choice_In (current_tile defender) candidates w Hdraws Hne)
      as (to_tile & Ec & Hin).
    unfold bind in E. rewrite Ec in E.
    destruct (reduce_attacker_movement_points_and_attacks _ _ _)
      as [attacker0 | c] eqn:Er.
    - injection E as <- <- <-. cbn [current_tile set_current_tile].
      auto.
    - exfalso. unfold reduce_attacker_movement_points_and_attacks in Er.
      destruct (_ && _); discriminate Er. }
  destruct first_candidate_tiles as [| t1 l1] eqn:E1.
  - destruct second_candidate_tiles as [| t2 l2] eqn:E2; [discriminate |].
    intros E. apply Moved in E; [| discriminate].
    destruct E as (Hin & Hd & Ha & Hw). rewrite <- E2 in Hin.
    apply filter_In in Hin. destruct Hin as [Hnb Hok].
    apply andb_true_iff in Hok. destruct Hok as [_ Hok].
    apply negb_true_iff in Hok.
    cbv zeta. split; [exact Hnb |]. split; [exact Hok |].
    split; [| auto].
    intros _ tile Hin' Hnot_attacker Hnot_adjacent.
    rename Hin' into Hin.
    destruct (can_not_withdraw_to defender w tile) eqn:Eb; [reflexivity |].
    exfalso.
    assert (Hfirst : In tile first_candidate_tiles).
    { apply filter_In. split; [exact Hin |].
      assert (Ok : negb (Vector2_eqb tile (current_tile attacker))
                   && negb (position_in tile (neighbors (current_tile attacker)))
                   && negb (can_not_withdraw_to defender w tile) = true)
        by (rewrite Hnot_attacker, Hnot_adjacent, Eb; reflexivity).
      exact Ok. }
    rewrite E1 in Hfirst. exact Hfirst.
  - intros E. apply Moved in E; [| discriminate].
    destruct E as (Hin & Hd & Ha & Hw). rewrite <- E1 in Hin.
    apply filter_In in Hin. destruct Hin as [Hnb Hok].
    apply andb_true_iff in Hok. destruct Hok as [Hok1 Hok].
    apply andb_true_iff in Hok1. destruct Hok1 as [Hna Hnadj].
    apply negb_true_iff in Hok. apply negb_true_iff in Hna.
    apply negb_true_iff in Hnadj.
    cbv zeta. split; [exact Hnb |]. split; [exact Hok |].
    split; [| auto].
    rewrite Hna, Hnadj. discriminate.
Qed.

End WithdrawalFacts.

Section WithdrawalInstances.
Import Battle Fixtures.

(** A scout that guards its tile does not withdraw from a warrior. *)
Lemma no_withdrawal_changes_nothing_witness :
  exists attacker' defender' w',
    @do_withdraw_from_melee_ability externals warrior
      (set_action (Some Guard) scout) world
    = Some ((false, attacker', defender'), w')
    /\ attacker' = warrior /\ defender' = set_action (Some Guard) scout
    /\ w' = world.
Proof.
  eexists _, _, _.
  assert (E : forall A B : Prop, A -> (A -> B) -> A /\ B) by (intros; tauto).
  apply E; clear E.
  - vm_compute. reflexivity.
  - intros Run.
    exact (@no_withdrawal_changes_nothing externals _ _ _ _ _ _ Run).
Defined.

(** The scout at (1,0) withdraws from the warrior at (0,0). *)
Lemma withdrawal_destination_witness :
  exists attacker' defender' w',
    @do_withdraw_from_melee_ability externals warrior scout world
    = Some ((true, attacker', defender'), w')
    /\ In (current_tile defender') (four_neighbors (1, 0))
    /\ @can_not_withdraw_to externals scout world (current_tile defender') = false
    /\ (Vector2_eqb (current_tile defender') (0, 0)
        || position_in (current_tile defender') (four_neighbors (0, 0)) = true ->
        forall tile, In tile (four_neighbors (1, 0)) ->
          Vector2_eqb tile (0, 0) = false ->
          position_in tile (four_neighbors (0, 0)) = false ->
          @can_not_withdraw_to externals scout world tile = true)
    /\ defender' = set_current_tile (current_tile defender') scout
    /\ @reduce_attacker_movement_points_and_attacks externals
         (MapUnitCombatant warrior) (MapUnitCombatant defender') (1, 0)
       = MapUnitCombatant attacker'
    /\ w' = after_draws 1 world.
Proof.
  eexists _, _, _.
  assert (E : forall A B : Prop, A -> (A -> B) -> A /\ B) by (intros; tauto).
  apply E; clear E.
  - vm_compute. reflexivity.
  - intros Run.
    exact (@withdrawal_destination externals _ _ _ _ _ _
             fixture_draws_in_unit_interval Run).
Defined.

Example scout_withdraws_away_from_warrior :
  match @do_withdraw_from_melee_ability externals warrior scout world with
  | Some ((withdrew, _, defender'), _) =>
    withdrew = true /\ current_tile defender' = (2, 0)
  | None => False
  end.
Proof. vm_compute. split; reflexivity. Qed.

End WithdrawalInstances.
Section ExperienceMoreFacts.
Context `{Externals}.
Import BattleXp.

Lemma int_of_float_integer (q : Q) (n : Z) :
  (q == inject_Z n)%Q -> int_of_float q = n.
Proof.
  unfold int_of_float, Qeq. destruct q as [a d]. cbn.
  rewrite Z.mul_1_r. intros ->. apply Z.quot_mul. lia.
Qed.

Lemma int_of_float_lower (q : Q) (n : Z) :
  0 <= n -> (inject_Z n <= q)%Q -> n <= int_of_float q.
Proof.
  unfold int_of_float, Qle. destruct q as [a d]. cbn.
  rewrite Z.mul_1_r. intros Hn Hq.
  rewrite Z.quot_div_nonneg by lia.
  apply Z.div_le_lower_bound; lia.
Qed.

(** X10.  Experience from barbarians is capped: once the unit has produced
    [max_xp_from_barbarians] experience, [add_xp] against a barbarian
    changes neither the unit nor the game state. *)
Theorem xp_from_barbarians_is_capped (unit : MapUnit) (amount : Z)
    (other : ICombatant) (w : World) (other_civ : Civilization) :
  civilizations w !! Combatant.get_civ_info other = Some other_civ ->
  is_barbarian other_civ = true ->
  max_xp_from_barbarians <= total_xp_produced (promotions unit) ->
  add_xp (MapUnitCombatant unit) amount other w
  = Some (MapUnitCombatant unit, w).
Proof.
  intros Hciv Hbarbarian Hcap.
  unfold add_xp, bind, civ_is_barbarian. rewrite Hciv, Hbarbarian.
  assert (E : (max_xp_from_barbarians <=? total_xp_produced (promotions unit))
              = true) by (apply Z.leb_le; exact Hcap).
  rewrite E. reflexivity.
Qed.

(** The gain of experience is at least the base when the percentage
    bonus is not negative, and the base itself when there is no bonus:
    the base is a float, and rounding keeps the order. *)
Lemma xp_gained_of_at_least_base (base : Z) (bonus : Q) (gained : Z) :
  0 <= base < 2 ^ 53 -> (0 <= bonus)%Q ->
  xp_gained_of base (Float.Finite bonus) = Some gained ->
  base <= gained /\ ((bonus == 0)%Q -> gained = base).
Proof.
  intros Hbase Hbonus E. unfold xp_gained_of in E.
  unfold Float.div in E. cbn [Float.is_zero] in E.
  change (Qeq_bool 100 0) with false in E. cbv iota in E. cbn [obind] in E.
  destruct (Float.of_Q (bonus / 100)) as [h | s |] eqn:Eh;
    cbn [Float.add] in E.
  2: { unfold Float.of_int in E.
       destruct (Float.of_Q (inject_Z base)); try discriminate.
       cbn [obind Float.mul Float.to_int] in E.
       destruct (Qeq_bool q 0); discriminate. }
  2: { unfold Float.of_int in E.
       destruct (Float.of_Q (inject_Z base)); discriminate. }
  apply of_Q_finite in Eh.
  unfold Float.of_int in E.
  destruct (Float.of_Q (inject_Z base)) as [b | |] eqn:Eb; try discriminate.
  apply of_Q_finite in Eb. cbn [obind] in E.
  destruct (Float.of_Q (1 + h)) as [m | s |] eqn:Em;
    cbn [Float.mul Float.to_int] in E;
    [| destruct (Qeq_bool b 0); discriminate | discriminate].
  apply of_Q_finite in Em.
  destruct (Float.of_Q (b * m)) as [p | |] eqn:Ep; try discriminate.
  apply of_Q_finite in Ep. cbn [Float.to_int] in E. injection E as <-.
  assert (Hb : (b == inject_Z base)%Q) by (subst b; now apply round_integer).
  assert (Hb0 : (0 <= inject_Z base)%Q).
  { change 0%Q with (inject_Z 0). rewrite <- Zle_Qle. lia. }
  assert (Hh : (0 <= h)%Q).
  { subst h. apply round_nonneg. apply Qle_shift_div_l; lra. }
  assert (One : (Float.round 1 == 1)%Q)
    by (apply Qeq_bool_iff; vm_compute; reflexivity).
  assert (Hm : (1 <= m)%Q).
  { subst m. rewrite <- One at 1. apply round_le; lra. }
  split.
  - apply int_of_float_lower; [lia |].
    rewrite <- (round_integer base Hbase). subst p.
    apply round_le; [exact Hb0 | nra].
  - intros Hzero. apply int_of_float_integer.
    assert (h = 0%Q) as -> by (subst h; apply round_zero; rewrite Hzero; reflexivity).
    assert (Em1 : (m == 1)%Q).
    { subst m. rewrite (round_comp (1 + 0) 1) by reflexivity. exact One. }
    subst p. rewrite (round_comp (b * m) (inject_Z base)).
    + now apply round_integer.
    + rewrite Em1, Hb. ring.
Qed.

(** X11.  Below the cap, [add_xp] on a unit changes its experience alone,
    and the experience bonuses never reduce the gain: with a base
    (the amount plus the FlatXPGain uniques) that is not negative and
    below 2^53, and a percentage bonus that is not negative, the unit
    gains at least the base, and exactly the base when the percentage
    bonus is zero. *)
Theorem xp_bonus_never_reduces_gain (unit : MapUnit) (amount : Z)
    (other : ICombatant) (w w' : World) (r : ICombatant)
    (other_civ : Civilization) (bonus : Q) :
  let base :=
    amount + sum_flat_xp_gain (matching_uniques TFlatXPGain (uniques unit)) in
  civilizations w !! Combatant.get_civ_info other = Some other_civ ->
  is_barbarian other_civ
  && (max_xp_from_barbarians <=? total_xp_produced (promotions unit)) = false ->
  sum_percentage_xp_gain (matching_uniques TPercentageXPGain (uniques unit))
  = Float.Finite bonus ->
  0 <= base < 2 ^ 53 -> (0 <= bonus)%Q ->
  add_xp (MapUnitCombatant unit) amount other w = Some (r, w') ->
  exists gained,
    r = MapUnitCombatant (set_xp (xp (promotions unit) + gained) unit)
    /\ base <= gained
    /\ ((bonus == 0)%Q -> gained = base).
Proof.
  intros base Hciv Hcap Hsum Hbase Hbonus E.
  unfold add_xp, bind, civ_is_barbarian in E. rewrite Hciv, Hcap in E.
  fold base in E. rewrite Hsum in E.
  destruct (xp_gained_of base (Float.Finite bonus)) as [gained |] eqn:Eg;
    [| discriminate].
  cbn [lift_option ret] in E.
  exists gained. split.
  - destruct (negb (is_barbarian other_civ)); cbn in E.
    + unfold civ_is_major_civ in E.
      destruct (civilizations w !! civ unit) as [ci |]; [| discriminate].
      destruct (is_major_civ ci).
      * unfold update_civ in E.
        destruct (civilizations w !! civ unit); [| discriminate].
        now injection E as <- <-.
      * now injection E as <- <-.
    + now injection E as <- <-.
  - exact (xp_gained_of_at_least_base _ _ _ Hbase Hbonus Eg).
Qed.

End ExperienceMoreFacts.

Section ExperienceMoreInstances.
Import BattleXp Fixtures.

(** A veteran of thirty experience defeats a brute. *)
Lemma xp_from_barbarians_is_capped_witness :
  @add_xp externals (MapUnitCombatant veteran) 5 (MapUnitCombatant brute) world
  = Some (MapUnitCombatant veteran, world).
Proof.
  apply (@xp_from_barbarians_is_capped externals veteran 5
           (MapUnitCombatant brute) world (make_civ 0 true));
    [reflexivity | reflexivity | simpl; lia].
Defined.

(** A swordsman, with no experience uniques, earns 5 against a spearman. *)
Lemma xp_bonus_never_reduces_gain_witness :
  exists r w' gained,
    @add_xp externals (MapUnitCombatant swordsman) 5 (MapUnitCombatant spearman)
      world = Some (r, w')
    /\ r = MapUnitCombatant (set_xp (0 + gained) swordsman)
    /\ 5 + 0 <= gained
    /\ ((0 == 0)%Q -> gained = 5 + 0).
Proof.
  destruct (@add_xp externals (MapUnitCombatant swordsman) 5
              (MapUnitCombatant spearman) world) as [[r w'] |] eqn:Run;
    [| vm_compute in Run; discriminate].
  destruct (@xp_bonus_never_reduces_gain externals swordsman 5
              (MapUnitCombatant spearman) world w' r (make_civ 150 false) 0%Q
              eq_refl eq_refl eq_refl ltac:(simpl; lia) ltac:(apply Qle_refl) Run)
    as (gained & Result & Facts).
  exists r, w', gained. split; [reflexivity |]. split; [exact Result |].
  exact Facts.
Defined.

(** With a bonus of 40 percent on a base of 45 the product is the float
    below 63, and the gain is 62. *)
Example xp_gain_is_rounded :
  xp_gained_of 45 (Float.Finite 40) = Some 62.
Proof. vm_compute. reflexivity. Qed.

End ExperienceMoreInstances.
Section InterceptionFacts.
Context `{Externals}.
Import AirInterception.

(** X13.  When no unit of the intercepting civilization can intercept on
    the attacked tile, [try_intercept_air_attack] changes nothing and
    takes no draw. *)
Theorem no_interceptor_no_effect (attacker : MapUnit) (attacked_tile : Vector2)
    (intercepting_civ : string) (defender : option ICombatant) (w : World) :
  (forall unit, In unit (units w) -> civ unit = intercepting_civ ->
                can_intercept unit attacked_tile = false) ->
  try_intercept_air_attack attacker attacked_tile intercepting_civ defender w
  = Some ((attacker, DamageDealt_none), w).
Proof.
  intros Hnone. unfold try_intercept_air_attack.
  destruct (has_unique TCannotBeIntercepted attacker); [reflexivity |].
  unfold bind at 1. cbn [get_world].
  destruct (find _ _) as [interceptor |] eqn:Efind; [| reflexivity].
  exfalso. apply find_some in Efind. destruct Efind as [Hin _].
  apply sort_by_chance_In, filter_In in Hin. destruct Hin as [Hin Hok].
  apply andb_true_iff in Hok. destruct Hok as [Hciv Hcan].
  apply String.eqb_eq in Hciv.
  rewrite (Hnone interceptor Hin Hciv) in Hcan. discriminate.
Qed.

End InterceptionFacts.

Section InterceptionInstances.
Import AirInterception Fixtures.

(** Greece has no unit that intercepts. *)
Lemma no_interceptor_no_effect_witness :
  @try_intercept_air_attack externals atomic_bomb (5, 5) "Greece" None world
  = Some ((atomic_bomb, DamageDealt_none), world).
Proof.
  apply (@no_interceptor_no_effect externals).
  intros unit [<- | [<- | []]]; discriminate.
Defined.

End InterceptionInstances.
Section InterceptorChoiceFacts.
Context `{Externals}.
Import AirInterception.

Lemma store_unit_In (u u' : MapUnit) (w : World) :
  In u (units w) -> id u' = id u ->
  In u' (units (store_unit u' w)).
Proof.
  intros Hin Hid. unfold store_unit. simpl.
  apply in_map_iff. exists u. split; [| exact Hin].
  rewrite Hid, Z.eqb_refl. reflexivity.
Qed.

Lemma insert_by_chance_has (u x : MapUnit) (l : list MapUnit) :
  x = u \/ In x l -> In x (insert_by_chance u l).
Proof.
  induction l as [| v l IH]; simpl.
  - intros [-> | []]. now left.
  - destruct (intercept_chance v <? intercept_chance u); simpl.
    + intros [-> | [-> | Hin]]; auto.
    + intros [-> | [-> | Hin]]; auto.
Qed.

Lemma sort_by_chance_has (x : MapUnit) (l : list MapUnit) :
  In x l -> In x (sort_by_chance l).
Proof.
  unfold sort_by_chance.
  assert (G : forall acc, In x acc \/ In x l ->
                          In x (fold_left
                                  (fun sorted u => insert_by_chance u sorted)
                                  l acc)).
  { induction l as [| v l IH]; intros acc Hin; simpl in *.
    - destruct Hin as [Hin | []]. exact Hin.
    - apply IH. destruct Hin as [Hacc | [-> | Hl]]; auto.
      + left. apply insert_by_chance_has. now right.
      + left. apply insert_by_chance_has. now left. }
  intros Hin. apply G. now right.
Qed.

Lemma insert_by_chance_ordered (u : MapUnit) (l : list MapUnit) :
  ForallOrdPairs (fun a b => intercept_chance b <= intercept_chance a) l ->
  ForallOrdPairs (fun a b => intercept_chance b <= intercept_chance a)
                 (insert_by_chance u l).
Proof.
  induction l as [| v l IH]; intros Hord; simpl.
  - constructor; constructor.
  - inversion Hord as [| ? ? Hv Hl]; subst.
    destruct (intercept_chance v <? intercept_chance u) eqn:E.
    + apply Z.ltb_lt in E. constructor; [| exact Hord].
      constructor; [lia |].
      rewrite List.Forall_forall in Hv |- *. intros x Hx.
      specialize (Hv x Hx). cbn in Hv. lia.
    + apply Z.ltb_ge in E. constructor; [| now apply IH].
      rewrite List.Forall_forall in Hv |- *. intros x Hx.
      apply insert_by_chance_In in Hx. destruct Hx as [-> | Hx]; [exact E |].
      now apply Hv.
Qed.

Lemma sort_by_chance_ordered (l : list MapUnit) :
  ForallOrdPairs (fun a b => intercept_chance b <= intercept_chance a)
                 (sort_by_chance l).
Proof.
  unfold sort_by_chance.
  assert (G : forall acc,
            ForallOrdPairs (fun a b => intercept_chance b <= intercept_chance a)
                           acc ->
            ForallOrdPairs (fun a b => intercept_chance b <= intercept_chance a)
                           (fold_left
                              (fun sorted u => insert_by_chance u sorted) l acc)).
  { induction l as [| v l IH]; intros acc Hacc; simpl; [exact Hacc |].
    apply IH. now apply insert_by_chance_ordered. }
  apply G. constructor.
Qed.

Lemma find_in_ordered (f : MapUnit -> bool) (l : list MapUnit) (a : MapUnit) :
  ForallOrdPairs (fun a b => intercept_chance b <= intercept_chance a) l ->
  find f l = Some a ->
  forall x, In x l -> f x = true -> intercept_chance x <= intercept_chance a.
Proof.
  induction l as [| h t IH]; intros Hord Efind x Hin Hfx; [contradiction |].
  inversion Hord as [| ? ? Hh Ht]; subst. simpl in Efind.
  destruct (f h) eqn:Eh.
  - injection Efind as <-. destruct Hin as [-> | Hin]; [lia |].
    rewrite List.Forall_forall in Hh. now apply Hh.
  - destruct Hin as [-> | Hin]; [congruence |]. now apply IH.
Qed.

(** X14.  [try_intercept_air_attack] picks an interceptor of the highest
    interception chance: when the attacker can be intercepted and some
    unit of the intercepting civilization may intercept on the attacked
    tile, a call that returns has counted the attack of a unit that may
    intercept there, and no unit that may has a higher chance. *)
Theorem interceptor_has_highest_chance (attacker : MapUnit)
    (attacked_tile : Vector2) (intercepting_civ : string)
    (defender : option ICombatant) (w w' : World)
    (r : MapUnit * DamageDealt) (candidate : MapUnit) :
  let may_intercept unit :=
    (civ unit =? intercepting_civ)%string
    && can_intercept unit attacked_tile
    && negb (has_unique TCannotInterceptUnits unit) in
  has_unique TCannotBeIntercepted attacker = false ->
  In candidate (units w) -> may_intercept candidate = true ->
  try_intercept_air_attack attacker attacked_tile intercepting_civ defender w
  = Some (r, w') ->
  exists interceptor interceptor',
    In interceptor (units w) /\ may_intercept interceptor = true
    /\ (forall unit, In unit (units w) -> may_intercept unit = true ->
                     intercept_chance unit <= intercept_chance interceptor)
    /\ In interceptor' (units w')
    /\ id interceptor' = id interceptor
    /\ attacks_this_turn interceptor' = attacks_this_turn interceptor + 1.
Proof.
  intros may_intercept Hcan Hcandidate Hmay E.
  unfold try_intercept_air_attack in E. rewrite Hcan in E.
  apply bind_Some in E. destruct E as (w0 & w1 & Eg & E).
  unfold get_world in Eg. injection Eg as <- <-. cbv zeta in E.
  set (eligible := List.filter _ (units w)) in E.
  set (allowed := fun unit : MapUnit => negb _) in E.
  assert (Hallowed_eq : forall unit,
            allowed unit = negb (has_unique TCannotInterceptUnits unit)).
  { intros unit. unfold allowed. now rewrite andb_true_r. }
  assert (Hmay_iff : forall unit, In unit (units w) ->
            may_intercept unit = true
            <-> In unit (sort_by_chance eligible) /\ allowed unit = true).
  { intros unit Hin. unfold may_intercept, eligible. rewrite Hallowed_eq. split.
    - intros Hm. apply andb_true_iff in Hm. destruct Hm as [Hm1 Hm2].
      split; [| exact Hm2].
      apply sort_by_chance_has, filter_In. now split.
    - intros [Hs Ha]. apply sort_by_chance_In, filter_In in Hs.
      destruct Hs as [_ Hs]. apply andb_true_iff. now split. }
  destruct (find allowed (sort_by_chance eligible)) as [interceptor |] eqn:Efind.
  2: { exfalso. apply (proj1 (Hmay_iff candidate Hcandidate)) in Hmay.
       destruct Hmay as [Hs Ha].
       pose proof (find_none _ _ Efind candidate Hs). congruence. }
  pose proof (find_some _ _ Efind) as [Hsorted Hallowed].
  assert (Hin : In interceptor (units w)).
  { apply sort_by_chance_In, filter_In in Hsorted. tauto. }
  set (counted :=
         set_attacks_this_turn (attacks_this_turn interceptor + 1) interceptor)
    in *.
  assert (Final : In counted (units w')).
  { assert (I1 : In counted (units (store_unit counted w)))
      by (now apply store_unit_In with interceptor).
    apply bind_Some in E. destruct E as ([] & w1 & Es & E).
    unfold modify_world in Es. injection Es as <-.
    apply bind_Some in E. destruct E as (x & w2 & Er & E).
    unfold random_random in Er. injection Er as <- <-.
    match type of E with
    | context [set_random_state ?n ?v] =>
      assert (I2 : In counted (units (set_random_state n v))) by exact I1;
      generalize dependent (set_random_state n v)
    end.
    intros w2 E I2.
    destruct (Qlt_bool _ _).
    { injection E as <- <-. exact I2. }
    apply bind_Some in E. destruct E as (damage & w3 & Ed & E).
    assert (R3 : w3 = w2).
    { revert Ed. apply reads_bind;
        [apply reads_default_randomness_factor |].
      intros f. destruct (Combatant.is_civilian _);
        [apply reads_ret | apply reads_raise]. }
    subst w3.
    apply bind_Some in E. destruct E as (damage' & w4 & El & E).
    apply reads_lift_option in El. subst w4.
    apply bind_Some in E. destruct E as ([] & w5 & Ex & E).
    injection E as <- <-.
    destruct (0 <? _); unfold add_xp_to_interceptor, ret in Ex;
      injection Ex as <-; exact I2. }
  exists interceptor, counted.
  split; [exact Hin |].
  split; [apply Hmay_iff; [exact Hin | split; assumption] |].
  split; [| auto].
  intros unit Hunit Hm. apply (proj1 (Hmay_iff unit Hunit)) in Hm.
  destruct Hm as [Hs Ha].
  exact (find_in_ordered allowed _ _ (sort_by_chance_ordered eligible)
           Efind unit Hs Ha).
Qed.

End InterceptorChoiceFacts.

Section InterceptorChoiceInstances.
Import AirInterception Fixtures.

(** Over (5,5) the only unit of Rome that intercepts is the anti-aircraft
    gun; damaged, it misses the atomic bomb, and its attack is counted. *)
Lemma interceptor_has_highest_chance_witness :
  exists interceptor interceptor',
    In interceptor (units world_with_damaged_gun)
    /\ (civ interceptor =? "Rome")%string
       && @can_intercept externals interceptor (5, 5)
       && negb (has_unique TCannotInterceptUnits interceptor)
       = true
    /\ (forall unit, In unit (units world_with_damaged_gun) ->
          (civ unit =? "Rome")%string
          && @can_intercept externals unit (5, 5)
          && negb (has_unique TCannotInterceptUnits unit) = true ->
          @intercept_chance externals unit
          <= @intercept_chance externals interceptor)
    /\ id interceptor' = id interceptor
    /\ attacks_this_turn interceptor' = attacks_this_turn interceptor + 1.
Proof.
  destruct (@try_intercept_air_attack externals atomic_bomb (5, 5) "Rome" None
              world_with_damaged_gun) as [[r w'] |] eqn:Run;
    [| vm_compute in Run; discriminate].
  destruct (@interceptor_has_highest_chance externals atomic_bomb (5, 5) "Rome"
              None world_with_damaged_gun w' r damaged_gun eq_refl
              ltac:(left; reflexivity) eq_refl Run)
    as (interceptor & interceptor' & Hin & Hmay & Hbest & _ & Hid & Hcount).
  exists interceptor, interceptor'. auto.
Defined.

End InterceptorChoiceInstances.
Section NukeDamageFacts.
Context `{Externals}.
Import Nuke.
Local Open Scope Q_scope.

(** X15.  With draws in [0, 1), [_get_nuke_damage] never raises and its
    result lies between 20 and 108: it is 100 with no draw at ground zero
    or for a strength of 2 or more, between 30 and 108 with two draws for
    strength 1, and between 20 and 49 with one draw otherwise. *)
Theorem nuke_damage_bounds (nuke_strength : Z) (is_ground_zero : bool)
    (w : World) :
  (forall n, 0 <= global_random n /\ global_random n < 1) ->
  exists damage draws,
    _get_nuke_damage nuke_strength is_ground_zero w
    = Some (damage, after_draws draws w)
    /\ 20 <= damage /\ damage <= 108
    /\ (is_ground_zero = true \/ (2 <= nuke_strength)%Z ->
        damage = 100 /\ draws = 0%nat)
    /\ (is_ground_zero = false -> nuke_strength = 1%Z ->
        30 <= damage /\ draws = 2%nat)
    /\ (is_ground_zero = false -> (nuke_strength < 1)%Z ->
        damage <= 49 /\ draws = 1%nat).
Proof.
  intros Hdraws. unfold _get_nuke_damage.
  destruct (is_ground_zero || (2 <=? nuke_strength)%Z) eqn:E.
  - exists 100, 0%nat. rewrite after_no_draw.
    split; [reflexivity |]. split; [lra |]. split; [lra |].
    apply orb_true_iff in E.
    split; [auto |]. split.
    + intros -> ->. destruct E as [E | E]; discriminate.
    + intros -> Hlt. destruct E as [E | E]; [discriminate |].
      apply Z.leb_le in E. lia.
  - apply orb_false_iff in E. destruct E as [-> E]. apply Z.leb_gt in E.
    destruct (nuke_strength =? 1)%Z eqn:E1.
    + apply Z.eqb_eq in E1.
      destruct (random_randint_range 0 39 w Hdraws ltac:(lia))
        as (a & Ea & Ha).
      destruct (random_randint_range 0 39 (after_draws 1 w) Hdraws ltac:(lia))
        as (b & Eb & Hb).
      exists (inject_Z (30 + a + b)), 2%nat.
      unfold bind. rewrite Ea, Eb. rewrite after_draws_succ.
      split; [reflexivity |].
      assert (H20 : 20 <= inject_Z (30 + a + b)).
      { change 20 with (inject_Z 20). rewrite <- Zle_Qle. lia. }
      assert (H108 : inject_Z (30 + a + b) <= 108).
      { change 108 with (inject_Z 108). rewrite <- Zle_Qle. lia. }
      assert (H30 : 30 <= inject_Z (30 + a + b)).
      { change 30 with (inject_Z 30). rewrite <- Zle_Qle. lia. }
      split; [exact H20 |]. split; [exact H108 |].
      split; [intros [C | C]; [discriminate | lia] |].
      split; [auto | intros _ C; lia].
    + apply Z.eqb_neq in E1.
      destruct (random_randint_range 0 29 w Hdraws ltac:(lia))
        as (a & Ea & Ha).
      exists (inject_Z (20 + a)), 1%nat.
      unfold bind. rewrite Ea.
      split; [reflexivity |].
      assert (H20 : 20 <= inject_Z (20 + a)).
      { change 20 with (inject_Z 20). rewrite <- Zle_Qle. lia. }
      assert (H49 : inject_Z (20 + a) <= 49).
      { change 49 with (inject_Z 49). rewrite <- Zle_Qle. lia. }
      split; [exact H20 |]. split; [lra |].
      split; [intros [C | C]; [discriminate | lia] |].
      split; [intros _ C; lia | auto].
Qed.

End NukeDamageFacts.

Section NukeDamageInstances.
Import Nuke Fixtures.
Local Open Scope Q_scope.

(** A nuke of strength 1 away from ground zero. *)
Lemma nuke_damage_bounds_witness :
  exists damage draws,
    @_get_nuke_damage externals 1 false world
    = Some (damage, after_draws draws world)
    /\ 20 <= damage /\ damage <= 108
    /\ (false = true \/ (2 <= 1)%Z -> damage = 100 /\ draws = 0%nat)
    /\ (false = false -> 1%Z = 1%Z -> 30 <= damage /\ draws = 2%nat)
    /\ (false = false -> (1 < 1)%Z -> damage <= 49 /\ draws = 1%nat).
Proof.
  apply (@nuke_damage_bounds externals 1 false world).
  exact fixture_draws_in_unit_interval.
Defined.

End NukeDamageInstances.
Section MayUseNukeFacts.
Context `{Externals}.
Variable is_visible : Vector2 -> string -> World -> bool.
Variable civ_is_defeated : string -> World -> bool.
Variable can_attack : string -> string -> World -> option bool.
Variable get_nuke_blast_radius : MapUnit -> Z.
Import Nuke.

Lemma check_defender_civ_value (a : string) (d : option string)
    (can_nuke can_nuke' : bool) (w w' : World) :
  check_defender_civ civ_is_defeated can_attack a d can_nuke w
  = Some (can_nuke', w') ->
  w' = w
  /\ can_nuke'
     = can_nuke && match d with
                   | Some c => may_be_hit civ_is_defeated can_attack a w c
                   | None => true
                   end.
Proof.
  unfold check_defender_civ, may_be_hit.
  destruct d as [c |].
  2: { intros E. injection E as <- <-. now rewrite andb_true_r. }
  unfold bind at 1. cbn [get_world].
  destruct ((c =? a)%string || civ_is_defeated c w) eqn:E1.
  { intros E. injection E as <- <-. now rewrite andb_true_r. }
  unfold bind, civ_is_barbarian.
  destruct (civilizations w !! c) as [ci |]; [| discriminate].
  destruct (is_barbarian ci).
  { intros E. injection E as <- <-. now rewrite andb_true_r. }
  destruct (option_eqb Bool.eqb (can_attack a c w) (Some true)).
  - intros E. injection E as <- <-. now rewrite andb_true_r.
  - intros E. injection E as <- <-. now rewrite andb_false_r.
Qed.

Lemma check_tiles_value (a : string) (hit_tiles : list Vector2) :
  forall (can_nuke can_nuke' : bool) (w w' : World),
    check_tiles civ_is_defeated can_attack a hit_tiles can_nuke w
    = Some (can_nuke', w') ->
    w' = w
    /\ can_nuke'
       = can_nuke
         && forallb (fun tile =>
                       forallb (may_be_hit civ_is_defeated can_attack a w)
                               (civs_on_tile tile w))
                    hit_tiles.
Proof.
  induction hit_tiles as [| tile rest IH]; intros can_nuke can_nuke' w w' E.
  - injection E as <- <-. now rewrite andb_true_r.
  - cbn [check_tiles] in E. unfold bind at 1 in E. cbn [get_world] in E.
    apply bind_Some in E. destruct E as (b1 & w1 & E1 & E).
    apply check_defender_civ_value in E1. destruct E1 as [-> ->].
    apply bind_Some in E. destruct E as (b2 & w2 & E2 & E).
    apply check_defender_civ_value in E2. destruct E2 as [-> ->].
    apply IH in E. destruct E as [-> ->]. split; [reflexivity |].
    cbn [forallb].
    assert (Ht : forallb (may_be_hit civ_is_defeated can_attack a w)
                         (civs_on_tile tile w)
                 = match tiles w !! tile ≫= owner with
                   | Some c => may_be_hit civ_is_defeated can_attack a w c
                   | None => true
                   end
                   && match Combatant.get_civ_info
                            <$> Battle.get_map_combatant_of_tile tile w with
                      | Some c => may_be_hit civ_is_defeated can_attack a w c
                      | None => true
                      end).
    { unfold civs_on_tile. rewrite forallb_app.
      destruct (tiles w !! tile ≫= owner);
        destruct (Battle.get_map_combatant_of_tile tile w);
        cbn; rewrite ?andb_true_r; reflexivity. }
    rewrite Ht, !andb_assoc. reflexivity.
Qed.

(** X17.  [may_use_nuke] reads the game state and changes nothing, and it
    allows the strike exactly when the target is not the tile of the
    nuke, the target is visible to its civilization, and every
    civilization that owns a tile in the blast radius or has the
    combatant of such a tile is the attacker itself, defeated, barbarian,
    or one the attacker can attack. *)
Theorem may_use_nuke_characterised (nuke : MapUnit) (target_tile : Vector2)
    (allowed : bool) (w w' : World) :
  may_use_nuke is_visible civ_is_defeated can_attack get_nuke_blast_radius
    nuke target_tile w = Some (allowed, w') ->
  w' = w
  /\ allowed
     = negb (Vector2_eqb (current_tile nuke) target_tile)
       && is_visible target_tile (civ nuke) w
       && forallb (fun tile =>
                     forallb (may_be_hit civ_is_defeated can_attack (civ nuke) w)
                             (civs_on_tile tile w))
                  (get_tiles_in_distance target_tile
                     (get_nuke_blast_radius nuke)).
Proof.
  unfold may_use_nuke.
  destruct (Vector2_eqb (current_tile nuke) target_tile).
  { intros E. now injection E as <- <-. }
  unfold bind at 1. cbn [get_world].
  destruct (is_visible target_tile (civ nuke) w).
  2: { intros E. now injection E as <- <-. }
  intros E. apply check_tiles_value in E. exact E.
Qed.

End MayUseNukeFacts.

Section MayUseNukeInstances.
Import Nuke Fixtures.

(** Greece, at peace with Rome, may not drop its bomb on (5,5): every tile
    is visible, no civilization is defeated, and only a civilization at
    war can be attacked. *)
Lemma may_use_nuke_characterised_witness :
  let is_visible := fun (_ : Vector2) (_ : string) (_ : World) => true in
  let civ_is_defeated := fun (_ : string) (_ : World) => false in
  let can_attack := fun (a d : string) (w : World) =>
                      is_war <$> diplomacy w !! (a, d) in
  let get_nuke_blast_radius := fun _ : MapUnit => 1 in
  exists allowed w',
    @may_use_nuke externals is_visible civ_is_defeated can_attack
      get_nuke_blast_radius atomic_bomb (5, 5) world = Some (allowed, w')
    /\ allowed = false
    /\ w' = world
    /\ allowed
       = negb (Vector2_eqb (current_tile atomic_bomb) (5, 5))
         && is_visible (5, 5) (civ atomic_bomb) world
         && forallb (fun tile =>
                       forallb (may_be_hit civ_is_defeated can_attack
                                           (civ atomic_bomb) world)
                               (civs_on_tile tile world))
                    (@get_tiles_in_distance externals (5, 5)
                       (get_nuke_blast_radius atomic_bomb)).
Proof.
  intros is_visible civ_is_defeated can_attack get_nuke_blast_radius.
  eexists _, _.
  assert (E : forall A B C : Prop, A -> B -> (A -> C) -> A /\ B /\ C)
    by (intros; tauto).
  apply E; clear E.
  - vm_compute. reflexivity.
  - reflexivity.
  - intros Run.
    exact (@may_use_nuke_characterised externals is_visible civ_is_defeated
             can_attack get_nuke_blast_radius _ _ _ _ _ Run).
Defined.

(** Over (0,0), away from Rome, the strike is allowed. *)
Example may_use_nuke_on_empty_land :
  @may_use_nuke externals (fun _ _ _ => true) (fun _ _ => false)
    (fun a d w => is_war <$> diplomacy w !! (a, d)) (fun _ => 1)
    atomic_bomb (0, 0) world
  = Some (true, world).
Proof. vm_compute. reflexivity. Qed.

End MayUseNukeInstances.
Section PrizeShipFacts.
Context `{Externals}.
Import BattleUnitCapture.
Local Open Scope Q_scope.


End PrizeShipFacts.

Section PrizeShipInstances.
Import BattleUnitCapture Fixtures.
Local Open Scope Q_scope.


Example privateer_fails_on_a_high_roll :
  @unit_captured_prize_ships_unique externals
    (make_unit 13 "Privateer" "Greece" melee_base 100%Z [KillUnitCapture "All"]
               (0%Z, 1%Z))
    fallen_legion world
  = Some (false, world).
Proof. vm_compute. reflexivity. Qed.

End PrizeShipInstances.
Section AirSweepFacts.
Context `{Externals}.
Variable game_civilizations : World -> list string.
Variable is_at_war_with : string -> string -> World -> bool.
Variable sample_order : nat -> list MapUnit -> list MapUnit.
Variable sample_draws : nat -> list MapUnit -> nat.
Import AirSweep.

(** X21.  An air sweep counts as an attack even if nothing else happens:
    when no unit intercepts, or the interceptor is not an air unit, the
    attacker takes no damage and earns no experience; it comes back as
    [count_sweep] left it, with its action cleared, and for a unit that
    moves like air units this means one attack more and nothing else.
    The game state changes by the draws of the sample and the attack
    counted for the interceptor. *)
Theorem quiet_air_sweep (attacker : MapUnit) (attacked_tile : Vector2)
    (w : World) :
  let swept := count_sweep attacker in
  let population :=
    potential_interceptors game_civilizations is_at_war_with (civ swept)
      attacked_tile w in
  let engaged :=
    engaged_interceptor (sample_order (random_state w) population) in
  let w1 := after_draws (sample_draws (random_state w) population) w in
  match engaged with
  | Some interceptor => bu_is_air_unit (base_unit interceptor) = false
  | None => True
  end ->
  air_sweep game_civilizations is_at_war_with sample_order sample_draws
    attacker attacked_tile w
  = Some (set_action None swept,
          match engaged with
          | Some interceptor =>
            AirInterception.store_unit
              (set_attacks_this_turn (attacks_this_turn interceptor + 1)
                                     interceptor) w1
          | None => w1
          end)
  /\ (moves_like_air_units (base_unit attacker) = true ->
      attacks_this_turn swept = attacks_this_turn attacker + 1
      /\ health swept = health attacker
      /\ promotions swept = promotions attacker
      /\ current_tile swept = current_tile attacker).
Proof.
  intros swept population engaged w1 Hquiet. split.
  - unfold air_sweep. fold swept. unfold bind at 1. cbn [get_world].
    unfold bind at 1, random_sample. fold population. fold engaged. fold w1.
    destruct engaged as [interceptor |]; [| reflexivity].
    unfold bind, modify_world.
    cbn [base_unit set_attacks_this_turn]. rewrite Hquiet. reflexivity.
  - intros Hair. unfold swept, count_sweep.
    cbn [base_unit set_attacks_this_turn]. rewrite Hair. cbn [negb].
    destruct (_ || _); cbn; auto.
Qed.

Lemma head_In {A : Type} (l : list A) (x : A) : head l = Some x -> In x l.
Proof. destruct l; [discriminate |]. intros E. injection E as <-. now left. Qed.

(** X22.  The interceptor of an air sweep.  When the sample holds only
    units of its population, the engaged interceptor is a unit of a
    civilization at war with the attacker that can intercept on the
    attacked tile, it is an air unit whenever some such unit is, and no
    sampled unit has a higher interception chance. *)
Theorem air_interceptors_take_priority (attacking_civ : string)
    (attacked_tile : Vector2) (w : World) (interceptor : MapUnit) :
  let sampled :=
    sample_order (random_state w)
      (potential_interceptors game_civilizations is_at_war_with attacking_civ
         attacked_tile w) in
  (forall n l x, In x (sample_order n l) -> In x l) ->
  engaged_interceptor sampled = Some interceptor ->
  In interceptor (units w)
  /\ can_intercept interceptor attacked_tile = true
  /\ In (civ interceptor) (game_civilizations w)
  /\ is_at_war_with attacking_civ (civ interceptor) w = true
  /\ ((exists unit,
         In unit (all_potential_interceptors game_civilizations is_at_war_with
                    attacking_civ attacked_tile w)
         /\ bu_is_air_unit (base_unit unit) = true) ->
      bu_is_air_unit (base_unit interceptor) = true)
  /\ (forall unit, In unit sampled ->
        intercept_chance unit <= intercept_chance interceptor).
Proof.
  intros sampled Hsample Hengaged. unfold engaged_interceptor in Hengaged.
  pose proof (head_In _ _ Hengaged) as Hsorted.
  pose proof (sort_by_chance_In _ _ Hsorted) as Hsampled.
  apply Hsample in Hsampled.
  assert (Hall : In interceptor
                    (all_potential_interceptors game_civilizations is_at_war_with
                       attacking_civ attacked_tile w)).
  { unfold potential_interceptors in Hsampled.
    destruct (existsb _ _); [| exact Hsampled].
    apply filter_In in Hsampled. tauto. }
  pose proof Hall as Hall'.
  unfold all_potential_interceptors in Hall'. apply in_flat_map in Hall'.
  destruct Hall' as (c & Hc & Hin).
  destruct (is_at_war_with attacking_civ c w) eqn:Ewar; [| contradiction].
  apply filter_In in Hin. destruct Hin as [Hunit Hok].
  apply andb_true_iff in Hok. destruct Hok as [Hciv Hcan].
  apply String.eqb_eq in Hciv. subst c.
  split; [exact Hunit |]. split; [exact Hcan |]. split; [exact Hc |].
  split; [exact Ewar |]. split.
  - intros (unit & Hu & Hair).
    unfold potential_interceptors in Hsampled.
    destruct (existsb _ _) eqn:Eex.
    + apply filter_In in Hsampled. tauto.
    + exfalso.
      assert (Eex' : existsb (fun unit => bu_is_air_unit (base_unit unit))
                       (all_potential_interceptors game_civilizations
                          is_at_war_with attacking_civ attacked_tile w) = true)
        by (apply existsb_exists; eauto).
      congruence.
  - intros unit Hu. apply sort_by_chance_has in Hu.
    pose proof (sort_by_chance_ordered sampled) as Hord.
    destruct (AirInterception.sort_by_chance sampled) as [| first rest];
      [discriminate |].
    injection Hengaged as ->.
    inversion Hord as [| ? ? Hfirst _]; subst.
    destruct Hu as [-> | Hu]; [lia |].
    rewrite List.Forall_forall in Hfirst. now apply Hfirst.
Qed.

End AirSweepFacts.

Section AirSweepInstances.
Import AirSweep Fixtures.

(** A fighter of Greece, at war with Rome, sweeps over (5,5), where only
    the anti-aircraft gun intercepts; the sample reverses its population
    and takes a draw per unit. *)
Lemma quiet_air_sweep_witness :
  let fighter := make_unit 15 "Fighter" "Greece" nuclear_base 100 [] (9, 9) in
  let game_civilizations := fun _ : World => ["Rome"; "Greece"; "Barbarians"] in
  let is_at_war_with := fun (_ c : string) (_ : World) => (c =? "Rome")%string in
  let sample_order := fun (_ : nat) (l : list MapUnit) => rev l in
  let sample_draws := fun (_ : nat) (l : list MapUnit) => length l in
  @air_sweep externals game_civilizations is_at_war_with sample_order
    sample_draws fighter (5, 5) world
  = Some (set_action None (@count_sweep externals fighter),
          @AirInterception.store_unit
            (set_attacks_this_turn 1 anti_aircraft_gun) (after_draws 1 world))
  /\ (moves_like_air_units (base_unit fighter) = true ->
      attacks_this_turn (@count_sweep externals fighter)
      = attacks_this_turn fighter + 1
      /\ health (@count_sweep externals fighter) = health fighter
      /\ promotions (@count_sweep externals fighter) = promotions fighter
      /\ current_tile (@count_sweep externals fighter) = current_tile fighter).
Proof.
  intros fighter game_civilizations is_at_war_with sample_order sample_draws.
  apply (@quiet_air_sweep externals game_civilizations is_at_war_with
           sample_order sample_draws fighter (5, 5) world).
  reflexivity.
Defined.

Lemma air_interceptors_take_priority_witness :
  let game_civilizations := fun _ : World => ["Rome"; "Greece"; "Barbarians"] in
  let is_at_war_with := fun (_ c : string) (_ : World) => (c =? "Rome")%string in
  let sample_order := fun (_ : nat) (l : list MapUnit) => rev l in
  let sampled :=
    sample_order 0%nat
      (@potential_interceptors externals game_civilizations is_at_war_with
         "Greece" (5, 5) world) in
  In anti_aircraft_gun (units world)
  /\ @can_intercept externals anti_aircraft_gun (5, 5) = true
  /\ In (civ anti_aircraft_gun) (game_civilizations world)
  /\ is_at_war_with "Greece" (civ anti_aircraft_gun) world = true
  /\ ((exists unit,
         In unit (@all_potential_interceptors externals game_civilizations
                    is_at_war_with "Greece" (5, 5) world)
         /\ bu_is_air_unit (base_unit unit) = true) ->
      bu_is_air_unit (base_unit anti_aircraft_gun) = true)
  /\ (forall unit, In unit sampled ->
        @intercept_chance externals unit
        <= @intercept_chance externals anti_aircraft_gun).
Proof.
  intros game_civilizations is_at_war_with sample_order sampled.
  apply (@air_interceptors_take_priority externals game_civilizations
           is_at_war_with sample_order "Greece" (5, 5) world anti_aircraft_gun).
  - intros n l x Hx. now apply in_rev.
  - reflexivity.
Defined.

End AirSweepInstances.
Section GreatGeneralFacts.
Context `{Externals}.
Variable has_strength_bonus_in_radius_unique : MapUnit -> bool.
Variable strength_bonus_in_radius :
  MapUnit -> MapUnit -> ICombatant -> CombatAction ->
  list (string * string * string).
Variable aerial_distance : Vector2 -> Vector2 -> Z.
Variable provides_double_combat_bonus : MapUnit -> bool.
Variable is_great_person_of_type_war : MapUnit -> bool.
Import GreatGeneralImplementation.

Lemma int_of_digits_nonneg (s : string) (acc : Z) :
  0 <= acc -> 0 <= int_of_digits acc s.
Proof.
  revert acc. induction s as [| c rest IH]; intros acc Hacc; simpl;
    [exact Hacc | apply IH; lia].
Qed.

Lemma int_if_digit_nonneg (p : string) : 0 <= int_if_digit p.
Proof.
  unfold int_if_digit. destruct (isdigit p); [| lia].
  apply int_of_digits_nonneg. lia.
Qed.

Lemma max_by_bonus_is_max (rest : list GeneralBonusData) :
  forall best,
    In (max_by_bonus best rest) (best :: rest)
    /\ forall data, In data (best :: rest) ->
                    bonus data <= bonus (max_by_bonus best rest).
Proof.
  induction rest as [| x rest IH]; intros best; simpl.
  - split; [now left |]. intros data [-> | []]. lia.
  - destruct (IH (if bonus best <? bonus x then x else best)) as [Hin Hmax].
    split.
    + destruct Hin as [Hin | Hin]; [| auto].
      rewrite <- Hin. destruct (bonus best <? bonus x); auto.
    + intros data Hdata.
      assert (Hstep : bonus best <= bonus (if bonus best <? bonus x then x else best)
                      /\ bonus x <= bonus (if bonus best <? bonus x then x else best)).
      { destruct (bonus best <? bonus x) eqn:E;
          [apply Z.ltb_lt in E | apply Z.ltb_ge in E]; lia. }
      pose proof (Hmax _ (or_introl eq_refl)) as Hcur.
      destruct Hdata as [-> | [-> | Hdata]]; [lia | lia |].
      apply Hmax. now right.
Qed.

(** X23.  The great general bonus is that of the best general in reach:
    with no general of the unit's civilization in whose radius the unit
    stands and whose filter it matches the result is ("", 0); otherwise
    the result names such a general, of the largest bonus among them, and
    gives that bonus, doubled for a unit with the double-bonus unique
    under a great person of type War.  The bonus is never negative. *)
Theorem great_general_bonus_is_best (unit : MapUnit) (enemy : ICombatant)
    (combat_action : CombatAction) (w : World) :
  let in_reach :=
    great_generals has_strength_bonus_in_radius_unique strength_bonus_in_radius
      aerial_distance unit enemy combat_action w in
  let result :=
    get_great_general_bonus has_strength_bonus_in_radius_unique
      strength_bonus_in_radius aerial_distance provides_double_combat_bonus
      is_great_person_of_type_war unit enemy combat_action w in
  0 <= snd result
  /\ (in_reach = [] -> result = (EmptyString, 0))
  /\ (in_reach <> [] ->
      exists best,
        In best in_reach
        /\ (forall data, In data in_reach -> bonus data <= bonus best)
        /\ In (general best) (units w)
        /\ civ (general best) = civ unit
        /\ aerial_distance (current_tile (general best)) (current_tile unit)
           <= radius best
        /\ fst result = name (general best)
        /\ snd result
           = if provides_double_combat_bonus unit
                && is_great_person_of_type_war (general best)
             then bonus best * 2 else bonus best).
Proof.
  intros in_reach result.
  assert (Hdata : forall data, In data in_reach ->
            0 <= bonus data
            /\ In (general data) (units w)
            /\ civ (general data) = civ unit
            /\ aerial_distance (current_tile (general data)) (current_tile unit)
               <= radius data).
  { intros data Hin. unfold in_reach, great_generals in Hin.
    apply in_flat_map in Hin. destruct Hin as (g & Hg & Hin).
    apply filter_In in Hin. destruct Hin as [Hin Hok].
    apply in_map_iff in Hin. destruct Hin as (params & <- & _).
    cbn [general bonus radius from_unique] in *.
    unfold all_generals in Hg. apply filter_In in Hg. destruct Hg as [Hg Hc].
    apply andb_true_iff in Hc. destruct Hc as [Hc _].
    apply String.eqb_eq in Hc.
    apply andb_true_iff in Hok. destruct Hok as [Hr _]. apply Z.leb_le in Hr.
    split; [apply int_if_digit_nonneg | auto]. }
  assert (Hnone : all_generals has_strength_bonus_in_radius_unique unit w = [] ->
                  in_reach = []).
  { intros E. unfold in_reach, great_generals. rewrite E. reflexivity. }
  unfold result, get_great_general_bonus. fold in_reach.
  destruct (all_generals has_strength_bonus_in_radius_unique unit w)
    as [| g gs] eqn:Eall.
  { rewrite (Hnone eq_refl). cbn. split; [lia |]. split; [auto | congruence]. }
  destruct in_reach as [| first rest] eqn:Ereach.
  { cbn. split; [lia |]. split; [auto | congruence]. }
  destruct (max_by_bonus_is_max rest first) as [Hin Hmax].
  set (best := max_by_bonus first rest) in *.
  destruct (Hdata best Hin) as (Hb0 & Hunits & Hciv & Hrange).
  split; [| split; [discriminate |]].
  - destruct (_ && _); cbn [snd]; lia.
  - intros _. exists best.
    split; [exact Hin |]. split; [exact Hmax |]. split; [exact Hunits |].
    split; [exact Hciv |]. split; [exact Hrange |].
    destruct (_ && _); split; reflexivity.
Qed.

End GreatGeneralFacts.

Section GreatGeneralInstances.
Import GreatGeneralImplementation Fixtures.

(** The parameters of a unique are parsed as numbers only when they are
    written in digits. *)
Example int_if_digit_examples :
  int_if_digit "15" = 15 /\ int_if_digit "007" = 7
  /\ int_if_digit "" = 0 /\ int_if_digit "-5" = 0 /\ int_if_digit "2a" = 0.
Proof. repeat split. Qed.

(** The legion stands next to the anti-aircraft gun, which here carries a
    bonus of 15 in radius 2 for the military and one of 30 in radius 0. *)
Example legion_near_a_general :
  @get_great_general_bonus externals
    (fun u => (name u =? "Anti-Aircraft Gun")%string)
    (fun _ _ _ _ => [("15", "Military", "2"); ("30", "Military", "0")])
    (fun a b => Z.abs (fst a - fst b) + Z.abs (snd a - snd b))
    (fun _ => false) (fun _ => true)
    legion (MapUnitCombatant warrior) Attack world
  = ("Anti-Aircraft Gun", 15).
Proof. vm_compute. reflexivity. Qed.

End GreatGeneralInstances.
Section CityCenterFacts.
Context `{Externals}.
Import Nuke.













End CityCenterFacts.

Section CityCenterInstances.
Import Nuke Fixtures.



(** The city itself is hit: Rome, at 1 health, stays at 1, and loses
    population.  The bomb of another civilization raises over it, when the
    notification of the battle is written without the tile of the
    attacker. *)
Example rome_under_the_bomb :
  match @_do_nuke_explosion_for_tile externals roman_bomb (3, 3) 1 true
          world_with_rome with
  | Some (_, w') =>
    (city_health <$> cities w' !! (3, 3)) = Some 1
    /\ (population <$> cities w' !! (3, 3)) = Some 3
    /\ tiles w' !! (3, 3) = Some rome_center
    /\ @_do_nuke_explosion_for_tile externals atomic_bomb (3, 3) 1 true
         world_with_rome = None
  | None => False
  end.
Proof. vm_compute. repeat split. Qed.

End CityCenterInstances.
Section AttackWithdrawalFacts.
Context `{Externals}.
Import Battle.

(** X25.  A defender that withdraws before melee combat takes no damage:
    when a melee unit that is no air unit attacks a unit with the
    WithdrawsBeforeMeleeCombat unique and the withdrawal succeeds,
    [Battle.attack] returns no damage, with the two units and the game
    state as the withdrawal left them. *)
Theorem withdrawn_defender_takes_no_damage (attacker defender : MapUnit)
    (attacker' defender' : MapUnit) (w w' : World) :
  bu_is_air_unit (base_unit attacker) = false ->
  Combatant.is_melee (MapUnitCombatant attacker) = true ->
  has_unique TWithdrawsBeforeMeleeCombat defender = true ->
  do_withdraw_from_melee_ability
    (set_attacks_since_turn_start
       (attacks_since_turn_start attacker ++ [current_tile defender]) attacker)
    defender w
  = Some ((true, attacker', defender'), w') ->
  attack (MapUnitCombatant attacker) (MapUnitCombatant defender) w
  = Some ((MapUnitCombatant attacker', MapUnitCombatant defender',
           DamageDealt_none), w').
Proof.
  intros Hair Hmelee Hunique Hwithdraw.
  unfold attack, attack_until_xp, append_attack.
  unfold bind at 1. unfold bind at 1. cbn [ret Combatant.get_tile].
  cbn [base_unit set_attacks_since_turn_start]. rewrite Hair.
  unfold attack_after_interception.
  assert (Hmelee' : Combatant.is_melee
                      (MapUnitCombatant
                         (set_attacks_since_turn_start
                            (attacks_since_turn_start attacker
                             ++ [current_tile defender]) attacker)) = true)
    by exact Hmelee.
  rewrite Hmelee', Hunique. cbn [andb].
  unfold bind at 1. rewrite Hwithdraw. reflexivity.
Qed.

End AttackWithdrawalFacts.

Section AttackWithdrawalInstances.
Import Battle Fixtures.

(** The warrior attacks the scout, which withdraws to (2,0). *)
Lemma withdrawn_defender_takes_no_damage_witness :
  exists attacker' defender' w',
    @do_withdraw_from_melee_ability externals
      (set_attacks_since_turn_start [(1, 0)] warrior) scout world
    = Some ((true, attacker', defender'), w')
    /\ @attack externals (MapUnitCombatant warrior) (MapUnitCombatant scout)
         world
       = Some ((MapUnitCombatant attacker', MapUnitCombatant defender',
                DamageDealt_none), w').
Proof.
  eexists _, _, _.
  assert (E : forall A B : Prop, A -> (A -> B) -> A /\ B) by (intros; tauto).
  apply E; clear E.
  - vm_compute. reflexivity.
  - intros Withdrawn.
    exact (@withdrawn_defender_takes_no_damage externals warrior scout _ _
             world _ eq_refl eq_refl eq_refl Withdrawn).
Defined.

End AttackWithdrawalInstances.
Section CaptureAttemptFacts.
Context `{Externals}.
Import BattleUnitCapture.

(** X26.  [try_capture_military_unit] makes no attempt, and changes
    nothing, unless both combatants are units and the defender is a
    defeated military unit that is not uncapturable: no gold is granted,
    no unit is placed, and the result is False. *)
Theorem no_capture_attempt (attacker defender : ICombatant)
    (attacked_tile : Vector2) (w : World) :
  match attacker, defender with
  | MapUnitCombatant _, MapUnitCombatant defender_unit =>
    has_unique TUncapturable defender_unit
    || negb (Combatant.is_defeated defender)
    || bu_is_civilian (base_unit defender_unit)
  | _, _ => true
  end = true ->
  try_capture_military_unit attacker defender attacked_tile w
  = Some (false, w).
Proof.
  intros Hno. unfold try_capture_military_unit.
  destruct defender as [defender_unit | city]; [| reflexivity].
  destruct attacker as [attacker_unit | city]; [| reflexivity].
  destruct (has_unique TUncapturable defender_unit); [reflexivity |].
  cbn [orb] in Hno. rewrite Hno. reflexivity.
Qed.

End CaptureAttemptFacts.

Section CaptureAttemptInstances.
Import BattleUnitCapture Fixtures.

(** The spearman, at full health, is not captured by the swordsman, whose
    unique would grant gold for a defeated unit. *)
Lemma no_capture_attempt_witness :
  @try_capture_military_unit externals (MapUnitCombatant swordsman)
    (MapUnitCombatant spearman) (1, 1) world
  = Some (false, world).
Proof.
  apply (@no_capture_attempt externals). reflexivity.
Defined.

End CaptureAttemptInstances.
Section SurvivorFacts.
Context `{Externals}.
Import Battle.

Lemma exchange_loop_leaves_a_survivor (fuel : nat) :
  forall (s s' : Exchange) (w w' : World) (exit : LoopExit),
    Combatant.is_defeated (ex_attacker s) = false ->
    Combatant.is_defeated (ex_defender s) = false ->
    exchange_loop fuel s w = Some ((exit, s'), w') ->
    Combatant.is_defeated (ex_attacker s')
    && Combatant.is_defeated (ex_defender s') = false
    /\ (exit <> Break ->
        Combatant.is_defeated (ex_attacker s') = false
        /\ Combatant.is_defeated (ex_defender s') = false).
Proof.
  induction fuel as [| fuel IH]; intros s s' w w' exit Ha Hd E.
  - simpl in E. destruct (0 <? _); injection E as <- <- <-;
      rewrite Ha, Hd; auto.
  - destruct (Z_lt_le_dec 0 (potential_damage_to_defender s
                             + potential_damage_to_attacker s)) as [Hsum | Hsum].
    2: { rewrite exchange_loop_done in E by exact Hsum.
         injection E as <- <- <-. rewrite Ha, Hd. auto. }
    rewrite exchange_loop_step in E by exact Hsum.
    destruct (Qlt_bool _ _).
    + destruct (Combatant.is_defeated (ex_defender (hit_defender s))) eqn:Ehit.
      * injection E as <- <- <-. cbn [hit_defender ex_attacker]. rewrite Ha.
        split; [reflexivity | congruence].
      * apply IH in E; [exact E | exact Ha | exact Ehit].
    + destruct (Combatant.is_defeated (ex_attacker (hit_attacker s))) eqn:Ehit.
      * injection E as <- <- <-. cbn [hit_attacker ex_defender]. rewrite Hd.
        split; [apply andb_false_r | congruence].
      * apply IH in E; [exact E | exact Ehit | exact Hd].
Qed.

(** X27.  The exchange of damage never defeats both sides: when neither
    combatant is defeated before it, at most one is after it, whether the
    attacker shoots from range or the two trade blows. *)
Theorem exchange_leaves_a_survivor (attacker defender attacker' defender' : ICombatant)
    (potential_damage_to_defender potential_damage_to_attacker : Z)
    (w w' : World) :
  Combatant.is_defeated attacker = false ->
  Combatant.is_defeated defender = false ->
  exchange_damage attacker defender potential_damage_to_defender
    potential_damage_to_attacker w = Some ((attacker', defender'), w') ->
  Combatant.is_defeated attacker' && Combatant.is_defeated defender' = false.
Proof.
  intros Ha Hd E. unfold exchange_damage in E.
  destruct (_ && _).
  - injection E as <- <- <-. rewrite Ha. reflexivity.
  - apply bind_Some in E. destruct E as ([exit s'] & w1 & Eloop & E).
    injection E as <- <- <-.
    now apply exchange_loop_leaves_a_survivor in Eloop.
Qed.

End SurvivorFacts.

Section SurvivorInstances.
Import Battle Fixtures.

(** The swordsman and the spearman trade 34 and 25 points. *)
Lemma exchange_leaves_a_survivor_witness :
  exists attacker' defender' w',
    @exchange_damage externals (MapUnitCombatant swordsman)
      (MapUnitCombatant spearman) 34 25 world
    = Some ((attacker', defender'), w')
    /\ Combatant.is_defeated attacker' && Combatant.is_defeated defender' = false.
Proof.
  eexists _, _, _.
  assert (E : forall A B : Prop, A -> (A -> B) -> A /\ B) by (intros; tauto).
  apply E; clear E.
  - vm_compute. reflexivity.
  - intros Run.
    exact (@exchange_leaves_a_survivor externals (MapUnitCombatant swordsman)
             (MapUnitCombatant spearman) _ _ 34 25 world _
             eq_refl eq_refl Run).
Defined.

End SurvivorInstances.
Section StrengthFacts.
Context `{Externals}.
Import BattleDamage.

Lemma max_is_at_least_one (y : Float.float) :
  Float.leb (Float.Finite 1) (Float.max (Float.Finite 1) y) = true.
Proof.
  unfold Float.max. destruct (Float.ltb (Float.Finite 1) y) eqn:E;
    [| reflexivity].
  destruct y as [q | s |]; cbn [Float.ltb Float.leb] in *;
    [| exact E | discriminate].
  unfold Qlt_bool in E. apply negb_true_iff, Qle_bool_false in E.
  apply Qle_bool_iff. apply Qlt_le_weak. exact E.
Qed.

(** X28.  The strength of a combatant in a battle never drops below 1:
    what [get_attacking_strength] and [get_defending_strength] return is
    a float that is at least 1.0, whatever the modifiers add up to (a
    product that is NaN gives 1.0 too), and the game state is as
    before. *)
Theorem strength_is_at_least_one (attacker defender : ICombatant)
    (tile_to_attack_from : Vector2) (w w' : World) (strength : Float.float) :
  get_attacking_strength attacker defender tile_to_attack_from w
    = Some (strength, w')
  \/ get_defending_strength attacker defender tile_to_attack_from w
     = Some (strength, w') ->
  Float.leb (Float.Finite 1) strength = true /\ w' = w.
Proof.
  intros [E | E].
  - unfold get_attacking_strength in E.
    apply bind_Some in E. destruct E as (modifiers & w1 & E1 & E).
    apply reads_get_attack_modifiers in E1. subst w1.
    apply bind_Some in E. destruct E as (bonus & w2 & E2 & E).
    apply reads_lift_option in E2. subst w2.
    apply bind_Some in E. destruct E as (base & w3 & E3 & E).
    apply reads_lift_option in E3. subst w3.
    unfold ret in E. injection E as <- <-.
    split; [apply max_is_at_least_one | reflexivity].
  - unfold get_defending_strength in E.
    apply bind_Some in E. destruct E as (modifiers & w1 & E1 & E).
    apply reads_get_defence_modifiers in E1. subst w1.
    apply bind_Some in E. destruct E as (bonus & w2 & E2 & E).
    apply reads_lift_option in E2. subst w2.
    apply bind_Some in E. destruct E as (base & w3 & E3 & E).
    apply reads_lift_option in E3. subst w3.
    unfold ret in E. injection E as <- <-.
    split; [apply max_is_at_least_one | reflexivity].
Qed.

End StrengthFacts.

Section StrengthInstances.
Import BattleDamage Fixtures.

(** The warrior attacks the scout with its strength of 8. *)
Lemma strength_is_at_least_one_witness :
  exists strength w',
    @get_attacking_strength externals
      (MapUnitCombatant warrior) (MapUnitCombatant scout) (0, 0) world
    = Some (strength, w')
    /\ Float.leb (Float.Finite 1) strength = true /\ w' = world.
Proof.
  assert (E : @get_attacking_strength externals
                (MapUnitCombatant warrior) (MapUnitCombatant scout) (0, 0) world
              = Some (Float.Finite 8, world)) by (vm_compute; reflexivity).
  eexists _, _. split; [exact E |].
  exact (@strength_is_at_least_one externals _ _ _ _ _ _ (or_introl E)).
Defined.

(** A unit without strength, and a penalty that takes all of a
    strength, still fight with 1. *)
Example no_strength_fights_with_one :
  Float.max (Float.Finite 1) (Float.mul (Float.Finite 0) (Float.Finite 1))
  = Float.Finite 1
  /\ modifiers_to_final_bonus [("Landing", -50); ("Across river", -50)]
     = Some (Float.Finite 0).
Proof. split; vm_compute; reflexivity. Qed.

End StrengthInstances.
